(** * Tamper-evident record keeping: ledger blocks and the history store

    A shallow embedding of the model classes of [js/models.js] ([BaseModel],
    [Transaction], [SmartContract], [Block], the generated address of
    [User], and the [DataStore]) and of the history store of
    [js/history-storage.js] ([save], [loadAll], [deleteRecord], [clearAll],
    [rebuildPdf]), together with the library functions they call: SHA-256
    (CryptoJS.SHA256 and crypto.subtle.digest), HMAC-SHA-256
    (CryptoJS.HmacSHA256), [JSON.stringify], [btoa] and [atob].  Definitions
    come first, properties after them.

    Conventions.
    - A JavaScript string is a [string]: the sequence of bytes of its UTF-8
      encoding (what CryptoJS hashes).  Hash values are ASCII, so
      [substring] on them counts characters as JavaScript does.
    - A JavaScript number is an integer, a [Z]; difficulties and lengths are
      [nat].
    - An [ArrayBuffer] is a [list byte]; a [Uint8Array] is a run of bytes
      inside its underlying buffer.
    - Code that can throw returns a sum: [inl e] is the exception [e].
    - A loop that need not end takes the number of iterations to observe.
    - [localStorage] has room for every write of the history store; for
      the [DataStore], whose [save] has a branch for a write that fails, the
      call says whether the write throws. *)

From Stdlib Require Import ZArith NArith Lia Bool Ascii String List.
From Stdlib Require Import Strings.Byte Numbers.DecimalString.
From stdpp Require Import base option list gmap strings.

Local Open Scope string_scope.

(* ===================================================================== *)
(** ** SHA-256 (FIPS 180-4) on byte sequences, with lowercase hex output *)
(* ===================================================================== *)

Module Sha.
Local Open Scope N_scope.

Definition mask32 : N := 0xFFFFFFFF.
Definition w32 (x : N) : N := N.land x mask32.
Definition add32 (x y : N) : N := w32 (x + y).
Definition not32 (x : N) : N := N.lxor x mask32.
Definition rotr (n x : N) : N := N.lor (N.shiftr x n) (w32 (N.shiftl x (32 - n))).
Definition shr (n x : N) : N := N.shiftr x n.
Definition xor3 (x y z : N) : N := N.lxor (N.lxor x y) z.

Definition Ch (x y z : N) : N := N.lxor (N.land x y) (N.land (not32 x) z).
Definition Maj (x y z : N) : N := xor3 (N.land x y) (N.land x z) (N.land y z).
Definition bsig0 (x : N) : N := xor3 (rotr 2 x) (rotr 13 x) (rotr 22 x).
Definition bsig1 (x : N) : N := xor3 (rotr 6 x) (rotr 11 x) (rotr 25 x).
Definition ssig0 (x : N) : N := xor3 (rotr 7 x) (rotr 18 x) (shr 3 x).
Definition ssig1 (x : N) : N := xor3 (rotr 17 x) (rotr 19 x) (shr 10 x).

(** The constants of the standard are fractional parts of roots of the first
    primes: the first 32 bits of the fractional part of the cube root of each
    of the first 64 primes for [K], of the square root of each of the first 8
    primes for the initial chaining value. *)
Definition is_prime (n : nat) : bool :=
  forallb (fun d => negb (n mod d =? 0)%nat) (seq 2 (n - 2)).

Definition primes : list N :=
  Eval vm_compute in List.map N.of_nat (List.filter is_prime (seq 2 310)).

(** The largest [r] below [2 ^ bits] with [r ^ k <= n], found bit by bit. *)
Fixpoint root (k : N) (bits : nat) (n r : N) : N :=
  match bits with
  | O => r
  | S b =>
      let c := N.lor r (N.shiftl 1 (N.of_nat b)) in
      root k b n (if c ^ k <=? n then c else r)
  end.

Definition frac32 (k : N) (p : N) : N :=
  w32 (root k 40 (N.shiftl p (32 * k)) 0).

Definition K : list N := Eval vm_compute in List.map (frac32 3) primes.

(** The eight working variables / the chaining value. *)
Record state := State { sa : N; sb : N; sc : N; sd : N; se : N; sf : N; sg : N; sh : N }.

Definition H0 : state :=
  Eval vm_compute in
    let h := fun i => frac32 2 (nth i primes 0) in
    State (h 0%nat) (h 1%nat) (h 2%nat) (h 3%nat) (h 4%nat) (h 5%nat) (h 6%nat) (h 7%nat).

(** Padding: a 1 bit, zeros, then the bit length on 64 bits, big endian. *)
Definition be_bytes (n : nat) (x : N) : list N :=
  map (fun i => N.land (N.shiftr x (8 * N.of_nat i)) 0xFF) (rev (seq 0 n)).

Definition pad (msg : list N) : list N :=
  let len := N.of_nat (length msg) in
  let zeros := N.to_nat ((64 - (len + 9) mod 64) mod 64) in
  msg ++ 0x80 :: repeat 0 zeros ++ be_bytes 8 (8 * len).

Fixpoint words (bs : list N) : list N :=
  match bs with
  | b3 :: b2 :: b1 :: b0 :: rest =>
      (N.shiftl b3 24 + N.shiftl b2 16 + N.shiftl b1 8 + b0) :: words rest
  | _ => []
  end.

(** Message schedule: [win] holds the 16 latest words, newest first. *)
Fixpoint extend (n : nat) (win : list N) : list N :=
  match n with
  | O => []
  | S n' =>
      let w := add32 (add32 (ssig1 (nth 1 win 0)) (nth 6 win 0))
                     (add32 (ssig0 (nth 14 win 0)) (nth 15 win 0)) in
      w :: extend n' (w :: firstn 15 win)
  end.

Definition schedule (m : list N) : list N := m ++ extend 48 (rev m).

Definition round (s : state) (kw : N * N) : state :=
  let t1 := add32 (add32 (add32 (sh s) (bsig1 (se s))) (Ch (se s) (sf s) (sg s)))
                  (add32 (fst kw) (snd kw)) in
  let t2 := add32 (bsig0 (sa s)) (Maj (sa s) (sb s) (sc s)) in
  State (add32 t1 t2) (sa s) (sb s) (sc s) (add32 (sd s) t1) (se s) (sf s) (sg s).

Definition compress (h : state) (m : list N) : state :=
  let s := fold_left round (combine K (schedule m)) h in
  State (add32 (sa h) (sa s)) (add32 (sb h) (sb s)) (add32 (sc h) (sc s))
        (add32 (sd h) (sd s)) (add32 (se h) (se s)) (add32 (sf h) (sf s))
        (add32 (sg h) (sg s)) (add32 (sh h) (sh s)).

Fixpoint blocks (fuel : nat) (ws : list N) (h : state) : state :=
  match fuel, ws with
  | S fuel', _ :: _ => blocks fuel' (skipn 16 ws) (compress h (firstn 16 ws))
  | _, _ => h
  end.

Definition digest (msg : list N) : state :=
  let ws := words (pad msg) in blocks (length ws) ws H0.

Definition hex_digit (d : N) : ascii :=
  ascii_of_N (if d <? 10 then 48 + d else 87 + d).

Definition nibble (w : N) (i : N) : ascii :=
  hex_digit (N.land (N.shiftr w (4 * i)) 0xF).

Definition word_hex (w : N) (rest : string) : string :=
  String (nibble w 7) (String (nibble w 6) (String (nibble w 5) (String (nibble w 4)
 (String (nibble w 3) (String (nibble w 2) (String (nibble w 1) (String (nibble w 0) rest))))))).

Definition state_hex (s : state) : string :=
  word_hex (sa s) (word_hex (sb s) (word_hex (sc s) (word_hex (sd s)
 (word_hex (se s) (word_hex (sf s) (word_hex (sg s) (word_hex (sh s) ""))))))).

(** The digest of a byte sequence, in hex, as [sha256Hex] of
    history-storage.js prints it. *)
Definition hex_of_bytes (bs : list byte) : string :=
  state_hex (digest (map Byte.to_N bs)).

(** [CryptoJS.SHA256(s).toString()]: the digest of the bytes of [s]. *)
Definition hex_of_string (s : string) : string :=
  hex_of_bytes (list_byte_of_string s).
End Sha.

Definition SHA256 (s : string) : string := Sha.hex_of_string s.
(** [crypto.subtle.digest('SHA-256', ab)] of an ArrayBuffer, printed in hex. *)
Definition digestHex (ab : list byte) : string := Sha.hex_of_bytes ab.

(* ===================================================================== *)
(** ** HMAC-SHA-256 (RFC 2104), as [CryptoJS.HmacSHA256] computes it *)
(* ===================================================================== *)

Module Hmac.
Local Open Scope N_scope.

(** The 32 bytes of a digest. *)
Definition state_bytes (s : Sha.state) : list N :=
  flat_map (Sha.be_bytes 4)
    [Sha.sa s; Sha.sb s; Sha.sc s; Sha.sd s; Sha.se s; Sha.sf s; Sha.sg s; Sha.sh s].

Definition hash (msg : list N) : list N := state_bytes (Sha.digest msg).

(** The key as one block of 64 bytes: a key longer than a block is hashed
    first; zeros fill the block. *)
Definition block_key (key : list N) : list N :=
  let k := if (64 <? length key)%nat then hash key else key in
  (k ++ repeat 0 (64 - length k))%list.

Definition mac (message key : list N) : Sha.state :=
  let k := block_key key in
  Sha.digest (List.map (N.lxor 0x5c) k ++ hash (List.map (N.lxor 0x36) k ++ message)).
End Hmac.

(** [CryptoJS.HmacSHA256(message, key).toString()], both arguments strings. *)
Definition HmacSHA256 (message key : string) : string :=
  Sha.state_hex (Hmac.mac (List.map Byte.to_N (list_byte_of_string message))
                          (List.map Byte.to_N (list_byte_of_string key))).


(* ===================================================================== *)
(** ** JSON values, [JSON.stringify] and exceptions *)
(* ===================================================================== *)

(** The exceptions the modelled code can end with. *)
Inductive exn :=
| RangeError               (* Maximum call stack size exceeded *)
| Error (message : string) (* throw new Error(message) *)
| SyntaxError              (* JSON.parse on a text that is not JSON *)
| TypeError                (* property read on null *)
| InvalidCharacterError.   (* atob on a text that is not base64 *)

(** An object lists its properties in enumeration order, which for keys that
    are not array indices is insertion order. *)
#[local] Unset Elimination Schemes.
Inductive JSON : Type :=
| JNull
| JBool (b : bool)
| JNum (n : Z)
| JStr (s : string)
| JArr (items : list JSON)
| JObj (props : list (string * JSON)).
#[local] Set Elimination Schemes.

Module Json.

(** ToBoolean. *)
Definition truthy (j : JSON) : bool :=
  match j with
  | JNull => false
  | JBool b => b
  | JNum n => negb (n =? 0)%Z
  | JStr s => negb (String.eqb s "")
  | JArr _ | JObj _ => true
  end.

(** Property read [o.k]; [None] is [undefined]. *)
Fixpoint lookup (k : string) (props : list (string * JSON)) : option JSON :=
  match props with
  | [] => None
  | (k', v) :: rest => if String.eqb k k' then Some v else lookup k rest
  end.

Definition get (k : string) (j : JSON) : option JSON :=
  match j with
  | JObj props => lookup k props
  | _ => None
  end.

(** [a || b] where [a] may be [undefined]. *)
Definition or_else (a : option JSON) (b : JSON) : JSON :=
  match a with
  | Some v => if truthy v then v else b
  | None => b
  end.

Definition number_to_string (n : Z) : string :=
  NilZero.string_of_int (Z.to_int n).

Definition hex4 (n : N) : string :=
  String (Sha.nibble n 3) (String (Sha.nibble n 2)
 (String (Sha.nibble n 1) (String (Sha.nibble n 0) ""))).

(** The double quote character, code 34. *)
Definition dquote : ascii := "034"%char.

(** QuoteJSONString, one character at a time. *)
Definition escape_char (c : ascii) : string :=
  let n := N_of_ascii c in
  if (n =? 8)%N then "\b"
  else if (n =? 9)%N then "\t"
  else if (n =? 10)%N then "\n"
  else if (n =? 12)%N then "\f"
  else if (n =? 13)%N then "\r"
  else if (n =? 34)%N then String "\" (String c "")
  else if (n =? 92)%N then String "\" (String c "")
  else if (n <? 32)%N then "\u" +:+ hex4 n
  else String c "".

Fixpoint escape (s : string) : string :=
  match s with
  | EmptyString => ""
  | String c rest => escape_char c +:+ escape rest
  end.

Definition quote (s : string) : string :=
  String dquote (escape s +:+ String dquote "").

Fixpoint join (sep : string) (parts : list string) : string :=
  match parts with
  | [] => ""
  | [p] => p
  | p :: rest => p +:+ sep +:+ join sep rest
  end.

(** ToString, as a string concatenation or [atob] applies it. *)
Fixpoint to_string (j : JSON) : string :=
  match j with
  | JNull => "null"
  | JBool true => "true"
  | JBool false => "false"
  | JNum n => number_to_string n
  | JStr s => s
  | JArr items =>
      join "," (List.map (fun x => match x with JNull => "" | _ => to_string x end) items)
  | JObj _ => "[object Object]"
  end.

(** [JSON.stringify] of a value that holds no object with a [toJSON] method. *)
Fixpoint stringify (j : JSON) : string :=
  match j with
  | JNull => "null"
  | JBool true => "true"
  | JBool false => "false"
  | JNum n => number_to_string n
  | JStr s => quote s
  | JArr items => "[" +:+ join "," (List.map stringify items) +:+ "]"
  | JObj props =>
      "{" +:+ join "," (List.map (fun p => let '(k, v) := p in
                                   quote k +:+ ":" +:+ stringify v) props) +:+ "}"
  end.

End Json.

(** [x || null] and [x || d] on optional strings, numbers and arrays:
    [undefined], [''] and [0] are falsy, an array is truthy. *)
Definition str_or_lit (x : option string) (d : string) : string :=
  match x with
  | Some s => if String.eqb s "" then d else s
  | None => d
  end.

Definition num_or (x : option Z) (d : Z) : Z :=
  match x with
  | Some n => if (n =? 0)%Z then d else n
  | None => d
  end.

Definition nat_or (x : option nat) (d : nat) : nat :=
  match x with
  | Some (S n) => S n
  | _ => d
  end.

Definition str_or_null (x : option string) : option string :=
  match x with
  | Some s => if String.eqb s "" then None else Some s
  | None => None
  end.

Definition num_or_null (x : option Z) : option Z :=
  match x with
  | Some n => if (n =? 0)%Z then None else Some n
  | None => None
  end.

Definition opt_str (x : option string) : JSON :=
  match x with Some s => JStr s | None => JNull end.
Definition opt_num (x : option Z) : JSON :=
  match x with Some n => JNum n | None => JNull end.

(* ===================================================================== *)
(** ** The environment: clock, identifiers, call stack *)
(* ===================================================================== *)

(** [BaseModel.generateId()] and [new Date().toISOString()] read the clock
    and the random generator.  A [World] fixes what the successive calls
    return; a constructor threads it and consumes one value per call. *)
Record World := MkWorld {
  id_stream : nat -> string;       (* the n-th result of generateId() *)
  date_stream : nat -> string;     (* the n-th result of new Date().toISOString() *)
  ids_used : nat;
  dates_used : nat
}.

Definition M (A : Type) : Type := World -> A * World.

Definition ret {A} (a : A) : M A := fun w => (a, w).
Definition bind {A B} (m : M A) (k : A -> M B) : M B :=
  fun w => let '(a, w') := m w in k a w'.

Declare Scope world_scope.
Delimit Scope world_scope with world.
Notation "'let*' x ':=' m 'in' k" := (bind m (fun x => k))
  (at level 10, x name, m at level 100, k at level 200) : world_scope.
Local Open Scope world_scope.

Definition generateId : M string :=
  fun w => (id_stream w (ids_used w),
            MkWorld (id_stream w) (date_stream w) (S (ids_used w)) (dates_used w)).

Definition now_iso : M string :=
  fun w => (date_stream w (dates_used w),
            MkWorld (id_stream w) (date_stream w) (ids_used w) (S (dates_used w))).

Fixpoint mapM {A B} (f : A -> M B) (l : list A) : M (list B) :=
  match l with
  | [] => ret []
  | a :: rest => let* b := f a in let* bs := mapM f rest in ret (b :: bs)
  end.

(** [x || d] where the default reads the environment. *)
Definition str_or (x : option string) (d : M string) : M string :=
  match x with
  | Some s => if String.eqb s "" then d else ret s
  | None => d
  end.

(** The number of nested calls the engine allows before it throws
    RangeError.  No result below depends on the number. *)
Definition call_stack : nat := N.to_nat 10000.

(* ===================================================================== *)
(** ** models.js: BaseModel *)
(* ===================================================================== *)

Module BaseModel.

Record t := Make {
  id : string;
  createdAt : string;
  updatedAt : string;
  version : Z
}.

(** The properties of the constructor's [data] argument that the class reads. *)
Record data := Data {
  d_id : option string;
  d_createdAt : option string;
  d_updatedAt : option string;
  d_version : option Z
}.

Definition no_data : data := Data None None None None.

Definition new (d : data) : M t :=
  let* i := str_or (d_id d) generateId in
  let* c := str_or (d_createdAt d) now_iso in
  let* u := str_or (d_updatedAt d) now_iso in
  ret (Make i c u (num_or (d_version d) 1)).

Definition touch (b : t) : M t :=
  let* u := now_iso in
  ret (Make (id b) (createdAt b) u (version b + 1)).

(** The own properties a BaseModel contributes to an instance. *)
Definition props (b : t) : list (string * JSON) :=
  [ ("id", JStr (id b)); ("createdAt", JStr (createdAt b));
    ("updatedAt", JStr (updatedAt b)); ("version", JNum (version b)) ].

(** [toJSON() { return JSON.parse(JSON.stringify(this)); }].
    [JSON.stringify], given an object, first looks up its [toJSON] property
    and, when that is callable, calls it and serialises the result
    (ECMAScript, SerializeJSONProperty, step 2).  [this] is an instance of
    the class, so the method that is called is this one, on the same
    object: each call makes the next, until the stack is used up.  [stack]
    is the number of calls left, [own] the own properties of [this]. *)
Fixpoint toJSON_at (stack : nat) (own : JSON) : exn + JSON :=
  match stack with
  | O => inl RangeError
  | S stack' =>
      match toJSON_at stack' own with   (* JSON.stringify(this) calls this.toJSON() *)
      | inl e => inl e
      | inr v => inr v                  (* JSON.parse of the text of a JSON value *)
      end
  end.

Definition toJSON (own : JSON) : exn + JSON := toJSON_at call_stack own.

End BaseModel.

(* ===================================================================== *)
(** ** models.js: Transaction *)
(* ===================================================================== *)

Module Transaction.

Record meta := Meta {
  gasPrice : Z;
  gasLimit : Z;
  gasUsed : Z;
  blockHash : option string;
  blockIndex : option Z;
  transactionIndex : option Z
}.

Record t := Make {
  base : BaseModel.t;
  type : string;
  from : string;
  to : string;
  amount : Z;
  fee : Z;
  data : JSON;
  signature : JSON;
  status : string;
  metadata : meta
}.

(** The constructor's argument: a plain object, each property optional. *)
Record meta_data := MetaData {
  d_gasPrice : option Z;
  d_gasLimit : option Z;
  d_gasUsed : option Z;
  d_blockHash : option string;
  d_blockIndex : option Z;
  d_transactionIndex : option Z
}.

Record init := Init {
  d_base : BaseModel.data;
  d_type : option string;
  d_from : option string;
  d_to : option string;
  d_amount : option Z;
  d_fee : option Z;
  d_data : option JSON;
  d_signature : option JSON;
  d_status : option string;
  d_metadata : option meta_data
}.

(** [data.metadata?.f]. *)
Definition mget {A} (f : meta_data -> option A) (m : option meta_data) : option A :=
  match m with Some md => f md | None => None end.

Definition new (d : init) : M t :=
  let* b := BaseModel.new (d_base d) in
  ret (Make b
         (str_or_lit (d_type d) "transfer")
         (str_or_lit (d_from d) "")
         (str_or_lit (d_to d) "")
         (num_or (d_amount d) 0)
         (num_or (d_fee d) 0)
         (Json.or_else (d_data d) (JObj []))
         (Json.or_else (d_signature d) JNull)
         (str_or_lit (d_status d) "pending")
         (Meta (num_or (mget d_gasPrice (d_metadata d)) 0)
               (num_or (mget d_gasLimit (d_metadata d)) 21000)
               (num_or (mget d_gasUsed (d_metadata d)) 0)
               (str_or_null (mget d_blockHash (d_metadata d)))
               (num_or_null (mget d_blockIndex (d_metadata d)))
               (num_or_null (mget d_transactionIndex (d_metadata d))))).

Definition meta_json (m : meta) : JSON :=
  JObj [ ("gasPrice", JNum (gasPrice m)); ("gasLimit", JNum (gasLimit m));
         ("gasUsed", JNum (gasUsed m)); ("blockHash", opt_str (blockHash m));
         ("blockIndex", opt_num (blockIndex m));
         ("transactionIndex", opt_num (transactionIndex m)) ].

(** The own properties of an instance, in the order the constructors assign
    them. *)
Definition own (tx : t) : JSON :=
  JObj (BaseModel.props (base tx) ++
        [ ("type", JStr (type tx)); ("from", JStr (from tx)); ("to", JStr (to tx));
          ("amount", JNum (amount tx)); ("fee", JNum (fee tx));
          ("data", data tx); ("signature", signature tx);
          ("status", JStr (status tx)); ("metadata", meta_json (metadata tx)) ])%list.

(** The inherited [toJSON()]. *)
Definition toJSON (tx : t) : exn + JSON := BaseModel.toJSON (own tx).
#[global] Arguments toJSON : simpl never.

(** The plain object that [calculateHash] serialises. *)
Definition hashed_fields (tx : t) : JSON :=
  JObj [ ("type", JStr (type tx)); ("from", JStr (from tx)); ("to", JStr (to tx));
         ("amount", JNum (amount tx)); ("fee", JNum (fee tx)); ("data", data tx);
         ("timestamp", JStr (BaseModel.createdAt (base tx))) ].

Definition calculateHash (tx : t) : string :=
  SHA256 (Json.stringify (hashed_fields tx)).

Definition errors (tx : t) : list string :=
  ((if String.eqb (from tx) "" then ["发送方地址不能为空"] else []) ++
   (if String.eqb (to tx) "" then ["接收方地址不能为空"] else []) ++
   (if (amount tx <? 0)%Z then ["交易金额不能为负数"] else []) ++
   (if (fee tx <? 0)%Z then ["交易费用不能为负数"] else []))%list.

(** [validate()] returns [{ valid: errors.length === 0, errors }]. *)
Definition validate (tx : t) : bool * list string :=
  (match errors tx with [] => true | _ => false end, errors tx).

(** [sign(privateKey)]: the hash of the transaction, its HMAC under the key,
    and the time of signing.  Unlike [SmartContract.sign] it does not call
    [touch]. *)
Definition sign (privateKey : string) (tx : t) : M t :=
  let hash := calculateHash tx in
  let mac := HmacSHA256 hash privateKey in
  let* timestamp := now_iso in
  ret (Make (base tx) (type tx) (from tx) (to tx) (amount tx) (fee tx) (data tx)
            (JObj [ ("hash", JStr hash); ("signature", JStr mac);
                    ("timestamp", JStr timestamp) ])
            (status tx) (metadata tx)).

End Transaction.

(* ===================================================================== *)
(** ** models.js: SmartContract (its hash, signing and status) *)
(* ===================================================================== *)

Module SmartContract.

Record party := Party {
  name : string;
  address : string;
  contact : string;
  signature : JSON           (* null, or the object a signing left *)
}.

Record terms_t := Terms {
  content : string;
  conditions : list JSON;
  obligations : list JSON;
  penalties : list JSON
}.

Record financial_t := Financial {
  value : Z;
  currency : string;
  paymentTerms : string;
  paymentSchedule : list JSON
}.

Record timeline_t := Timeline {
  startDate : option string;
  endDate : option string;
  duration : Z;
  milestones : list JSON
}.

(** The sub-objects [blockchain], [code] and [metadata] of the class are
    left out: no operation modelled here reads them. *)
Record t := Make {
  base : BaseModel.t;
  title : string;
  type : string;
  description : string;
  status : string;
  party1 : party;
  party2 : party;
  terms : terms_t;
  financial : financial_t;
  timeline : timeline_t
}.

Record party_data := PartyData {
  d_name : option string;
  d_address : option string;
  d_contact : option string;
  d_signature : option JSON
}.

Record init := Init {
  d_base : BaseModel.data;
  d_title : option string;
  d_type : option string;
  d_description : option string;
  d_status : option string;
  d_party1 : option party_data;
  d_party2 : option party_data;
  d_content : option string;
  d_conditions : option (list JSON);
  d_obligations : option (list JSON);
  d_penalties : option (list JSON);
  d_value : option Z;
  d_currency : option string;
  d_paymentTerms : option string;
  d_paymentSchedule : option (list JSON);
  d_startDate : option string;
  d_endDate : option string;
  d_duration : option Z;
  d_milestones : option (list JSON)
}.

(** [data.parties?.party1?.f]. *)
Definition pget {A} (f : party_data -> option A) (p : option party_data) : option A :=
  match p with Some pd => f pd | None => None end.

Definition new_party (p : option party_data) : party :=
  Party (str_or_lit (pget d_name p) "") (str_or_lit (pget d_address p) "")
        (str_or_lit (pget d_contact p) "") (Json.or_else (pget d_signature p) JNull).

Definition new (d : init) : M t :=
  let* b := BaseModel.new (d_base d) in
  ret (Make b
         (str_or_lit (d_title d) "") (str_or_lit (d_type d) "general")
         (str_or_lit (d_description d) "") (str_or_lit (d_status d) "draft")
         (new_party (d_party1 d)) (new_party (d_party2 d))
         (Terms (str_or_lit (d_content d) "") (default [] (d_conditions d))
                (default [] (d_obligations d)) (default [] (d_penalties d)))
         (Financial (num_or (d_value d) 0) (str_or_lit (d_currency d) "CNY")
                    (str_or_lit (d_paymentTerms d) "") (default [] (d_paymentSchedule d)))
         (Timeline (str_or_null (d_startDate d)) (str_or_null (d_endDate d))
                   (num_or (d_duration d) 0) (default [] (d_milestones d)))).

Definition party_json (p : party) : JSON :=
  JObj [ ("name", JStr (name p)); ("address", JStr (address p));
         ("contact", JStr (contact p)); ("signature", signature p) ].

(** The plain object that [calculateHash] serialises. *)
Definition hashed_fields (c : t) : JSON :=
  JObj [ ("title", JStr (title c));
         ("parties", JObj [ ("party1", party_json (party1 c));
                            ("party2", party_json (party2 c)) ]);
         ("terms", JObj [ ("content", JStr (content (terms c)));
                          ("conditions", JArr (conditions (terms c)));
                          ("obligations", JArr (obligations (terms c)));
                          ("penalties", JArr (penalties (terms c))) ]);
         ("financial", JObj [ ("value", JNum (value (financial c)));
                              ("currency", JStr (currency (financial c)));
                              ("paymentTerms", JStr (paymentTerms (financial c)));
                              ("paymentSchedule", JArr (paymentSchedule (financial c))) ]);
         ("timeline", JObj [ ("startDate", opt_str (startDate (timeline c)));
                             ("endDate", opt_str (endDate (timeline c)));
                             ("duration", JNum (duration (timeline c)));
                             ("milestones", JArr (milestones (timeline c))) ]) ].

Definition calculateHash (c : t) : string :=
  SHA256 (Json.stringify (hashed_fields c)).

Definition set_signature (s : JSON) (p : party) : party :=
  Party (name p) (address p) (contact p) s.

(** [sign(party, signature)]: for one of the two party names the signature
    object is stored and the contract is touched; for any other name nothing
    happens. *)
Definition sign (party : string) (sig : string) (c : t) : M t :=
  if String.eqb party "party1" || String.eqb party "party2" then
    let* timestamp := now_iso in
    let s := JObj [ ("data", JStr sig); ("timestamp", JStr timestamp);
                    ("hash", JStr (SHA256 sig)) ] in
    let* b := BaseModel.touch (base c) in
    ret (if String.eqb party "party1"
         then Make b (title c) (type c) (description c) (status c)
                   (set_signature s (party1 c)) (party2 c)
                   (terms c) (financial c) (timeline c)
         else Make b (title c) (type c) (description c) (status c)
                   (party1 c) (set_signature s (party2 c))
                   (terms c) (financial c) (timeline c))
  else ret c.

(** [isFullySigned()] returns the value of
    [party1.signature && party2.signature], not a boolean. *)
Definition isFullySigned (c : t) : JSON :=
  if Json.truthy (signature (party1 c)) then signature (party2 c)
  else signature (party1 c).

Definition validStatuses : list string :=
  ["draft"; "pending"; "active"; "completed"; "cancelled"; "expired"].

Definition updateStatus (newStatus : string) (c : t) : M t :=
  if existsb (String.eqb newStatus) validStatuses then
    let* b := BaseModel.touch (base c) in
    ret (Make b (title c) (type c) (description c) newStatus
              (party1 c) (party2 c) (terms c) (financial c) (timeline c))
  else ret c.

End SmartContract.

(* ===================================================================== *)
(** ** models.js: Block *)
(* ===================================================================== *)

Module Block.

Record meta := Meta {
  size : Z;
  transactionCount : Z;
  merkleRoot : string;
  gasUsed : Z;
  gasLimit : Z
}.

Record t := Make {
  base : BaseModel.t;
  index : Z;
  timestamp : string;
  previousHash : string;
  hash : string;
  nonce : Z;
  difficulty : nat;
  transactions : list Transaction.t;
  metadata : meta
}.

Record meta_data := MetaData {
  d_size : option Z;
  d_transactionCount : option Z;
  d_merkleRoot : option string;
  d_gasUsed : option Z;
  d_gasLimit : option Z
}.

(** The constructor's argument.  An element of [transactions] is either a
    [Transaction] instance or a plain object to build one from. *)
Record init := Init {
  d_base : BaseModel.data;
  d_index : option Z;
  d_timestamp : option string;
  d_previousHash : option string;
  d_hash : option string;
  d_nonce : option Z;
  d_difficulty : option nat;
  d_transactions : option (list (Transaction.t + Transaction.init));
  d_metadata : option meta_data
}.

Definition mget {A} (f : meta_data -> option A) (m : option meta_data) : option A :=
  match m with Some md => f md | None => None end.

Definition set_hash (h : string) (b : t) : t :=
  Make (base b) (index b) (timestamp b) (previousHash b) h (nonce b)
       (difficulty b) (transactions b) (metadata b).
Definition set_nonce (n : Z) (b : t) : t :=
  Make (base b) (index b) (timestamp b) (previousHash b) (hash b) n
       (difficulty b) (transactions b) (metadata b).
Definition set_difficulty (d : nat) (b : t) : t :=
  Make (base b) (index b) (timestamp b) (previousHash b) (hash b) (nonce b)
       d (transactions b) (metadata b).
Definition set_previousHash (p : string) (b : t) : t :=
  Make (base b) (index b) (timestamp b) p (hash b) (nonce b)
       (difficulty b) (transactions b) (metadata b).

(** [this.transactions.map(tx => tx.toJSON())]: the first call that throws
    ends the map. *)
Fixpoint map_toJSON (txs : list Transaction.t) : exn + list JSON :=
  match txs with
  | [] => inr []
  | tx :: rest =>
      match Transaction.toJSON tx with
      | inl e => inl e
      | inr j => match map_toJSON rest with
                 | inl e => inl e
                 | inr js => inr (j :: js)
                 end
      end
  end.

(** The plain object that [calculateHash] serialises. *)
Definition hashed_fields (b : t) (txs : list JSON) : JSON :=
  JObj [ ("index", JNum (index b));
         ("timestamp", JStr (timestamp b));
         ("previousHash", JStr (previousHash b));
         ("transactions", JArr txs);
         ("nonce", JNum (nonce b)) ].

Definition calculateHash (b : t) : exn + string :=
  match map_toJSON (transactions b) with
  | inl e => inl e
  | inr txs => inr (SHA256 (Json.stringify (hashed_fields b txs)))
  end.

Definition new_transaction (x : Transaction.t + Transaction.init) : M Transaction.t :=
  match x with
  | inl tx => ret tx
  | inr d => Transaction.new d
  end.

(** The constructor; [inl e] when it throws. *)
Definition new (d : init) : M (exn + t) :=
  let* b := BaseModel.new (d_base d) in
  let* ts := str_or (d_timestamp d) now_iso in
  let* txs := mapM new_transaction (default [] (d_transactions d)) in
  let this :=
    Make b (num_or (d_index d) 0) ts (str_or_lit (d_previousHash d) "0")
         (str_or_lit (d_hash d) "") (num_or (d_nonce d) 0)
         (nat_or (d_difficulty d) 4) txs
         (Meta (num_or (mget d_size (d_metadata d)) 0)
               (num_or (mget d_transactionCount (d_metadata d)) 0)
               (str_or_lit (mget d_merkleRoot (d_metadata d)) "")
               (num_or (mget d_gasUsed (d_metadata d)) 0)
               (num_or (mget d_gasLimit (d_metadata d)) 1000000)) in
  ret (if String.eqb (hash this) ""
       then match calculateHash this with
            | inl e => inl e
            | inr h => inr (set_hash h this)
            end
       else inr this).

(** [Array(difficulty + 1).join('0')]. *)
Fixpoint target (difficulty : nat) : string :=
  match difficulty with
  | O => ""
  | S d => String "0" (target d)
  end.

(** The negation of the loop condition of [mineBlock]. *)
Definition meets (difficulty : nat) (b : t) : bool :=
  String.eqb (substring 0 difficulty (hash b)) (target difficulty).

(** How a run of [mineBlock] stands: returned, ended by an exception, or
    still in its loop when the observed iterations are used up.  Each
    carries the state of the block at that point. *)
Inductive mining :=
| Mined (b : t)
| Threw (e : exn) (b : t)
| Running (b : t).

Definition state_of (m : mining) : t :=
  match m with
  | Mined b | Threw _ b | Running b => b
  end.

(** The [while] loop, observed for at most [fuel] iterations of its body
    [this.nonce++; this.hash = this.calculateHash();]. *)
Fixpoint mine_loop (fuel : nat) (difficulty : nat) (b : t) : mining :=
  if meets difficulty b then Mined b
  else match fuel with
       | O => Running b
       | S fuel' =>
           let b' := set_nonce (nonce b + 1) b in
           match calculateHash b' with
           | inl e => Threw e b'
           | inr h => mine_loop fuel' difficulty (set_hash h b')
           end
       end.

Definition mineBlock (fuel : nat) (difficulty : nat) (b : t) : mining :=
  match mine_loop fuel difficulty b with
  | Mined b' => Mined (set_difficulty difficulty b')
  | other => other
  end.

(** [addTransaction]; [inl (Error message)] is the thrown error. *)
Definition addTransaction (x : Transaction.t + Transaction.init) (b : t) : M (exn + t) :=
  let* tx := new_transaction x in
  if fst (Transaction.validate tx) then
    let txs := (transactions b ++ [tx])%list in
    let m := Meta (size (metadata b)) (Z.of_nat (length txs))
                  (merkleRoot (metadata b)) (gasUsed (metadata b))
                  (gasLimit (metadata b)) in
    let* base' := BaseModel.touch (base b) in
    ret (inr (Make base' (index b) (timestamp b) (previousHash b) (hash b)
                   (nonce b) (difficulty b) txs m))
  else ret (inl (Error ("无效交易: " +:+ Json.join ", " (snd (Transaction.validate tx))))).

Definition errors (recomputed : string) (b : t) : list string :=
  ((if String.eqb (hash b) recomputed then [] else ["区块哈希无效"]) ++
   flat_map (fun tx => if fst (Transaction.validate tx) then []
                       else ["交易 " +:+ BaseModel.id (Transaction.base tx) +:+ " 无效: "
                             +:+ Json.join ", " (snd (Transaction.validate tx))])
            (transactions b))%list.

(** [validate()] returns [{ valid: errors.length === 0, errors }]; it throws
    when [calculateHash] does. *)
Definition validate (b : t) : exn + bool * list string :=
  match calculateHash b with
  | inl e => inl e
  | inr h => inr (match errors h b with [] => true | _ => false end, errors h b)
  end.

End Block.

(* ===================================================================== *)
(** ** models.js: User (the generated address) *)
(* ===================================================================== *)

Module User.

(** [generateAddress()], for the [id] of the instance and the reading [now]
    of [Date.now()]. *)
Definition generateAddress (id : string) (now : Z) : string :=
  "0x" +:+ substring 0 40 (SHA256 (id +:+ Json.number_to_string now)).

End User.

(** [CONFIG.blockchain.mining.maxNonce] of js/config.js. *)
Definition maxNonce : Z := 1000000.

(* ===================================================================== *)
(** ** The ledger: chain validation *)
(* ===================================================================== *)

(** The class that owns the chain ([Blockchain], with [createBlock] and
    [isChainValid]) is called by the tests and by the application, but its
    file is not among the sources.  Its validation is taken from section 4.3
    of the specification, over the [Block] of models.js. *)
Module Ledger.

(** Modelled from the spec: the per-block test of [isChainValid], missing
    with the Blockchain class.  The block's hash is recomputed from its
    fields and compared with the stored hash; separately the block's
    previousHash is compared with the prior block's stored hash.  The first
    block has no prior block.  An exception of the recomputation ends the
    validation. *)
Definition block_ok (prev : option Block.t) (b : Block.t) : exn + bool :=
  match Block.calculateHash b with
  | inl e => inl e
  | inr h =>
      inr (String.eqb (Block.hash b) h &&
           match prev with
           | Some p => String.eqb (Block.previousHash b) (Block.hash p)
           | None => true
           end)
  end.

(** Modelled from the spec: the scan of [isChainValid], missing with the
    Blockchain class.  Either mismatch invalidates the chain at that block;
    the position of the first such block is the diagnostic. *)
Fixpoint first_invalid (prev : option Block.t) (i : nat) (chain : list Block.t)
  : exn + option nat :=
  match chain with
  | [] => inr None
  | b :: rest =>
      match block_ok prev b with
      | inl e => inl e
      | inr true => first_invalid (Some b) (S i) rest
      | inr false => inr (Some i)
      end
  end.

(** Modelled from the spec: [isChainValid() -> (bool, optional
    firstInvalidIndex)] of the missing Blockchain class. *)
Definition isChainValid (chain : list Block.t) : exn + bool * option nat :=
  match first_invalid None 0 chain with
  | inl e => inl e
  | inr None => inr (true, None)
  | inr (Some i) => inr (false, Some i)
  end.

End Ledger.

(* ===================================================================== *)
(** ** [btoa] and [atob] *)
(* ===================================================================== *)

Module Base64.

(** A group of six bits, most significant first. *)
Inductive sextet := Sx (b5 b4 b3 b2 b1 b0 : bool).

Definition N_of_sextet (s : sextet) : N :=
  let '(Sx b5 b4 b3 b2 b1 b0) := s in
  N_of_digits [b0; b1; b2; b3; b4; b5].

Definition alphabet : string :=
  "ABCDEFGHIJKLMNOPQRSTUVWXYZabcdefghijklmnopqrstuvwxyz0123456789+/".

Definition char_of_sextet (s : sextet) : ascii :=
  match String.get (N.to_nat (N_of_sextet s)) alphabet with
  | Some c => c
  | None => "="%char
  end.

Definition sextet_of_N (n : N) : sextet :=
  Sx (N.testbit n 5) (N.testbit n 4) (N.testbit n 3)
     (N.testbit n 2) (N.testbit n 1) (N.testbit n 0).

Definition sextet_of_char (c : ascii) : option sextet :=
  let n := N_of_ascii c in
  if ((65 <=? n) && (n <=? 90))%N then Some (sextet_of_N (n - 65))
  else if ((97 <=? n) && (n <=? 122))%N then Some (sextet_of_N (n - 71))
  else if ((48 <=? n) && (n <=? 57))%N then Some (sextet_of_N (n + 4))
  else if (n =? 43)%N then Some (sextet_of_N 62)
  else if (n =? 47)%N then Some (sextet_of_N 63)
  else None.

(** Three bytes are four sextets.  [Ascii] lists the low bit first. *)
Definition split3 (a b c : ascii) : sextet * sextet * sextet * sextet :=
  let '(Ascii a0 a1 a2 a3 a4 a5 a6 a7) := a in
  let '(Ascii b0 b1 b2 b3 b4 b5 b6 b7) := b in
  let '(Ascii c0 c1 c2 c3 c4 c5 c6 c7) := c in
  (Sx a7 a6 a5 a4 a3 a2, Sx a1 a0 b7 b6 b5 b4,
   Sx b3 b2 b1 b0 c7 c6, Sx c5 c4 c3 c2 c1 c0).

Definition byte1 (p q : sextet) : ascii :=
  let '(Sx p5 p4 p3 p2 p1 p0) := p in
  let '(Sx q5 q4 _ _ _ _) := q in
  Ascii q4 q5 p0 p1 p2 p3 p4 p5.
Definition byte2 (q r : sextet) : ascii :=
  let '(Sx _ _ q3 q2 q1 q0) := q in
  let '(Sx r5 r4 r3 r2 _ _) := r in
  Ascii r2 r3 r4 r5 q0 q1 q2 q3.
Definition byte3 (r s : sextet) : ascii :=
  let '(Sx _ _ _ _ r1 r0) := r in
  let '(Sx s5 s4 s3 s2 s1 s0) := s in
  Ascii s0 s1 s2 s3 s4 s5 r0 r1.

Fixpoint sextets_of_bytes (l : list ascii) : list sextet :=
  match l with
  | a :: b :: c :: rest =>
      let '(p, q, r, s) := split3 a b c in p :: q :: r :: s :: sextets_of_bytes rest
  | [a; b] => let '(p, q, r, _) := split3 a b zero in [p; q; r]
  | [a] => let '(p, q, _, _) := split3 a zero zero in [p; q]
  | [] => []
  end.

Fixpoint padding (l : list ascii) : list ascii :=
  match l with
  | _ :: _ :: _ :: rest => padding rest
  | [_; _] => ["="%char]
  | [_] => ["="%char; "="%char]
  | [] => []
  end.

Definition encode (l : list ascii) : list ascii :=
  (List.map char_of_sextet (sextets_of_bytes l) ++ padding l)%list.

(** [btoa(binary)], for a binary string (every character a byte). *)
Definition btoa (binary : string) : string :=
  string_of_list_ascii (encode (list_ascii_of_string binary)).

(** [atob] is the forgiving-base64 decode of the HTML standard. *)
Definition is_space (c : ascii) : bool :=
  let n := N_of_ascii c in
  ((n =? 9) || (n =? 10) || (n =? 12) || (n =? 13) || (n =? 32))%N.

Definition strip_padding (l : list ascii) : list ascii :=
  match rev l with
  | "="%char :: "="%char :: r => rev r
  | "="%char :: r => rev r
  | _ => l
  end.

Fixpoint sextets_of_chars (l : list ascii) : option (list sextet) :=
  match l with
  | [] => Some []
  | c :: rest =>
      match sextet_of_char c, sextets_of_chars rest with
      | Some s, Some ss => Some (s :: ss)
      | _, _ => None
      end
  end.

Fixpoint bytes_of_sextets (l : list sextet) : list ascii :=
  match l with
  | p :: q :: r :: s :: rest => byte1 p q :: byte2 q r :: byte3 r s :: bytes_of_sextets rest
  | [p; q; r] => [byte1 p q; byte2 q r]
  | [p; q] => [byte1 p q]
  | _ => []
  end.

Definition decode (data : list ascii) : option (list ascii) :=
  let data := List.filter (fun c => negb (is_space c)) data in
  let data := if (length data mod 4 =? 0)%nat then strip_padding data else data in
  if (length data mod 4 =? 1)%nat then None
  else bytes_of_sextets <$> sextets_of_chars data.

(** [None] is the InvalidCharacterError exception. *)
Definition atob (data : string) : option string :=
  string_of_list_ascii <$> decode (list_ascii_of_string data).

End Base64.

(* ===================================================================== *)
(** ** history-storage.js *)
(* ===================================================================== *)

(** The binary argument of [sha256Hex] and [save]: an ArrayBuffer, or a
    Uint8Array.  A Uint8Array is a view of the bytes [elements] inside its
    underlying buffer [before ++ elements ++ after]: its [byteOffset] is the
    length of [before], its [byteLength] that of [elements]. *)
Inductive binary :=
  | ArrayBuffer (bytes : list byte)
  | Uint8Array (before elements after : list byte).

(** [buffer instanceof ArrayBuffer ? buffer : buffer.buffer]. *)
Definition underlying (buffer : binary) : list byte :=
  match buffer with
  | ArrayBuffer bytes => bytes
  | Uint8Array before elements after => (before ++ elements ++ after)%list
  end.

(** The bytes of [new Uint8Array(arrayBuffer)]. *)
Definition bytes_of (arrayBuffer : binary) : list byte :=
  match arrayBuffer with
  | ArrayBuffer bytes => bytes
  | Uint8Array _ elements _ => elements
  end.

(** [arrayBuffer.byteLength]. *)
Definition byteLength (arrayBuffer : binary) : nat := length (bytes_of arrayBuffer).

(** [sha256Hex]: the digest is taken of the whole underlying buffer. *)
Definition sha256Hex (buffer : binary) : string := digestHex (underlying buffer).

Module HistoryStorage.

(** The part of [localStorage] the module uses.  A stored text is
    represented by what [JSON.parse] makes of it: [Json j] when it is the
    JSON text of [j] (so [JSON.stringify(v)] is stored as [Json v]),
    [Garbage] when [JSON.parse] throws a SyntaxError on it.  An absent key
    reads as [null]; so does an empty text, which every read below treats
    like an absent key.

    The entry under INDEX_KEY, when it parses, is an array of id strings,
    as [writeIndex] writes it, or a value that is no array: a string, or
    one of [null], a boolean, a number and an object, which behave alike
    here.  Record entries are keyed by id; no id is the word [index], so a
    record key never is INDEX_KEY. *)
Inductive text :=
  | Garbage
  | Json (j : JSON).

Inductive index_text :=
  | IndexGarbage
  | IndexIds (ids : list string)
  | IndexString (s : string)
  | IndexOther.

Record Storage := MkStorage {
  index : option index_text;         (* localStorage['contractRecord:index'] *)
  records : gmap string text         (* localStorage['contractRecord:' + id] *)
}.

Definition empty : Storage := MkStorage None ∅.

(** Index capacity, the literal [500] of [save]. *)
Definition cap : nat := 500.

(** What [readIndex] returns: the parsed value as it is. *)
Inductive index_value :=
  | Ids (ids : list string)      (* an array *)
  | Chars (s : string)           (* a string: iterable, without array methods *)
  | NotIterable.                 (* null, a boolean, a number, an object *)

Definition readIndex (st : Storage) : index_value :=
  match index st with
  | Some (IndexIds ids) => Ids ids
  | Some (IndexString s) => Chars s
  | Some IndexOther => NotIterable
  | Some IndexGarbage => Ids []   (* the catch branch *)
  | None => Ids []                (* '[]' *)
  end.

Definition writeIndex (arr : list string) (st : Storage) : Storage :=
  MkStorage (Some (IndexIds arr)) (records st).

(** [JSON.parse(localStorage.getItem('contractRecord:'+id) || 'null')]. *)
Definition parse_record (st : Storage) (id : string) : exn + JSON :=
  match records st !! id with
  | None => inr JNull
  | Some Garbage => inl SyntaxError
  | Some (Json j) => inr j
  end.

(** [x === hash] for a property value [x] and a string [hash]. *)
Definition is_string (x : option JSON) (s : string) : bool :=
  match x with
  | Some (JStr s') => String.eqb s' s
  | _ => false
  end.

(** The chunked loop of [save] that turns the bytes into a binary string;
    [fuel] bounds its iterations. *)
Definition chunk : nat := N.to_nat 0x8000.

Fixpoint binary_loop (fuel : nat) (bytes : list byte) (binary : string) : string :=
  match fuel, bytes with
  | S fuel', _ :: _ =>
      binary_loop fuel' (skipn chunk bytes)
                  (binary +:+ string_of_list_byte (firstn chunk bytes))
  | _, _ => binary
  end.

Definition binary_string (bytes : list byte) : string :=
  binary_loop (length bytes) bytes "".

(** What the clock and the random generator return during one [save]. *)
Record clock := Clock {
  now_id : Z;            (* Date.now() in the id *)
  random36 : string;     (* Math.random().toString(36).slice(2,6) *)
  now_created : Z        (* Date.now() in createdAt *)
}.

Definition new_id (c : clock) : string :=
  "CR_" +:+ Json.number_to_string (now_id c) +:+ "_" +:+ random36 c.

Definition make_record (c : clock) (meta : list (string * JSON)) (arrayBuffer : binary)
  : JSON :=
  let id := new_id c in
  JObj [ ("id", JStr id);
         ("template", Json.or_else (Json.lookup "template" meta)
                        (Json.or_else (Json.lookup "templateKey" meta) (JStr "unknown")));
         ("fileName", Json.or_else (Json.lookup "fileName" meta) (JStr (id +:+ ".pdf")));
         ("createdAt", JNum (now_created c));
         ("size", JNum (Z.of_nat (byteLength arrayBuffer)));
         ("sha256", JStr (sha256Hex arrayBuffer));
         ("fields", Json.or_else (Json.lookup "fields" meta) (JObj []));
         ("chain", JObj [("status", JStr "not_submitted")]);
         ("pdfBase64", JStr (Base64.btoa (binary_string (bytes_of arrayBuffer)))) ].

(** The dedup scan: the first indexed record with the same digest. *)
Inductive scan_result :=
  | Found (existing : JSON)
  | NotFound
  | ScanRaised (e : exn).

Fixpoint scan (st : Storage) (hash : string) (ids : list string) : scan_result :=
  match ids with
  | [] => NotFound
  | rid :: rest =>
      match parse_record st rid with
      | inl e => ScanRaised e
      | inr existing =>
          if Json.truthy existing && is_string (Json.get "sha256" existing) hash
          then Found existing
          else scan st hash rest
      end
  end.

(** What [for (const rid of index)] goes through when the index is a
    string: its code points, each the bytes of its UTF-8 encoding (a byte
    from 128 to 191 continues the code point before it). *)
Definition is_continuation (c : ascii) : bool :=
  let n := N_of_ascii c in ((128 <=? n) && (n <? 192))%N.

Fixpoint code_points_from (current : string) (s : string) : list string :=
  match s with
  | EmptyString => [current]
  | String c rest =>
      if is_continuation c then code_points_from (current +:+ String c "") rest
      else current :: code_points_from (String c "") rest
  end.

Definition code_points (s : string) : list string :=
  match s with
  | EmptyString => []
  | String c rest => code_points_from (String c "") rest
  end.

(** How a call of [save] ends. *)
Inductive saved :=
  | NoBlobProvided                 (* the guard: [return null] *)
  | Existing (id : option JSON)    (* [return existing.id] *)
  | Stored (id : string)           (* [return id] *)
  | Raised (e : exn).

(** [save].  On an index that is no array the call ends in TypeError: at
    the scan when the index cannot be iterated; at [index.unshift], after
    the scan and the write of the record, when it is a string. *)
Definition save (c : clock) (meta : list (string * JSON)) (arrayBuffer : option binary)
                (st : Storage) : saved * Storage :=
  match arrayBuffer with
  | None => (NoBlobProvided, st)
  | Some buffer =>
      let id := new_id c in
      let record := make_record c meta buffer in
      let st1 := MkStorage (index st) (<[id := Json record]> (records st)) in
      match readIndex st with
      | NotIterable => (Raised TypeError, st)
      | Chars s =>
          match scan st (sha256Hex buffer) (code_points s) with
          | ScanRaised e => (Raised e, st)
          | Found existing => (Existing (Json.get "id" existing), st)
          | NotFound => (Raised TypeError, st1)
          end
      | Ids index =>
          match scan st (sha256Hex buffer) index with
          | ScanRaised e => (Raised e, st)
          | Found existing => (Existing (Json.get "id" existing), st)
          | NotFound =>
              let index := id :: index in
              let index := if (cap <? length index)%nat then firstn cap index else index in
              (Stored id, writeIndex index st1)
          end
      end
  end.

(** The value the promise of [save] resolves to: an id, [null], or
    [undefined] ([None]). *)
Definition returned (r : saved) : option (option JSON) :=
  match r with
  | NoBlobProvided => Some (Some JNull)
  | Existing v => Some v
  | Stored id => Some (Some (JStr id))
  | Raised _ => None
  end.

Fixpoint load_each (st : Storage) (ids : list string) : exn + list JSON :=
  match ids with
  | [] => inr []
  | id :: rest =>
      match parse_record st id with
      | inl e => inl e
      | inr obj =>
          match load_each st rest with
          | inl e => inl e
          | inr arr => inr (if Json.truthy obj then obj :: arr else arr)
          end
      end
  end.

(** [loadAll]: [ids.forEach] is a TypeError when the index is no array. *)
Definition loadAll (st : Storage) : exn + list JSON :=
  match readIndex st with
  | Ids ids => load_each st ids
  | _ => inl TypeError
  end.

(** [deleteRecord] and [clearAll] return nothing: the result is the
    exception the call ends in, if any, and the storage it leaves.
    [deleteRecord] removes the record before it reads the index. *)
Definition deleteRecord (id : string) (st : Storage) : option exn * Storage :=
  let st1 := MkStorage (index st) (delete id (records st)) in
  match readIndex st1 with
  | Ids ids => (None, writeIndex (List.filter (fun x => negb (String.eqb x id)) ids) st1)
  | _ => (Some TypeError, st1)
  end.

Definition clearAll (st : Storage) : option exn * Storage :=
  match readIndex st with
  | Ids ids => (None, MkStorage None (fold_left (fun recs id => delete id recs) ids (records st)))
  | _ => (Some TypeError, st)
  end.

(** [rebuildPdf]: the bytes of the Blob, or [null] ([None]). *)
Definition rebuildPdf (record : JSON) : exn + option (list byte) :=
  match record with
  | JNull => inl TypeError
  | _ =>
      match Json.get "pdfBase64" record with
      | Some v =>
          if Json.truthy v then
            match Base64.atob (Json.to_string v) with
            | Some binary => inr (Some (list_byte_of_string binary))
            | None => inl InvalidCharacterError
            end
          else inr None
      | None => inr None
      end
  end.

End HistoryStorage.

(* ===================================================================== *)
(** ** models.js: DataStore *)
(* ===================================================================== *)

Module DataStore.

(** [localStorage] and the [Map] of the memory mode are used through the
    same interface: write, read and remove by key, and an enumeration of the
    entries.  A [Map] enumerates in insertion order; the order of
    [localStorage.key(i)] is the browser's, taken here to be insertion order
    too.  A stored text is represented as in the history store. *)
Definition kv : Type := list (string * HistoryStorage.text).

Fixpoint setItem (k : string) (v : HistoryStorage.text) (m : kv) : kv :=
  match m with
  | [] => [(k, v)]
  | (k', v') :: rest =>
      if String.eqb k' k then (k, v) :: rest else (k', v') :: setItem k v rest
  end.

Fixpoint getItem (k : string) (m : kv) : option HistoryStorage.text :=
  match m with
  | [] => None
  | (k', v) :: rest => if String.eqb k' k then Some v else getItem k rest
  end.

Definition removeItem (k : string) (m : kv) : kv :=
  List.filter (fun p => negb (String.eqb (fst p) k)) m.

(** An instance, with the [localStorage] it reaches. *)
Record state := Make {
  storageType : string;
  cache : kv;
  localStorage : kv
}.

(** [new DataStore(storageType = 'localStorage')]. *)
Definition new (storageType : option string) (local : kv) : state :=
  Make (default "localStorage" storageType) [] local.

Definition prefix : string := "sc_".

Definition key (collection id : string) : string :=
  prefix +:+ collection +:+ "_" +:+ id.

Definition is_local (ds : state) : bool := String.eqb (storageType ds) "localStorage".
Definition is_memory (ds : state) : bool := String.eqb (storageType ds) "memory".

(** The entries of the storage that the instance uses; none for a
    [storageType] that is neither of the two. *)
Definition entries (ds : state) : kv :=
  if is_local ds then localStorage ds
  else if is_memory ds then cache ds
  else [].

Definition with_entries (m : kv) (ds : state) : state :=
  if is_local ds then Make (storageType ds) (cache ds) m
  else if is_memory ds then Make (storageType ds) m (localStorage ds)
  else ds.

(** The [data] argument of [save]: a plain value, or an instance of a model
    class, given by its own properties, which inherits [toJSON]. *)
Inductive value :=
  | Plain (j : JSON)
  | Instance (own : JSON).

(** [JSON.stringify({ data, timestamp, version: 1 })]. *)
Definition serialize (data : value) (timestamp : string) : exn + HistoryStorage.text :=
  match match data with
        | Plain j => inr j
        | Instance own => BaseModel.toJSON own
        end with
  | inl e => inl e
  | inr j => inr (HistoryStorage.Json
                    (JObj [ ("data", j); ("timestamp", JStr timestamp);
                            ("version", JNum 1) ]))
  end.

(** [save]: the text is built before the [try], so an exception of
    [JSON.stringify] leaves [save].  Inside the [try] only
    [localStorage.setItem] can throw (a full storage, a storage that
    refuses writes); [setItem_throws] says whether it does, and the [catch]
    then returns [false].  [Map.set] does not throw. *)
Definition save (collection id : string) (data : value) (setItem_throws : bool)
                (ds : state) : M ((exn + bool) * state) :=
  let k := key collection id in
  let* timestamp := now_iso in
  match serialize data timestamp with
  | inl e => ret (inl e, ds)
  | inr serialized =>
      if is_local ds && setItem_throws then ret (inr false, ds)
      else ret (inr true, with_entries (setItem k serialized (entries ds)) ds)
  end.

(** [load]: [None] is [undefined], the [data] of a stored text that has
    none.  Every exception is caught and gives [null]. *)
Definition load (collection id : string) (ds : state) : option JSON :=
  match getItem (key collection id) (entries ds) with
  | Some (HistoryStorage.Json JNull) => Some JNull   (* TypeError, caught *)
  | Some (HistoryStorage.Json parsed) => Json.get "data" parsed
  | Some HistoryStorage.Garbage => Some JNull        (* SyntaxError, caught *)
  | None => Some JNull
  end.

Definition delete (collection id : string) (ds : state) : bool * state :=
  (true, with_entries (removeItem (key collection id) (entries ds)) ds).

(** [query(collection)] with the default filter [{}], as every caller in
    models.js calls it: [matchesFilter] then returns [true] without reading
    [data].  The first text that does not parse, or parses to [null], throws
    inside the loop; the [catch] is outside it, so the results collected so
    far are returned. *)
Fixpoint query_loop (pattern : string) (m : kv) (results : list (option JSON))
  : list (option JSON) :=
  match m with
  | [] => results
  | (k, text) :: rest =>
      if String.prefix pattern k then
        match text with
        | HistoryStorage.Garbage => results
        | HistoryStorage.Json JNull => results
        | HistoryStorage.Json parsed =>
            query_loop pattern rest (results ++ [Json.get "data" parsed])%list
        end
      else query_loop pattern rest results
  end.

Definition query (collection : string) (ds : state) : list (option JSON) :=
  query_loop (prefix +:+ collection +:+ "_") (entries ds) [].

(** [clear]: the keys are collected first, then removed. *)
Definition clear (collection : string) (ds : state) : bool * state :=
  let pattern := prefix +:+ collection +:+ "_" in
  let keysToDelete :=
    List.map fst (List.filter (fun p => String.prefix pattern (fst p)) (entries ds)) in
  (true, with_entries (fold_left (fun m k => removeItem k m) keysToDelete (entries ds)) ds).

End DataStore.

(* ===================================================================== *)
(** ** Notions used in the statements *)
(* ===================================================================== *)

(** One iteration of the mining loop on a block without transactions, where
    [calculateHash] is the digest of the five fields. *)
Definition mine_step (b : Block.t) : Block.t :=
  let b' := Block.set_nonce (Block.nonce b + 1) b in
  Block.set_hash (SHA256 (Json.stringify (Block.hashed_fields b' []))) b'.

(** The state after [n] iterations. *)
Definition after (n : nat) (b : Block.t) : Block.t := Nat.iter n mine_step b.
#[global] Arguments after : simpl never.

(** The fields that mining is not to touch. *)
Definition same_frame (b b' : Block.t) : Prop :=
  Block.base b' = Block.base b /\ Block.index b' = Block.index b /\
  Block.timestamp b' = Block.timestamp b /\
  Block.previousHash b' = Block.previousHash b /\
  Block.transactions b' = Block.transactions b /\
  Block.metadata b' = Block.metadata b.

(** A change to one stored field of a block that validation can see: the
    stored hash, the previousHash link, or fields covered by the digest
    changed so that the digest can still be recomputed and differs. *)
Inductive tampered (b : Block.t) : Block.t -> Prop :=
| tamper_hash h :
    h <> Block.hash b -> tampered b (Block.set_hash h b)
| tamper_previousHash p :
    p <> Block.previousHash b -> tampered b (Block.set_previousHash p b)
| tamper_digest b' h' :
    Block.hash b' = Block.hash b ->
    Block.previousHash b' = Block.previousHash b ->
    Block.calculateHash b' = inr h' -> h' <> Block.hash b ->
    tampered b b'.

(** A change confined to fields outside the digest and the link. *)
Definition untracked_change (b b' : Block.t) : Prop :=
  Block.hash b' = Block.hash b /\
  Block.previousHash b' = Block.previousHash b /\
  Block.index b' = Block.index b /\
  Block.timestamp b' = Block.timestamp b /\
  Block.nonce b' = Block.nonce b /\
  Block.transactions b' = Block.transactions b.

(** The ids that the index lists: those of the array stored under
    INDEX_KEY; none when the entry is absent, does not parse, or parses to a
    value that is no array. *)
Definition listed (st : HistoryStorage.Storage) : list string :=
  match HistoryStorage.readIndex st with
  | HistoryStorage.Ids ids => ids
  | _ => []
  end.

(** The index that [save] writes after a new record. *)
Definition pushed (id : string) (ids : list string) : list string :=
  if (HistoryStorage.cap <? length (id :: ids))%nat
  then firstn HistoryStorage.cap (id :: ids) else id :: ids.

(** The records behind the ids of an index, in index order: the ids whose
    record is missing (or is no truthy value) are left out. *)
Definition resolve (st : HistoryStorage.Storage) (ids : list string) : list JSON :=
  omap (fun id => match HistoryStorage.records st !! id with
                  | Some (HistoryStorage.Json j) => if Json.truthy j then Some j else None
                  | _ => None
                  end) ids.

(* ===================================================================== *)
(** ** Sample values *)
(* ===================================================================== *)

Definition world0 : World :=
  MkWorld (fun n => "id" +:+ Json.number_to_string (Z.of_nat n))
          (fun n => "2024-01-01T00:00:0" +:+ Json.number_to_string (Z.of_nat n) +:+ ".000Z")
          0 0.

Definition payload_ab : JSON := JObj [("a", JNum 1); ("b", JNum 2)].
Definition payload_ba : JSON := JObj [("b", JNum 2); ("a", JNum 1)].

Definition tx_init (payload : JSON) : Transaction.init :=
  Transaction.Init BaseModel.no_data None (Some "alice") (Some "bob") (Some 5%Z) None
                   (Some payload) None None None.

Definition tx_ab : Transaction.t := fst (Transaction.new (tx_init payload_ab) world0).
Definition tx_ba : Transaction.t := fst (Transaction.new (tx_init payload_ba) world0).

Definition contract_init (milestone : JSON) : SmartContract.init :=
  SmartContract.Init BaseModel.no_data (Some "Supply agreement") (Some "purchase") None None
    (Some (SmartContract.PartyData (Some "Buyer Ltd") None None None))
    (Some (SmartContract.PartyData (Some "Seller Ltd") None None None))
    (Some "Deliver 100 units") None None None
    (Some 100000%Z) None None None
    (Some "2024-01-01") (Some "2024-12-31") None (Some [milestone]).

Definition contract_ab : SmartContract.t :=
  fst (SmartContract.new (contract_init payload_ab) world0).
Definition contract_ba : SmartContract.t :=
  fst (SmartContract.new (contract_init payload_ba) world0).

Definition block_init (i : Z) (prev : string) (h : option string)
                      (txs : list (Transaction.t + Transaction.init)) : Block.init :=
  Block.Init BaseModel.no_data (Some i) None (Some prev) h None None (Some txs) None.

Definition blank : Block.t :=
  Block.Make (BaseModel.Make "" "" "" 0) 0 "" "" "" 0 0 [] (Block.Meta 0 0 "" 0 0).

(** The block a constructor run built ([blank] if it threw). *)
Definition built (run : (exn + Block.t) * World) : Block.t :=
  match fst run with
  | inr b => b
  | inl _ => blank
  end.

(** A two-block chain built through the constructor: a first block, and a
    block linked to it.  Neither carries a transaction. *)
Definition genesis_run : (exn + Block.t) * World :=
  Block.new (block_init 0 "0" None []) world0.
Definition genesis : Block.t := built genesis_run.

Definition block1_run : (exn + Block.t) * World :=
  Block.new (block_init 1 (Block.hash genesis) None []) (snd genesis_run).
Definition block1 : Block.t := built block1_run.

Definition chain2 : list Block.t := [genesis; block1].

(** [block1] after a mining run at difficulty 1. *)
Definition mined1 : Block.t := Block.state_of (Block.mineBlock 40 1 block1).

(** A block rebuilt from stored data that carries a hash of its own. *)
Definition stored_block : Block.t :=
  built (Block.new (block_init 1 "0" (Some "abc") []) world0).

(** [block1] after [addTransaction] of a valid transaction. *)
Definition block1_added : Block.t :=
  built (Block.addTransaction (inr (tx_init payload_ab)) block1 (snd block1_run)).

Definition clock0 : HistoryStorage.clock :=
  HistoryStorage.Clock 1700000000000 "k3x9" 1700000000001.
Definition clock1 : HistoryStorage.clock :=
  HistoryStorage.Clock 1700000000500 "q7w2" 1700000000501.

Definition meta0 : list (string * JSON) :=
  [("template", JStr "nda"); ("fileName", JStr "nda.pdf")].
Definition meta1 : list (string * JSON) :=
  [("templateKey", JStr "lease"); ("fields", JObj [("tenant", JStr "T")])].

Definition pdf_bytes : list byte := list_byte_of_string "%PDF-1.4 sample".

(** A store whose index is full: 500 records, the oldest last. *)
Definition old_id (n : nat) : string :=
  "CR_" +:+ Json.number_to_string (Z.of_nat (1000 - n)) +:+ "_seed".
Definition old_record (id : string) : JSON :=
  JObj [("id", JStr id); ("sha256", JStr ("digest of " +:+ id)); ("pdfBase64", JNull)].
Definition old_ids : list string := List.map old_id (seq 0 500).
Definition full_store : HistoryStorage.Storage :=
  HistoryStorage.MkStorage
    (Some (HistoryStorage.IndexIds old_ids))
    (list_to_map (List.map (fun id => (id, HistoryStorage.Json (old_record id))) old_ids)).
Definition oldest : string := old_id 499.

(** A store with two indexed records, the text of the first one damaged. *)
Definition damaged_store : HistoryStorage.Storage :=
  HistoryStorage.MkStorage
    (Some (HistoryStorage.IndexIds ["CR_2_bbbb"; "CR_1_aaaa"]))
    (<["CR_2_bbbb" := HistoryStorage.Garbage]>
       {["CR_1_aaaa" := HistoryStorage.Json (old_record "CR_1_aaaa")]}).

(* ===================================================================== *)
(** ** Further notions and sample values *)
(* ===================================================================== *)

(** A model instance read where a constructor expects its [data]: every
    property the constructor reads is present, with the instance's value. *)
Definition base_data (b : BaseModel.t) : BaseModel.data :=
  BaseModel.Data (Some (BaseModel.id b)) (Some (BaseModel.createdAt b))
                 (Some (BaseModel.updatedAt b)) (Some (BaseModel.version b)).

Definition transaction_data (tx : Transaction.t) : Transaction.init :=
  Transaction.Init (base_data (Transaction.base tx))
    (Some (Transaction.type tx)) (Some (Transaction.from tx)) (Some (Transaction.to tx))
    (Some (Transaction.amount tx)) (Some (Transaction.fee tx))
    (Some (Transaction.data tx)) (Some (Transaction.signature tx))
    (Some (Transaction.status tx))
    (Some (Transaction.MetaData
             (Some (Transaction.gasPrice (Transaction.metadata tx)))
             (Some (Transaction.gasLimit (Transaction.metadata tx)))
             (Some (Transaction.gasUsed (Transaction.metadata tx)))
             (Transaction.blockHash (Transaction.metadata tx))
             (Transaction.blockIndex (Transaction.metadata tx))
             (Transaction.transactionIndex (Transaction.metadata tx)))).

Definition block_data (b : Block.t) : Block.init :=
  Block.Init (base_data (Block.base b))
    (Some (Block.index b)) (Some (Block.timestamp b)) (Some (Block.previousHash b))
    (Some (Block.hash b)) (Some (Block.nonce b)) (Some (Block.difficulty b))
    (Some (List.map inl (Block.transactions b)))
    (Some (Block.MetaData
             (Some (Block.size (Block.metadata b)))
             (Some (Block.transactionCount (Block.metadata b)))
             (Some (Block.merkleRoot (Block.metadata b)))
             (Some (Block.gasUsed (Block.metadata b)))
             (Some (Block.gasLimit (Block.metadata b))))).

(** [generateId()] and [toISOString()] return non-empty strings. *)
Definition nonempty_streams (w : World) : Prop :=
  forall n, id_stream w n <> "" /\ date_stream w n <> "".

(** What a constructor run leaves of the world: the streams are the same. *)
Definition same_streams (w w' : World) : Prop :=
  id_stream w' = id_stream w /\ date_stream w' = date_stream w.

(** The digest that [calculateHash] takes of a block without transactions. *)
Definition digest_of (b : Block.t) : string :=
  SHA256 (Json.stringify (Block.hashed_fields b [])).

(** A sequence of calls on a contract. *)
Inductive contract_op :=
| call_sign (party sig : string)
| call_updateStatus (newStatus : string).

Definition contract_call (o : contract_op) (c : SmartContract.t) : M SmartContract.t :=
  match o with
  | call_sign party sig => SmartContract.sign party sig c
  | call_updateStatus s => SmartContract.updateStatus s c
  end.

Fixpoint contract_calls (ops : list contract_op) (c : SmartContract.t) : M SmartContract.t :=
  match ops with
  | [] => ret c
  | o :: rest => let* c' := contract_call o c in contract_calls rest c'
  end.

(** The calls that pass the guard of their method. *)
Definition accepted (o : contract_op) : bool :=
  match o with
  | call_sign party _ => String.eqb party "party1" || String.eqb party "party2"
  | call_updateStatus s => existsb (String.eqb s) SmartContract.validStatuses
  end.

(** Whether a party has signed. *)
Definition signed1 (c : SmartContract.t) : bool :=
  Json.truthy (SmartContract.signature (SmartContract.party1 c)).
Definition signed2 (c : SmartContract.t) : bool :=
  Json.truthy (SmartContract.signature (SmartContract.party2 c)).

(** The fields that neither [sign] nor [updateStatus] writes. *)
Definition same_content (c c' : SmartContract.t) : Prop :=
  BaseModel.id (SmartContract.base c') = BaseModel.id (SmartContract.base c) /\
  BaseModel.createdAt (SmartContract.base c') = BaseModel.createdAt (SmartContract.base c) /\
  SmartContract.title c' = SmartContract.title c /\
  SmartContract.type c' = SmartContract.type c /\
  SmartContract.description c' = SmartContract.description c /\
  SmartContract.name (SmartContract.party1 c') = SmartContract.name (SmartContract.party1 c) /\
  SmartContract.address (SmartContract.party1 c')
  = SmartContract.address (SmartContract.party1 c) /\
  SmartContract.contact (SmartContract.party1 c')
  = SmartContract.contact (SmartContract.party1 c) /\
  SmartContract.name (SmartContract.party2 c') = SmartContract.name (SmartContract.party2 c) /\
  SmartContract.address (SmartContract.party2 c')
  = SmartContract.address (SmartContract.party2 c) /\
  SmartContract.contact (SmartContract.party2 c')
  = SmartContract.contact (SmartContract.party2 c) /\
  SmartContract.terms c' = SmartContract.terms c /\
  SmartContract.financial c' = SmartContract.financial c /\
  SmartContract.timeline c' = SmartContract.timeline c.

(** A sequence of calls on the history store; each call is followed by
    the storage it leaves, whether it ends normally or not. *)
Inductive store_op :=
| call_save (c : HistoryStorage.clock) (meta : list (string * JSON))
            (arrayBuffer : option binary)
| call_deleteRecord (id : string)
| call_clearAll.

Definition store_call (o : store_op) (st : HistoryStorage.Storage) : HistoryStorage.Storage :=
  match o with
  | call_save c meta arrayBuffer => snd (HistoryStorage.save c meta arrayBuffer st)
  | call_deleteRecord id => snd (HistoryStorage.deleteRecord id st)
  | call_clearAll => snd (HistoryStorage.clearAll st)
  end.

Definition store_calls (ops : list store_op) (st : HistoryStorage.Storage)
  : HistoryStorage.Storage :=
  fold_left (fun st o => store_call o st) ops st.

(** The ids passed to [deleteRecord] are record ids: none is the word
    [index], under which the index itself is stored. *)
Definition record_ids (ops : list store_op) : bool :=
  forallb (fun o => match o with
                    | call_deleteRecord id => negb (String.eqb id "index")
                    | _ => true
                    end) ops.

(** The digest that a listed record carries, and those of the records that
    the index lists. *)
Definition record_digest (r : JSON) : option string :=
  match Json.get "sha256" r with
  | Some (JStr h) => Some h
  | _ => None
  end.

Definition listed_digests (st : HistoryStorage.Storage) : list string :=
  omap record_digest (resolve st (listed st)).

(** A run in which no [save] draws an id that the index holds already. *)
Fixpoint fresh_ids (ops : list store_op) (st : HistoryStorage.Storage) : bool :=
  match ops with
  | [] => true
  | o :: rest =>
      match o with
      | call_save c _ _ =>
          negb (existsb (String.eqb (HistoryStorage.new_id c)) (listed st))
      | _ => true
      end && fresh_ids rest (store_call o st)
  end.

(** What [rebuildPdf] makes of the payload of a buffer: [null] for the
    empty one. *)
Definition rebuilt (buffer : list byte) : option (list byte) :=
  match buffer with
  | [] => None
  | _ => Some buffer
  end.

(** A binary argument that is its whole underlying buffer: an ArrayBuffer,
    or a Uint8Array over all of its buffer. *)
Definition whole (buffer : binary) : bool :=
  match buffer with
  | ArrayBuffer _ => true
  | Uint8Array [] _ [] => true
  | Uint8Array _ _ _ => false
  end.


(** A run whose saved buffers all satisfy [P]. *)
Definition saves (P : binary -> bool) (ops : list store_op) : bool :=
  forallb (fun o => match o with
                    | call_save _ _ (Some buffer) => P buffer
                    | _ => true
                    end) ops.

(** A store whose index is an array within its capacity, each id of which
    has a record that [save] wrote for a buffer that satisfies [P]. *)
Definition made_by (P : binary -> bool) (st : HistoryStorage.Storage) : Prop :=
  exists ids,
    HistoryStorage.readIndex st = HistoryStorage.Ids ids /\
    (length ids <= HistoryStorage.cap)%nat /\
    forall id, In id ids ->
      exists c meta buffer,
        P buffer = true /\
        HistoryStorage.records st !! id
        = Some (HistoryStorage.Json (HistoryStorage.make_record c meta buffer)).


(** The first of a list of records that carries a digest. *)
Definition has_digest (hash : string) (r : JSON) : bool :=
  match record_digest r with
  | Some h => String.eqb h hash
  | None => false
  end.

Definition first_with_digest (hash : string) (rs : list JSON) : option JSON :=
  List.find (has_digest hash) rs.

(** A collection name without the separator of the keys. *)
Definition no_underscore (s : string) : bool :=
  forallb (fun c => negb (Ascii.eqb c "_")) (list_ascii_of_string s).

(** A [DataStore] that has a storage behind it. *)
Definition backed (ds : DataStore.state) : bool :=
  DataStore.is_local ds || DataStore.is_memory ds.

(** Entries of which those under the pattern of a collection hold the text
    of an object, as [save] writes them. *)
Definition intact (pattern : string) (m : DataStore.kv) : bool :=
  forallb (fun p => negb (String.prefix pattern (fst p)) ||
                    match snd p with
                    | HistoryStorage.Json (JObj _) => true
                    | _ => false
                    end) m.

(** The [data] of a stored text, and those of the entries of a collection
    in enumeration order. *)
Definition data_of (text : HistoryStorage.text) : option JSON :=
  match text with
  | HistoryStorage.Json parsed => Json.get "data" parsed
  | HistoryStorage.Garbage => None
  end.

Definition collected (pattern : string) (m : DataStore.kv) : list (option JSON) :=
  List.map (fun p => data_of (snd p))
           (List.filter (fun p => String.prefix pattern (fst p)) m).

(** A lowercase hexadecimal digit. *)
Definition is_hex (c : ascii) : bool :=
  existsb (Ascii.eqb c) (list_ascii_of_string "0123456789abcdef").

(** [new Transaction({})]'s data. *)
Definition tx_empty : Transaction.init :=
  Transaction.Init BaseModel.no_data None None None None None None None None None.

Definition memory_store : DataStore.state := DataStore.new (Some "memory") [].
Definition local_store : DataStore.state := DataStore.new None [].
Definition indexed_store : DataStore.state := DataStore.new (Some "indexedDB") [].

(** Two stored buffers and what a run of saves and a delete leaves. *)
Definition other_bytes : list byte := list_byte_of_string "%PDF-1.7 other".
Definition clock2 : HistoryStorage.clock :=
  HistoryStorage.Clock 1700000000900 "m4t8" 1700000000901.
Definition clock3 : HistoryStorage.clock :=
  HistoryStorage.Clock 1700000001200 "z0a1" 1700000001201.
(** A buffer is saved on the empty store, and then 500 other buffers, one
    after the other. *)
Definition filler_clock (i : nat) : HistoryStorage.clock :=
  HistoryStorage.Clock (1700000000001 + Z.of_nat i) "fill" (1700000000002 + Z.of_nat i).
Definition filler_bytes (i : nat) : list byte :=
  list_byte_of_string ("%PDF-1.4 filler " +:+ Json.number_to_string (Z.of_nat i)).
Definition filler_calls : list store_op :=
  List.map (fun i => call_save (filler_clock i) meta1 (Some (ArrayBuffer (filler_bytes i))))
           (seq 1 500).
Definition first_saved : HistoryStorage.Storage :=
  snd (HistoryStorage.save clock0 meta0 (Some (ArrayBuffer pdf_bytes)) HistoryStorage.empty).
Definition after_fillers : HistoryStorage.Storage := store_calls filler_calls first_saved.

(** A Uint8Array of the bytes of [pdf_bytes], inside a buffer that holds
    four more bytes before them. *)
Definition pdf_view : binary := Uint8Array (list_byte_of_string "head") pdf_bytes [].

(** A store in which a damaged record is listed after a record of
    [pdf_bytes]. *)
Definition blocked_store : HistoryStorage.Storage :=
  HistoryStorage.MkStorage
    (Some (HistoryStorage.IndexIds [HistoryStorage.new_id clock0; "CR_2_bbbb"; "CR_1_aaaa"]))
    (<[HistoryStorage.new_id clock0
         := HistoryStorage.Json (HistoryStorage.make_record clock0 meta0 (ArrayBuffer pdf_bytes))]>
       (HistoryStorage.records damaged_store)).

Definition sample_calls : list store_op :=
  [ call_save clock0 meta0 (Some (ArrayBuffer pdf_bytes));
    call_save clock1 meta1 (Some (ArrayBuffer other_bytes));
    call_save clock2 meta0 (Some (Uint8Array [] pdf_bytes []));
    call_deleteRecord (HistoryStorage.new_id clock0);
    call_save clock3 meta1 (Some (ArrayBuffer [])) ].

(* ===================================================================== *)
(** * Properties *)
(* ===================================================================== *)

(** ** The library functions on known values *)

Example sha256_abc :
  SHA256 "abc" = "ba7816bf8f01cfea414140de5dae2223b00361a396177a9cb410ff61f20015ad".
Proof. vm_compute. reflexivity. Qed.

Example sha256_empty :
  SHA256 "" = "e3b0c44298fc1c149afbf4c8996fb92427ae41e4649b934ca495991b7852b855".
Proof. vm_compute. reflexivity. Qed.

Example sha256_two_blocks :
  SHA256 "abcdbcdecdefdefgefghfghighijhijkijkljklmklmnlmnomnopnopq"
  = "248d6a61d20638b8e5c026930c3e6039a33ce45964ff2167f6ecedd419db06c1".
Proof. vm_compute. reflexivity. Qed.

Lemma SHA256_length (s : string) : String.length (SHA256 s) = 64.
Proof. reflexivity. Qed.

Lemma sha256Hex_length (buffer : binary) : String.length (sha256Hex buffer) = 64.
Proof. reflexivity. Qed.

(** The text of [{ a: 1, b: [ q, null, true, -20 ] }], where [q] is the
    three-character string x, double quote, y. *)
Example stringify_sample :
  Json.stringify
    (JObj [("a", JNum 1);
           ("b", JArr [JStr (String "x" (String Json.dquote "y")); JNull; JBool true;
                       JNum (-20)])])
  = Json.join (String Json.dquote "")
      ["{"; "a"; ":1,"; "b"; ":["; "x\"; "y"; ",null,true,-20]}"].
Proof. vm_compute. reflexivity. Qed.

Example btoa_sample : Base64.btoa "Hello, PDF" = "SGVsbG8sIFBERg==".
Proof. vm_compute. reflexivity. Qed.

Example atob_sample : Base64.atob "SGVsbG8s IFBERg" = Some "Hello, PDF".
Proof. vm_compute. reflexivity. Qed.

(* ===================================================================== *)
(** ** Blocks: hashing and mining *)
(* ===================================================================== *)

Section BlockFacts.
Import Block.

(** [toJSON] never returns: however deep the stack, the call ends in
    RangeError. *)
Lemma toJSON_at_raises stack own : BaseModel.toJSON_at stack own = inl RangeError.
Proof. induction stack as [|n IH]; simpl; [reflexivity | now rewrite IH]. Qed.

Lemma toJSON_raises tx : Transaction.toJSON tx = inl RangeError.
Proof. unfold Transaction.toJSON, BaseModel.toJSON. apply toJSON_at_raises. Qed.

(** So [calculateHash] yields a digest exactly for a block without
    transactions. *)
Lemma calculateHash_empty b :
  transactions b = [] ->
  calculateHash b = inr (SHA256 (Json.stringify (hashed_fields b []))).
Proof. unfold calculateHash. now intros ->. Qed.

Lemma calculateHash_nonempty b :
  transactions b <> [] -> calculateHash b = inl RangeError.
Proof.
  unfold calculateHash. destruct (transactions b) as [|tx rest]; [easy|].
  intros _. cbn [map_toJSON]. now rewrite toJSON_raises.
Qed.

Lemma calculateHash_inr b h :
  calculateHash b = inr h ->
  transactions b = [] /\ h = SHA256 (Json.stringify (hashed_fields b [])).
Proof.
  intros H. destruct (transactions b) as [|tx rest] eqn:E.
  - rewrite (calculateHash_empty b E) in H. injection H as <-. now split.
  - rewrite calculateHash_nonempty in H by (rewrite E; discriminate). discriminate.
Qed.

Lemma calculateHash_set_hash h b : calculateHash (set_hash h b) = calculateHash b.
Proof. reflexivity. Qed.

Lemma calculateHash_set_difficulty d b : calculateHash (set_difficulty d b) = calculateHash b.
Proof. reflexivity. Qed.

Lemma target_length d : String.length (target d) = d.
Proof. induction d as [|d IH]; simpl; [reflexivity | now rewrite IH]. Qed.

Lemma substring_length_le n s : (String.length (substring 0 n s) <= String.length s)%nat.
Proof.
  revert s; induction n as [|n IH]; intros [|c s]; simpl; try lia.
  specialize (IH s). lia.
Qed.

(** What [substring(0, d) === target] says: the string starts with the [d]
    characters of the target. *)
Lemma substring_prefix n s t :
  substring 0 n s = t -> String.length t = n -> exists rest, s = t +:+ rest.
Proof.
  revert s t; induction n as [|n IH]; intros s t Hs Hl.
  - destruct t; [|discriminate]. now exists s.
  - destruct s as [|c s]; simpl in Hs; subst t; [discriminate|].
    simpl in Hl. injection Hl as Hl.
    destruct (IH s _ eq_refl Hl) as [rest Hr].
    exists rest. change (String c s = String c (substring 0 n s +:+ rest)).
    now f_equal.
Qed.

Lemma meets_prefix d b :
  meets d b = true -> exists rest, hash b = target d +:+ rest.
Proof.
  unfold meets. intros H. apply String.eqb_eq in H.
  eapply substring_prefix; [exact H | apply target_length].
Qed.

(** A hash shorter than the target can never match it. *)
Lemma short_hash_never_meets d b :
  (String.length (hash b) < d)%nat -> meets d b = false.
Proof.
  intros Hlen. unfold meets. apply String.eqb_neq. intros Heq.
  pose proof (substring_length_le d (hash b)) as Hle.
  rewrite Heq, target_length in Hle. lia.
Qed.

Lemma same_frame_refl b : same_frame b b.
Proof. repeat split. Qed.

Lemma same_frame_trans b1 b2 b3 :
  same_frame b1 b2 -> same_frame b2 b3 -> same_frame b1 b3.
Proof. unfold same_frame. intuition congruence. Qed.

Lemma same_frame_step b h : same_frame b (set_hash h (set_nonce (nonce b + 1) b)).
Proof. repeat split. Qed.

(** Whatever way the loop stands after [fuel] iterations, returned, thrown or
    running, the block has its frame fields as before. *)
Lemma mine_loop_frame fuel d : forall b, same_frame b (state_of (mine_loop fuel d b)).
Proof.
  induction fuel as [|fuel IH]; intros b; simpl; destruct (meets d b);
    try apply same_frame_refl.
  destruct (calculateHash (set_nonce (nonce b + 1) b)) as [e|h]; simpl.
  - repeat split.
  - eapply same_frame_trans; [apply (same_frame_step b h) | apply IH].
Qed.

Lemma mine_loop_meets fuel d : forall b b',
  mine_loop fuel d b = Mined b' -> meets d b' = true.
Proof.
  induction fuel as [|fuel IH]; intros b b'; simpl; destruct (meets d b) eqn:E;
    intros H; try discriminate; try (now injection H as <-).
  destruct (calculateHash (set_nonce (nonce b + 1) b)) as [e|h]; [discriminate|].
  now apply IH in H.
Qed.

Lemma mine_loop_invariant fuel d : forall b b',
  calculateHash b = inr (hash b) ->
  mine_loop fuel d b = Mined b' -> calculateHash b' = inr (hash b').
Proof.
  induction fuel as [|fuel IH]; intros b b' Hb; simpl; destruct (meets d b);
    intros H; try discriminate; try (now injection H as <-).
  destruct (calculateHash (set_nonce (nonce b + 1) b)) as [e|h] eqn:E; [discriminate|].
  apply IH in H; [exact H|]. rewrite calculateHash_set_hash. exact E.
Qed.

(** On a block without transactions an iteration is [mine_step]. *)
Lemma mine_step_transactions b : transactions (mine_step b) = transactions b.
Proof. reflexivity. Qed.

Lemma mine_step_nonce b : nonce (mine_step b) = (nonce b + 1)%Z.
Proof. reflexivity. Qed.

Lemma mine_step_hash_length b : String.length (hash (mine_step b)) = 64%nat.
Proof. reflexivity. Qed.

Lemma after_S n b : after (S n) b = after n (mine_step b).
Proof. unfold after. now rewrite Nat.iter_succ_r. Qed.

Lemma after_transactions n b : transactions (after n b) = transactions b.
Proof.
  induction n as [|n IH]; [reflexivity|].
  change (after (S n) b) with (mine_step (after n b)).
  now rewrite mine_step_transactions.
Qed.

Lemma after_nonce n b : nonce (after n b) = (nonce b + Z.of_nat n)%Z.
Proof.
  induction n as [|n IH].
  - unfold after. simpl. lia.
  - change (after (S n) b) with (mine_step (after n b)).
    rewrite mine_step_nonce, IH. lia.
Qed.

Lemma after_hash_length n b :
  (String.length (hash b) <= 64)%nat -> (String.length (hash (after n b)) <= 64)%nat.
Proof.
  destruct n as [|n]; [trivial|]. intros _.
  change (after (S n) b) with (mine_step (after n b)).
  now rewrite mine_step_hash_length.
Qed.

Lemma mine_loop_unfold_empty fuel d b :
  transactions b = [] -> meets d b = false ->
  mine_loop (S fuel) d b = mine_loop fuel d (mine_step b).
Proof.
  intros Htx Hm. simpl. rewrite Hm.
  now rewrite (calculateHash_empty (set_nonce (nonce b + 1) b) Htx).
Qed.

(** The loop returns the first state that meets the target, as soon as the
    fuel reaches that many iterations. *)
Lemma mine_loop_first n d : forall b,
  transactions b = [] ->
  meets d (after n b) = true ->
  (forall m, (m < n)%nat -> meets d (after m b) = false) ->
  forall fuel, (n <= fuel)%nat -> mine_loop fuel d b = Mined (after n b).
Proof.
  induction n as [|n IH]; intros b Htx Hn Hlt fuel Hf.
  - change (after 0 b) with b in *. destruct fuel; simpl; now rewrite Hn.
  - destruct fuel as [|fuel]; [lia|].
    pose proof (Hlt 0%nat ltac:(lia)) as H0. change (after 0 b) with b in H0.
    rewrite (mine_loop_unfold_empty fuel d b Htx H0), after_S.
    apply IH; [exact Htx | now rewrite <- after_S | | lia].
    intros m Hm. rewrite <- after_S. apply Hlt. lia.
Qed.

(** While no state meets the target the loop keeps running. *)
Lemma mine_loop_running fuel d : forall b,
  transactions b = [] ->
  (forall m, (m <= fuel)%nat -> meets d (after m b) = false) ->
  mine_loop fuel d b = Running (after fuel b).
Proof.
  induction fuel as [|fuel IH]; intros b Htx H.
  - pose proof (H 0%nat ltac:(lia)) as H0. change (after 0 b) with b in *.
    simpl. now rewrite H0.
  - pose proof (H 0%nat ltac:(lia)) as H0. change (after 0 b) with b in H0.
    rewrite (mine_loop_unfold_empty fuel d b Htx H0), after_S.
    apply IH; [exact Htx|]. intros m Hm. rewrite <- after_S. apply H. lia.
Qed.

(** With a transaction in the block, the first iteration throws. *)
Lemma mine_loop_throws fuel d b :
  transactions b <> [] -> meets d b = false ->
  mine_loop (S fuel) d b = Threw RangeError (set_nonce (nonce b + 1) b).
Proof.
  intros Htx Hm. simpl. rewrite Hm.
  now rewrite (calculateHash_nonempty (set_nonce (nonce b + 1) b) Htx).
Qed.

Lemma long_target_never_met d b n :
  (String.length (hash b) <= 64)%nat -> (64 < d)%nat -> meets d (after n b) = false.
Proof.
  intros Hlen Hd. apply short_hash_never_meets.
  pose proof (after_hash_length n b Hlen). lia.
Qed.

Lemma mineBlock_long_target fuel d b :
  transactions b = [] -> (String.length (hash b) <= 64)%nat -> (64 < d)%nat ->
  mineBlock fuel d b = Running (after fuel b).
Proof.
  intros Htx Hlen Hd. unfold mineBlock.
  rewrite mine_loop_running; [reflexivity | exact Htx |].
  intros m _. now apply long_target_never_met.
Qed.

(** What mining does guarantee.  A returned block has the zero prefix. *)
Lemma mineBlock_prefix fuel d b b' :
  mineBlock fuel d b = Mined b' -> exists rest, hash b' = target d +:+ rest.
Proof.
  unfold mineBlock. destruct (mine_loop fuel d b) as [b0| |] eqn:E; try discriminate.
  intros H. injection H as <-. apply mine_loop_meets in E.
  now apply meets_prefix in E.
Qed.

(** And when some nonce succeeds, the search returns with the first one. *)
Lemma mineBlock_returns n d b :
  transactions b = [] ->
  meets d (after n b) = true ->
  exists m, (m <= n)%nat /\
    forall fuel, (m <= fuel)%nat -> mineBlock fuel d b = Mined (set_difficulty d (after m b)).
Proof.
  intros Htx Hn.
  assert (exists m, (m <= n)%nat /\ meets d (after m b) = true /\
                    forall k, (k < m)%nat -> meets d (after k b) = false)
    as (m & Hm & Hmeet & Hmin).
  { clear -Hn. induction n as [n IH] using lt_wf_ind.
    destruct (List.existsb (fun k => meets d (after k b)) (seq 0 n)) eqn:E.
    - apply existsb_exists in E as (k & Hk & Hmk). apply in_seq in Hk.
      destruct (IH k ltac:(lia) Hmk) as (m & ? & ? & ?). exists m. repeat split; auto; lia.
    - exists n. repeat split; auto. intros k Hk.
      destruct (meets d (after k b)) eqn:Ek; [|reflexivity].
      assert (List.existsb (fun k => meets d (after k b)) (seq 0 n) = true); [|congruence].
      apply existsb_exists. exists k. split; [apply in_seq; lia | exact Ek]. }
  exists m. split; [exact Hm|]. intros fuel Hf. unfold mineBlock.
  now rewrite (mine_loop_first m d b Htx Hmeet Hmin fuel Hf).
Qed.

(** The constructor. *)
Lemma new_hash (d : init) (w w' : World) (b : t) :
  d_hash d = None \/ d_hash d = Some "" ->
  Block.new d w = (inr b, w') ->
  calculateHash b = inr (hash b).
Proof.
  intros Hh. unfold Block.new, bind.
  destruct (BaseModel.new (d_base d) w) as [bm w1].
  destruct (str_or (d_timestamp d) now_iso w1) as [ts w2].
  destruct (mapM new_transaction (default [] (d_transactions d)) w2) as [txs w3].
  unfold ret.
  assert (str_or_lit (d_hash d) "" = "") as -> by (destruct Hh as [-> | ->]; reflexivity).
  cbn [hash String.eqb].
  match goal with |- context [calculateHash ?this] =>
    destruct (calculateHash this) as [e|h] eqn:E end; intros H; [discriminate|].
  injection H as <- _. rewrite calculateHash_set_hash. exact E.
Qed.

Lemma new_keeps_given_hash (d : init) (w : World) (h : string) :
  d_hash d = Some h -> h <> "" ->
  exists b, fst (Block.new d w) = inr b /\ hash b = h.
Proof.
  intros Hh Hne. unfold Block.new, bind.
  destruct (BaseModel.new (d_base d) w) as [bm w1].
  destruct (str_or (d_timestamp d) now_iso w1) as [ts w2].
  destruct (mapM new_transaction (default [] (d_transactions d)) w2) as [txs w3].
  unfold ret. rewrite Hh. cbn [str_or_lit hash fst].
  destruct (String.eqb_spec h ""); [contradiction|]. cbn [hash].
  destruct (String.eqb_spec h ""); [contradiction|].
  eexists. split; reflexivity.
Qed.

End BlockFacts.

(* ===================================================================== *)
(** ** Tamper detection by chain validation *)
(* ===================================================================== *)

Section LedgerFacts.
Import Block Ledger.

Lemma block_ok_true prev b :
  block_ok prev b = inr true ->
  calculateHash b = inr (hash b) /\
  match prev with Some p => previousHash b = hash p | None => True end.
Proof.
  unfold block_ok. destruct (calculateHash b) as [e|h]; [discriminate|].
  intros H. injection H as H. apply andb_true_iff in H as [Hh Hp].
  apply String.eqb_eq in Hh. subst h. split; [reflexivity|].
  destruct prev; [now apply String.eqb_eq in Hp | exact I].
Qed.

Lemma block_ok_tampered p b b' :
  block_ok (Some p) b = inr true -> tampered b b' -> block_ok (Some p) b' = inr false.
Proof.
  intros Hok Ht. apply block_ok_true in Hok as [Hh Hp].
  destruct Ht as [h Hne | q Hne | b' h' Hh' Hp' Hc Hne]; unfold block_ok.
  - rewrite calculateHash_set_hash, Hh. f_equal.
    apply andb_false_iff. left. apply String.eqb_neq. exact Hne.
  - apply calculateHash_inr in Hh as [Htx _].
    rewrite (calculateHash_empty (set_previousHash q b) Htx). f_equal.
    apply andb_false_iff. right. apply String.eqb_neq.
    change (q <> hash p). congruence.
  - rewrite Hc. f_equal. apply andb_false_iff. left. apply String.eqb_neq. congruence.
Qed.

Lemma calculateHash_untracked b b' :
  untracked_change b b' -> calculateHash b' = calculateHash b.
Proof.
  intros (_ & Hp & Hi & Ht & Hn & Htx).
  unfold calculateHash, hashed_fields. now rewrite Hp, Hi, Ht, Hn, Htx.
Qed.

Lemma block_ok_untracked prev b b' :
  untracked_change b b' -> block_ok prev b' = block_ok prev b.
Proof.
  intros Hu. unfold block_ok. rewrite (calculateHash_untracked b b' Hu).
  destruct Hu as (Hh & Hp & _). now rewrite Hh, Hp.
Qed.

Lemma first_invalid_tampered chain : forall prev k i b b',
  first_invalid prev k chain = inr None ->
  chain !! i = Some b ->
  (is_Some prev \/ 0 < i)%nat ->
  tampered b b' ->
  first_invalid prev k (<[i := b']> chain) = inr (Some (k + i)%nat).
Proof.
  induction chain as [|x rest IH]; intros prev k i b b' Hval Hi Hprev Ht;
    [discriminate|].
  simpl in Hval. destruct (block_ok prev x) as [e|[|]] eqn:Hx; try discriminate.
  destruct i as [|i]; simpl in *.
  - injection Hi as ->. destruct Hprev as [[p ->] | ?]; [|lia].
    rewrite (block_ok_tampered p b b' Hx Ht). do 2 f_equal. lia.
  - rewrite Hx. rewrite (IH (Some x) (S k) i b b' Hval Hi); [do 2 f_equal; lia | | exact Ht].
    left. now eexists.
Qed.

Lemma first_invalid_untracked chain : forall prev k i b b',
  chain !! i = Some b ->
  untracked_change b b' ->
  first_invalid prev k (<[i := b']> chain) = first_invalid prev k chain.
Proof.
  induction chain as [|x rest IH]; intros prev k i b b' Hi Hu; [reflexivity|].
  destruct i as [|i]; simpl in *.
  - injection Hi as ->.
    rewrite (block_ok_untracked prev b b' Hu).
    destruct (block_ok prev b) as [e|[|]]; try reflexivity.
    destruct rest as [|y rest]; [reflexivity|]. simpl.
    unfold block_ok. destruct Hu as (Hh & _). now rewrite Hh.
  - destruct (block_ok prev x) as [e|[|]]; try reflexivity. now apply IH with (b := b).
Qed.

(** Since a block with a transaction cannot be hashed, the blocks of a chain
    that validates carry none, and validation of a chain in which a block
    was given one ends with the exception. *)
Lemma first_invalid_valid_no_transactions chain : forall prev k b,
  first_invalid prev k chain = inr None -> In b chain -> transactions b = [].
Proof.
  induction chain as [|x rest IH]; intros prev k b Hval Hin; [destruct Hin|].
  simpl in Hval. destruct (block_ok prev x) as [e|[|]] eqn:Hx; try discriminate.
  destruct Hin as [<- | Hin].
  - apply block_ok_true in Hx as [Hh _]. now apply calculateHash_inr in Hh.
  - exact (IH _ _ _ Hval Hin).
Qed.

Lemma first_invalid_transactions_throw chain : forall prev k i b',
  first_invalid prev k chain = inr None ->
  (i < length chain)%nat ->
  transactions b' <> [] ->
  first_invalid prev k (<[i := b']> chain) = inl RangeError.
Proof.
  induction chain as [|x rest IH]; intros prev k i b' Hval Hi Htx;
    [simpl in Hi; lia|].
  simpl in Hval. destruct (block_ok prev x) as [e|[|]] eqn:Hx; try discriminate.
  destruct i as [|i]; simpl in *.
  - unfold block_ok. now rewrite (calculateHash_nonempty b' Htx).
  - rewrite Hx. apply IH; [exact Hval | lia | exact Htx].
Qed.

End LedgerFacts.

(* ===================================================================== *)
(** ** The ledger claims *)
(* ===================================================================== *)

Section LedgerClaims.
Import Block Ledger.

(** The sample blocks are what the constructor returned. *)
Example sample_blocks :
  fst genesis_run = inr genesis /\ fst block1_run = inr block1 /\
  transactions genesis = [] /\ transactions block1 = [] /\
  nonce block1 = 0%Z /\ previousHash block1 = hash genesis /\
  isChainValid chain2 = inr (true, None).
Proof. repeat apply conj; vm_compute; reflexivity. Qed.

(** A mining run that returns: difficulty 1 on [block1] succeeds at nonce 8. *)
Example mineBlock_sample :
  mineBlock 40 1 block1 = Mined mined1 /\
  nonce mined1 = 8%Z /\ difficulty mined1 = 1%nat /\
  substring 0 1 (hash mined1) = "0".
Proof. repeat apply conj; vm_compute; reflexivity. Qed.

(** With a transaction in it, a block cannot be hashed: the constructor
    throws when it has to compute the hash, and so does the first mining
    iteration. *)
Example block_with_transaction_throws :
  fst (Block.new (block_init 1 "0" None [inr (tx_init payload_ab)]) world0) = inl RangeError /\
  length (transactions block1_added) = 1%nat /\
  calculateHash block1_added = inl RangeError /\
  mineBlock 40 1 block1_added = Threw RangeError (set_nonce 1 block1_added).
Proof. repeat apply conj; vm_compute; reflexivity. Qed.

(** C10.  Mining changes only the nonce, the hash and the difficulty of a
    block.  However the run of [mineBlock] stands after any number of
    iterations (returned, ended by an exception, or still searching), the
    block has the index, timestamp, previousHash, transactions and metadata
    (and the BaseModel fields) it had before. *)
Theorem mineBlock_frame (fuel difficulty : nat) (b : Block.t) :
  index (state_of (mineBlock fuel difficulty b)) = index b /\
  timestamp (state_of (mineBlock fuel difficulty b)) = timestamp b /\
  previousHash (state_of (mineBlock fuel difficulty b)) = previousHash b /\
  transactions (state_of (mineBlock fuel difficulty b)) = transactions b /\
  metadata (state_of (mineBlock fuel difficulty b)) = metadata b /\
  base (state_of (mineBlock fuel difficulty b)) = base b.
Proof.
  pose proof (mine_loop_frame fuel difficulty b) as (Hb & Hi & Ht & Hp & Htx & Hm).
  unfold mineBlock.
  destruct (mine_loop fuel difficulty b) as [b0|e b0|b0]; simpl in *;
    repeat split; assumption.
Qed.

(** C7, as amended.  A block that the constructor builds without a hash of
    its own has [hash == Digest(index, timestamp, previousHash,
    transactions, nonce)]; a hash that is supplied is stored as it is.
    Mining preserves the equation. *)
Theorem hash_invariant_new_and_mined :
  (forall (d : Block.init) (w w' : World) (b : Block.t),
      d_hash d = None \/ d_hash d = Some "" ->
      Block.new d w = (inr b, w') ->
      calculateHash b = inr (hash b)) /\
  (forall (d : Block.init) (w : World) (h : string),
      d_hash d = Some h -> h <> "" ->
      exists b, fst (Block.new d w) = inr b /\ hash b = h) /\
  (forall (fuel difficulty : nat) (b b' : Block.t),
      calculateHash b = inr (hash b) ->
      mineBlock fuel difficulty b = Mined b' ->
      calculateHash b' = inr (hash b')).
Proof.
  split; [|split].
  - intros d w w' b Hh Hnew. exact (new_hash d w w' b Hh Hnew).
  - intros d w h. apply new_keeps_given_hash.
  - intros fuel difficulty b b' Hb. unfold mineBlock.
    destruct (mine_loop fuel difficulty b) as [b0| |] eqn:E; try discriminate.
    intros H. injection H as <-.
    rewrite calculateHash_set_difficulty.
    exact (mine_loop_invariant _ _ _ _ Hb E).
Qed.

Lemma hash_invariant_new_and_mined_witness :
  genesis_run = (inr genesis, snd genesis_run) /\
  calculateHash genesis = inr (hash genesis) /\
  (exists b, fst (Block.new (block_init 1 "0" (Some "abc") []) world0) = inr b /\
             hash b = "abc") /\
  calculateHash block1 = inr (hash block1) /\
  mineBlock 40 1 block1 = Mined mined1 /\
  calculateHash mined1 = inr (hash mined1).
Proof.
  destruct hash_invariant_new_and_mined as (Hnew & Hkeep & Hmine).
  assert (genesis_run = (inr genesis, snd genesis_run)) as H0 by (vm_compute; reflexivity).
  assert (block1_run = (inr block1, snd block1_run)) as H1 by (vm_compute; reflexivity).
  assert (calculateHash block1 = inr (hash block1)) as H2.
  { exact (Hnew (block_init 1 (hash genesis) None []) (snd genesis_run) (snd block1_run)
                block1 (or_introl eq_refl) H1). }
  assert (mineBlock 40 1 block1 = Mined mined1) as H3 by (vm_compute; reflexivity).
  split; [exact H0|].
  split; [exact (Hnew (block_init 0 "0" None []) world0 (snd genesis_run) genesis
                      (or_introl eq_refl) H0)|].
  split; [apply (Hkeep _ world0 "abc"); [reflexivity | discriminate]|].
  split; [exact H2|]. split; [exact H3|].
  exact (Hmine 40%nat 1%nat block1 mined1 H2 H3).
Defined.

(** C7, the claim as stated fails.  A block constructed from data that
    carries a hash keeps that hash, whatever its fields.  And
    [addTransaction] appends to the transactions of an existing block and
    leaves the stored hash as it was, which no longer is the digest of the
    block. *)
Lemma hash_invariant_not_universal :
  (hash stored_block = "abc" /\ calculateHash stored_block <> inr (hash stored_block)) /\
  calculateHash block1 = inr (hash block1) /\
  fst (addTransaction (inr (tx_init payload_ab)) block1 (snd block1_run)) = inr block1_added /\
  length (transactions block1) = 0%nat /\
  length (transactions block1_added) = 1%nat /\
  hash block1_added = hash block1 /\
  calculateHash block1_added <> inr (hash block1_added).
Proof.
  split; [split; [vm_compute; reflexivity | vm_compute; discriminate]|].
  repeat apply conj; try (vm_compute; reflexivity).
  vm_compute. discriminate.
Qed.

(** C2, at a failing input.  With difficulty 65 the loop of [mineBlock]
    never ends: a hash has 64 characters, so its first 65 characters never
    are 65 zeros.  After any number of iterations the search is still
    running, and the nonce passes the configured [maxNonce] without the
    search stopping. *)
Theorem mineBlock_runs_past_maxNonce :
  (forall fuel, mineBlock fuel 65 block1 = Running (after fuel block1)) /\
  (forall n, meets 65 (after n block1) = false) /\
  (maxNonce < nonce (after (S (Z.to_nat maxNonce)) block1))%Z.
Proof.
  assert (String.length (hash block1) <= 64)%nat as Hlen.
  { replace (hash block1) with (SHA256 (Json.stringify (hashed_fields block1 [])))
      by (vm_compute; reflexivity).
    now rewrite SHA256_length. }
  assert (transactions block1 = []) as Htx by (vm_compute; reflexivity).
  split; [|split].
  - intros fuel. apply mineBlock_long_target; [exact Htx | exact Hlen | lia].
  - intros n. apply long_target_never_met; [exact Hlen | lia].
  - rewrite after_nonce.
    replace (nonce block1) with 0%Z by (vm_compute; reflexivity).
    rewrite Nat2Z.inj_succ, Z2Nat.id; unfold maxNonce; lia.
Qed.

(** C5, at a failing input.  [calculateHash] serialises with
    [JSON.stringify], which keeps the insertion order of the keys.  Two
    payloads with the same keys and values, inserted in different orders,
    have different texts and different digests, and so have the contracts
    and the transactions that carry them. *)
Theorem digest_depends_on_key_order :
  Permutation [("a", JNum 1); ("b", JNum 2)] [("b", JNum 2); ("a", JNum 1)] /\
  Json.stringify payload_ab <> Json.stringify payload_ba /\
  SHA256 (Json.stringify payload_ab) <> SHA256 (Json.stringify payload_ba) /\
  SmartContract.calculateHash contract_ab <> SmartContract.calculateHash contract_ba /\
  Transaction.calculateHash tx_ab <> Transaction.calculateHash tx_ba.
Proof.
  split; [apply perm_swap|].
  split; [vm_compute; discriminate|].
  split; [vm_compute; discriminate|].
  split; vm_compute; discriminate.
Qed.

(** C1, as amended.  In a valid chain, at a position after the first,
    changing the stored hash, or the previousHash, or fields covered by the
    digest so that the recomputed digest differs, makes validation return
    false and report that position.  A change confined to fields outside the
    digest (difficulty, metadata, id, createdAt, updatedAt, version) leaves
    the chain valid. *)
Theorem validation_reports_tampered_block (chain : list Block.t) (i : nat) (b : Block.t) :
  isChainValid chain = inr (true, None) ->
  chain !! i = Some b ->
  (0 < i)%nat ->
  (forall b', tampered b b' ->
              isChainValid (<[i := b']> chain) = inr (false, Some i)) /\
  (forall b', untracked_change b b' ->
              isChainValid (<[i := b']> chain) = inr (true, None)).
Proof.
  unfold isChainValid. intros Hval Hi Hpos.
  destruct (first_invalid None 0 chain) as [e|[k|]] eqn:E; try discriminate.
  split.
  - intros b' Ht.
    now rewrite (first_invalid_tampered chain None 0%nat i b b' E Hi (or_intror Hpos) Ht).
  - intros b' Hu.
    now rewrite (first_invalid_untracked chain None 0%nat i b b' Hi Hu), E.
Qed.

Lemma validation_reports_tampered_block_witness :
  isChainValid chain2 = inr (true, None) /\
  chain2 !! 1%nat = Some block1 /\
  isChainValid (<[1%nat := set_nonce 7 block1]> chain2) = inr (false, Some 1%nat) /\
  isChainValid (<[1%nat := set_hash (hash genesis) block1]> chain2) = inr (false, Some 1%nat) /\
  isChainValid (<[1%nat := set_previousHash "0" block1]> chain2) = inr (false, Some 1%nat) /\
  isChainValid (<[1%nat := set_difficulty 1 block1]> chain2) = inr (true, None).
Proof.
  assert (isChainValid chain2 = inr (true, None)) as Hval by (vm_compute; reflexivity).
  assert (chain2 !! 1%nat = Some block1) as Hi by reflexivity.
  destruct (validation_reports_tampered_block chain2 1 block1 Hval Hi ltac:(lia))
    as [Hbad Hgood].
  split; [exact Hval|]. split; [exact Hi|].
  split; [|split; [|split]].
  - apply Hbad.
    apply (tamper_digest block1 (set_nonce 7 block1)
             (SHA256 (Json.stringify (hashed_fields (set_nonce 7 block1) []))));
      [reflexivity | reflexivity | vm_compute; reflexivity | vm_compute; discriminate].
  - apply Hbad. apply tamper_hash. vm_compute. discriminate.
  - apply Hbad. apply tamper_previousHash. vm_compute. discriminate.
  - apply Hgood. repeat apply conj; reflexivity.
Defined.

(** C1, the claim as stated fails: changing the stored difficulty of the
    block at position 1 of a valid chain leaves the chain valid. *)
Lemma difficulty_change_passes_validation :
  isChainValid chain2 = inr (true, None) /\
  difficulty block1 = 4%nat /\
  difficulty (set_difficulty 1 block1) = 1%nat /\
  isChainValid (<[1%nat := set_difficulty 1 block1]> chain2) = inr (true, None).
Proof. repeat apply conj; vm_compute; reflexivity. Qed.

End LedgerClaims.

(* ===================================================================== *)
(** ** [atob] inverts [btoa] *)
(* ===================================================================== *)

Section Base64Facts.
Import Base64.

Lemma sextet_of_char_of_sextet s : sextet_of_char (char_of_sextet s) = Some s.
Proof. destruct s as [[] [] [] [] [] []]; reflexivity. Qed.

Lemma char_of_sextet_not_space s : is_space (char_of_sextet s) = false.
Proof. destruct s as [[] [] [] [] [] []]; reflexivity. Qed.

Lemma char_of_sextet_not_pad s : char_of_sextet s <> "="%char.
Proof. destruct s as [[] [] [] [] [] []]; discriminate. Qed.

Lemma join3 a b c :
  byte1 (split3 a b c).1.1.1 (split3 a b c).1.1.2 = a /\
  byte2 (split3 a b c).1.1.2 (split3 a b c).1.2 = b /\
  byte3 (split3 a b c).1.2 (split3 a b c).2 = c.
Proof. destruct a, b, c; repeat split. Qed.

(** Induction on a byte sequence, three bytes at a time. *)
Lemma triple_ind (P : list ascii -> Prop) :
  P [] -> (forall a, P [a]) -> (forall a b, P [a; b]) ->
  (forall a b c rest, P rest -> P (a :: b :: c :: rest)) ->
  forall l, P l.
Proof.
  intros H0 H1 H2 H3.
  assert (forall l, P l /\ (forall a, P (a :: l)) /\ (forall a b, P (a :: b :: l))) as H.
  { induction l as [|x l (IH0 & IH1 & IH2)]; [now auto|].
    split; [apply IH1|]. split; [intros a; apply IH2|].
    intros a b. apply H3, IH0. }
  intros l. apply H.
Qed.

Lemma bytes_of_sextets_of_bytes l : bytes_of_sextets (sextets_of_bytes l) = l.
Proof.
  induction l as [|a|a b|a b c rest IH] using triple_ind.
  - reflexivity.
  - destruct a; reflexivity.
  - destruct a, b; reflexivity.
  - destruct (join3 a b c) as (Ha & Hb & Hc).
    simpl sextets_of_bytes. destruct (split3 a b c) as [[[p q] r] s].
    simpl in *. now rewrite Ha, Hb, Hc, IH.
Qed.

Lemma sextets_of_chars_of_sextets ss :
  sextets_of_chars (List.map char_of_sextet ss) = Some ss.
Proof.
  induction ss as [|s ss IH]; simpl; [reflexivity|].
  now rewrite sextet_of_char_of_sextet, IH.
Qed.

(** The length of the unpadded text is 0, 2 or 3 modulo 4, and the padding
    completes it to a multiple of 4. *)
Lemma encode_lengths l :
  (length (sextets_of_bytes l) mod 4 =? 1)%nat = false /\
  ((length (sextets_of_bytes l) + length (padding l)) mod 4 = 0)%nat.
Proof.
  induction l as [|a|a b|a b c rest [IH1 IH2]] using triple_ind.
  - split; reflexivity.
  - destruct a; split; reflexivity.
  - destruct a, b; split; reflexivity.
  - simpl sextets_of_bytes. destruct (split3 a b c) as [[[p q] r] s].
    change (length (p :: q :: r :: s :: sextets_of_bytes rest))
      with (4 + length (sextets_of_bytes rest))%nat.
    change (padding (a :: b :: c :: rest)) with (padding rest).
    replace (4 + length (sextets_of_bytes rest))%nat
      with (length (sextets_of_bytes rest) + 1 * 4)%nat by lia.
    split.
    + now rewrite Nat.Div0.mod_add.
    + replace (length (sextets_of_bytes rest) + 1 * 4 + length (padding rest))%nat
        with (length (sextets_of_bytes rest) + length (padding rest) + 1 * 4)%nat by lia.
      now rewrite Nat.Div0.mod_add.
Qed.

Lemma padding_cases l :
  padding l = [] \/ padding l = ["="%char] \/ padding l = ["="%char; "="%char].
Proof. induction l using triple_ind; simpl; auto. Qed.

Lemma strip_padding_chars ss :
  strip_padding (List.map char_of_sextet ss) = List.map char_of_sextet ss.
Proof.
  unfold strip_padding.
  destruct (rev (List.map char_of_sextet ss)) as [|x r] eqn:E; [reflexivity|].
  assert (In x (List.map char_of_sextet ss)) as Hx.
  { apply in_rev. rewrite E. now left. }
  apply in_map_iff in Hx as (s & <- & _).
  pose proof (char_of_sextet_not_pad s) as Hs.
  destruct (char_of_sextet s) as [[] [] [] [] [] [] [] []]; try reflexivity.
  now contradiction Hs.
Qed.

Lemma strip_padding_encode l :
  strip_padding (encode l) = List.map char_of_sextet (sextets_of_bytes l).
Proof.
  unfold encode.
  destruct (padding_cases l) as [-> | [-> | ->]].
  - rewrite app_nil_r. apply strip_padding_chars.
  - unfold strip_padding. rewrite rev_app_distr. simpl.
    destruct (rev (List.map char_of_sextet (sextets_of_bytes l))) as [|x r] eqn:E.
    + apply (f_equal (@rev ascii)) in E. rewrite rev_involutive in E. now rewrite E.
    + assert (In x (List.map char_of_sextet (sextets_of_bytes l))) as Hx.
      { apply in_rev. rewrite E. now left. }
      apply in_map_iff in Hx as (s & <- & _).
      pose proof (char_of_sextet_not_pad s) as Hs.
      rewrite <- E, rev_involutive.
      destruct (char_of_sextet s) as [[] [] [] [] [] [] [] []]; try reflexivity.
      now contradiction Hs.
  - unfold strip_padding. rewrite rev_app_distr. simpl.
    now rewrite rev_involutive.
Qed.

Lemma filter_no_space_encode l :
  List.filter (fun c => negb (is_space c)) (encode l) = encode l.
Proof.
  apply forallb_filter_id. apply forallb_forall. intros c Hc.
  unfold encode in Hc. apply in_app_or in Hc as [Hc | Hc].
  - apply in_map_iff in Hc as (s & <- & _). now rewrite char_of_sextet_not_space.
  - destruct (padding_cases l) as [E | [E | E]]; rewrite E in Hc; simpl in Hc;
      intuition (subst; reflexivity).
Qed.

Lemma decode_encode l : decode (encode l) = Some l.
Proof.
  unfold decode. rewrite filter_no_space_encode.
  destruct (encode_lengths l) as [H1 H0].
  replace (length (encode l) mod 4 =? 0)%nat with true.
  2:{ unfold encode. rewrite length_app, length_map, H0. reflexivity. }
  rewrite strip_padding_encode, length_map, H1.
  rewrite sextets_of_chars_of_sextets. simpl.
  now rewrite bytes_of_sextets_of_bytes.
Qed.

Lemma atob_btoa binary : atob (btoa binary) = Some binary.
Proof.
  unfold atob, btoa.
  rewrite list_ascii_of_string_of_list_ascii, decode_encode. simpl.
  now rewrite string_of_list_ascii_of_string.
Qed.

Lemma btoa_empty_iff binary : btoa binary = "" <-> binary = "".
Proof.
  split; [|now intros ->].
  destruct binary as [|a [|b [|c rest]]]; [reflexivity| | |]; intros H.
  - destruct a. discriminate.
  - destruct a, b. discriminate.
  - unfold btoa, encode in H. simpl in H.
    destruct (split3 a b c) as [[[p q] r] s]. discriminate.
Qed.
End Base64Facts.

(* ===================================================================== *)
(** ** Properties of the history store *)
(* ===================================================================== *)

Section StoreFacts.
Import HistoryStorage.

Lemma string_of_list_byte_app (a b : list byte) :
  string_of_list_byte (a ++ b) = string_of_list_byte a +:+ string_of_list_byte b.
Proof.
  induction a as [|x a IH]; [reflexivity|].
  change (String (ascii_of_byte x) (string_of_list_byte (a ++ b))
          = String (ascii_of_byte x) (string_of_list_byte a +:+ string_of_list_byte b)).
  now rewrite IH.
Qed.

Lemma append_cons x (a b : string) : String x a +:+ b = String x (a +:+ b).
Proof. reflexivity. Qed.

Lemma append_assoc (a b c : string) : (a +:+ b) +:+ c = a +:+ (b +:+ c).
Proof.
  induction a as [|x a IH]; [reflexivity|].
  rewrite !append_cons. now f_equal.
Qed.

Lemma append_empty_r (a : string) : a +:+ "" = a.
Proof.
  induction a as [|x a IH]; [reflexivity|].
  rewrite append_cons. now f_equal.
Qed.

Lemma chunk_pos : (0 < chunk)%nat.
Proof. unfold chunk. lia. Qed.

(** The chunked loop builds the binary string of the whole buffer. *)
Lemma binary_loop_spec fuel bytes binary :
  (length bytes <= fuel)%nat ->
  binary_loop fuel bytes binary = binary +:+ string_of_list_byte bytes.
Proof.
  revert bytes binary; induction fuel as [|fuel IH]; intros bytes binary Hlen.
  - destruct bytes; [|simpl in Hlen; lia]. simpl.
    now rewrite append_empty_r.
  - destruct bytes as [|x bytes].
    + simpl. now rewrite append_empty_r.
    + cbn [binary_loop]. rewrite IH.
      * rewrite append_assoc, <- string_of_list_byte_app.
        now rewrite (firstn_skipn chunk (x :: bytes)).
      * rewrite length_skipn. pose proof chunk_pos. simpl length in *. lia.
Qed.

Lemma binary_string_spec bytes : binary_string bytes = string_of_list_byte bytes.
Proof. unfold binary_string. now rewrite binary_loop_spec. Qed.

Lemma binary_string_empty_iff bytes : binary_string bytes = "" <-> bytes = [].
Proof.
  rewrite binary_string_spec. destruct bytes; [easy|]. split; discriminate.
Qed.

(** The properties of a fresh record that the store reads back. *)
Lemma make_record_truthy c meta buffer : Json.truthy (make_record c meta buffer) = true.
Proof. reflexivity. Qed.

Lemma make_record_id c meta buffer :
  Json.get "id" (make_record c meta buffer) = Some (JStr (new_id c)).
Proof. reflexivity. Qed.

Lemma make_record_sha256 c meta buffer :
  Json.get "sha256" (make_record c meta buffer) = Some (JStr (sha256Hex buffer)).
Proof. reflexivity. Qed.

Lemma make_record_pdfBase64 c meta buffer :
  Json.get "pdfBase64" (make_record c meta buffer)
  = Some (JStr (Base64.btoa (binary_string (bytes_of buffer)))).
Proof. reflexivity. Qed.

Lemma pushed_head id ids : exists rest, pushed id ids = id :: rest.
Proof.
  unfold pushed. destruct (cap <? length (id :: ids))%nat; [|now eexists].
  unfold cap. rewrite firstn_cons. now eexists.
Qed.

Lemma pushed_length id ids : (length (pushed id ids) <= cap)%nat.
Proof.
  unfold pushed. destruct (Nat.ltb_spec cap (length (id :: ids))).
  - rewrite length_firstn. lia.
  - lia.
Qed.

Lemma listed_Ids st ids : readIndex st = Ids ids -> listed st = ids.
Proof. unfold listed. now intros ->. Qed.

Lemma not_in_of_existsb id (l : list string) :
  existsb (String.eqb id) l = false -> ~ In id l.
Proof.
  intros H Hin. assert (existsb (String.eqb id) l = true) as Hex
    by (apply existsb_exists; exists id; split; [exact Hin | apply String.eqb_refl]).
  congruence.
Qed.

Lemma listed_array st :
  match readIndex st with Ids ids => Some ids | _ => None end = Some (listed st) ->
  readIndex st = Ids (listed st).
Proof. unfold listed. destruct (readIndex st); congruence. Qed.

Lemma listed_writeIndex ids st : listed (writeIndex ids st) = ids.
Proof. reflexivity. Qed.

(** [save] of a buffer when the index is an array. *)
Lemma save_array c meta buffer st ids :
  readIndex st = Ids ids ->
  save c meta (Some buffer) st
  = match scan st (sha256Hex buffer) ids with
    | ScanRaised e => (Raised e, st)
    | Found existing => (Existing (Json.get "id" existing), st)
    | NotFound =>
        (Stored (new_id c),
         MkStorage (Some (IndexIds (pushed (new_id c) ids)))
                   (<[new_id c := Json (make_record c meta buffer)]> (records st)))
    end.
Proof. intros H. unfold save. rewrite H. reflexivity. Qed.

(** The four ways [save] ends when a buffer is given: with an exception
    and the storage as it was; with the id of a record that the scan found;
    with a new record, stored and listed; and, on an index that is a string,
    with a TypeError after the record is stored. *)
Lemma save_cases c meta buffer st :
  (exists e, save c meta (Some buffer) st = (Raised e, st)) \/
  (exists existing,
      save c meta (Some buffer) st = (Existing (Json.get "id" existing), st)) \/
  (readIndex st = Ids (listed st) /\
   scan st (sha256Hex buffer) (listed st) = NotFound /\
   save c meta (Some buffer) st
   = (Stored (new_id c),
      MkStorage (Some (IndexIds (pushed (new_id c) (listed st))))
                (<[new_id c := Json (make_record c meta buffer)]> (records st)))) \/
  (exists s, readIndex st = Chars s /\
   save c meta (Some buffer) st
   = (Raised TypeError,
      MkStorage (index st) (<[new_id c := Json (make_record c meta buffer)]> (records st)))).
Proof.
  unfold save, listed. destruct (readIndex st) as [ids|s|] eqn:E.
  - destruct (scan st (sha256Hex buffer) ids) as [existing| |e] eqn:Es.
    + right; left. now exists existing.
    + right; right; left. repeat split.
    + left. now exists e.
  - destruct (scan st (sha256Hex buffer) (code_points s)) as [existing| |e].
    + right; left. now exists existing.
    + right; right; right. now exists s.
    + left. now exists e.
  - left. now eexists.
Qed.

(** A store whose index is no array lists nothing, before and after a
    call. *)
Lemma listed_same_index st st' : index st' = index st -> listed st' = listed st.
Proof. unfold listed, readIndex. now intros ->. Qed.
End StoreFacts.

(* ===================================================================== *)
(** ** The store claims *)
(* ===================================================================== *)

Section StoreClaims.
Import HistoryStorage.




Lemma load_each_garbage st ids id :
  In id ids -> records st !! id = Some Garbage -> load_each st ids = inl SyntaxError.
Proof.
  induction ids as [|x ids IH]; intros Hin Hg; [destruct Hin|].
  simpl. unfold parse_record. destruct Hin as [-> | Hin].
  - now rewrite Hg.
  - rewrite (IH Hin Hg). destruct (records st !! x) as [[|j]|]; reflexivity.
Qed.

(** C9, at a failing input.  The index lists two records; the text of the
    first is not JSON.  [JSON.parse] throws inside the loop of [loadAll], so
    the read fails as a whole, although the second record is intact. *)
Theorem loadAll_fails_on_damaged_record :
  readIndex damaged_store = Ids ["CR_2_bbbb"; "CR_1_aaaa"] /\
  parse_record damaged_store "CR_1_aaaa" = inr (old_record "CR_1_aaaa") /\
  loadAll damaged_store = inl SyntaxError.
Proof. repeat apply conj; vm_compute; reflexivity. Qed.

(** Every way [save] ends keeps the index within the capacity. *)
Lemma save_index_bound c meta blob st :
  (length (listed st) <= cap)%nat ->
  (length (listed (snd (save c meta blob st))) <= cap)%nat.
Proof.
  intros Hlen. destruct blob as [buffer|]; [|exact Hlen].
  destruct (save_cases c meta buffer st)
    as [(e & ->) | [(existing & ->) | [(_ & _ & ->) | (s & Hs & ->)]]]; try exact Hlen.
  apply pushed_length.
Qed.

(** [save] removes no record: a stored record is still stored afterwards
    (the one under the new id is replaced). *)
Lemma save_keeps_records c meta blob st id :
  is_Some (records st !! id) -> is_Some (records (snd (save c meta blob st)) !! id).
Proof.
  intros Hid. destruct blob as [buffer|]; [|exact Hid].
  destruct (save_cases c meta buffer st)
    as [(e & ->) | [(existing & ->) | [(_ & _ & ->) | (s & Hs & ->)]]]; try exact Hid.
  - simpl. destruct (decide (new_id c = id)) as [<- | Hne].
    + rewrite lookup_insert_eq. now eexists.
    + now rewrite lookup_insert_ne.
  - simpl. destruct (decide (new_id c = id)) as [<- | Hne].
    + rewrite lookup_insert_eq. now eexists.
    + now rewrite lookup_insert_ne.
Qed.

(** C3, at a failing input.  The index holds 500 ids and a new blob is
    saved.  The index stays at 500 ids and drops the oldest id, but the
    record stored under that id is still in the storage, where neither
    [loadAll] nor [clearAll] reaches it any more. *)
Theorem save_overflow_leaves_record :
  length (listed full_store) = 500%nat /\
  last (listed full_store) = Some oldest /\
  fst (save clock0 meta0 (Some (ArrayBuffer pdf_bytes)) full_store) = Stored (new_id clock0) /\
  length (listed (snd (save clock0 meta0 (Some (ArrayBuffer pdf_bytes)) full_store)))
    = 500%nat /\
  ~ In oldest (listed (snd (save clock0 meta0 (Some (ArrayBuffer pdf_bytes)) full_store))) /\
  records (snd (save clock0 meta0 (Some (ArrayBuffer pdf_bytes)) full_store)) !! oldest
    = Some (Json (old_record oldest)) /\
  records (snd (clearAll (snd (save clock0 meta0 (Some (ArrayBuffer pdf_bytes)) full_store))))
    !! oldest
    = Some (Json (old_record oldest)).
Proof.
  assert (readIndex full_store = Ids old_ids) as Hidx by reflexivity.
  assert (listed full_store = old_ids) as Hl by reflexivity.
  assert (scan full_store (sha256Hex (ArrayBuffer pdf_bytes)) old_ids = NotFound) as Hscan
    by (vm_compute; reflexivity).
  rewrite (save_array clock0 meta0 (ArrayBuffer pdf_bytes) full_store old_ids Hidx), Hscan, Hl.
  cbn [fst snd].
  assert (forall ids, ~ In oldest ids ->
            forall recs : gmap string text,
              fold_left (fun recs id => delete id recs) ids recs !! oldest = recs !! oldest)
    as Hfold.
  { induction ids as [|x ids IH]; intros Hn recs; [reflexivity|]. simpl.
    assert (~ In oldest ids) as Hn' by (intros Hx; apply Hn; now right).
    rewrite (IH Hn').
    apply lookup_delete_ne. intros ->. apply Hn. now left. }
  assert (~ In oldest (pushed (new_id clock0) old_ids)) as Hout.
  { assert (forallb (fun x => negb (String.eqb x oldest))
                      (pushed (new_id clock0) old_ids) = true) as Hall
      by (vm_compute; reflexivity).
    intros Hin. apply (proj1 (forallb_forall _ _) Hall) in Hin.
    rewrite String.eqb_refl in Hin. discriminate. }
  assert (records full_store !! oldest = Some (Json (old_record oldest))) as Hold
    by (vm_compute; reflexivity).
  split; [reflexivity|]. split; [vm_compute; reflexivity|]. split; [reflexivity|].
  split; [vm_compute; reflexivity|]. split; [exact Hout|].
  assert ((<[new_id clock0 := Json (make_record clock0 meta0 (ArrayBuffer pdf_bytes))]>
             (records full_store)) !! oldest = Some (Json (old_record oldest))) as Hkept.
  { rewrite lookup_insert_ne; [exact Hold | vm_compute; discriminate]. }
  split; [exact Hkept|].
  unfold clearAll. cbn [records readIndex index snd].
  now rewrite Hfold.
Qed.

Lemma scan_head st hash id rest record :
  records st !! id = Some (Json record) ->
  Json.truthy record = true ->
  Json.get "sha256" record = Some (JStr hash) ->
  scan st hash (id :: rest) = Found record.
Proof.
  intros Hrec Ht Hsha. simpl. unfold parse_record. rewrite Hrec, Ht, Hsha. simpl.
  now rewrite String.eqb_refl.
Qed.

(** The dedup scan at work: right after [save] has stored a buffer, a
    [save] of a buffer with the same digest, under any metadata, returns the
    id of the stored record and leaves the storage as it is. *)
Lemma save_again_returns_id c1 c2 m1 m2 buffer1 buffer2 st st' id :
  save c1 m1 (Some buffer1) st = (Stored id, st') ->
  sha256Hex buffer2 = sha256Hex buffer1 ->
  save c2 m2 (Some buffer2) st' = (Existing (Some (JStr id)), st').
Proof.
  intros Hsave Hd.
  destruct (save_cases c1 m1 buffer1 st)
    as [(e & H1) | [(existing & H1) | [(_ & _ & H1) | (s & _ & H1)]]];
    rewrite H1 in Hsave; try discriminate.
  injection Hsave as <- <-.
  destruct (pushed_head (new_id c1) (listed st)) as [rest Hrest].
  rewrite Hrest.
  set (st' := MkStorage _ _).
  assert (readIndex st' = Ids (new_id c1 :: rest)) as Hidx by reflexivity.
  rewrite (save_array c2 m2 buffer2 st' _ Hidx).
  rewrite (scan_head _ _ _ _ (make_record c1 m1 buffer1)).
  - reflexivity.
  - apply lookup_insert_eq.
  - reflexivity.
  - now rewrite Hd.
Qed.

(** C4, at two failing inputs.  (1) A buffer is saved on the empty store,
    500 other buffers are saved after it, and the first buffer is saved
    again.  Right after the first save the scan finds the record and [save]
    returns its id.  After the 500 saves, the cut of the index at 500 ids
    has dropped the id of the first record, while the record itself is
    still stored; the scan, which walks the index, does not meet it, and the
    same bytes are stored a second time under a new id.  (2) A buffer is saved as an ArrayBuffer and then as a
    Uint8Array that is a part of a longer buffer.  [sha256Hex] digests the
    whole underlying buffer and not the bytes of the view, which are what
    the record holds: the scan compares different digests, the same bytes
    are stored again, and the history lists two records that rebuild to
    these bytes. *)
Theorem save_stores_same_bytes_again :
  (fst (save clock0 meta0 (Some (ArrayBuffer pdf_bytes)) empty) = Stored (new_id clock0) /\
   save clock1 meta1 (Some (ArrayBuffer pdf_bytes)) first_saved
   = (Existing (Some (JStr (new_id clock0))), first_saved) /\
   readIndex after_fillers = Ids (listed after_fillers) /\
   length (listed after_fillers) = 500%nat /\
   ~ In (new_id clock0) (listed after_fillers) /\
   records after_fillers !! new_id clock0
   = Some (Json (make_record clock0 meta0 (ArrayBuffer pdf_bytes))) /\
   save clock3 meta1 (Some (ArrayBuffer pdf_bytes)) after_fillers
   = (Stored (new_id clock3),
      MkStorage (Some (IndexIds (pushed (new_id clock3) (listed after_fillers))))
                (<[new_id clock3 := Json (make_record clock3 meta1 (ArrayBuffer pdf_bytes))]>
                   (records after_fillers)))) /\
  (bytes_of pdf_view = pdf_bytes /\
   sha256Hex pdf_view <> sha256Hex (ArrayBuffer pdf_bytes) /\
   fst (save clock1 meta1 (Some pdf_view) first_saved) = Stored (new_id clock1) /\
   loadAll (snd (save clock1 meta1 (Some pdf_view) first_saved))
   = inr [make_record clock1 meta1 pdf_view;
          make_record clock0 meta0 (ArrayBuffer pdf_bytes)] /\
   rebuildPdf (make_record clock1 meta1 pdf_view) = inr (Some pdf_bytes) /\
   rebuildPdf (make_record clock0 meta0 (ArrayBuffer pdf_bytes)) = inr (Some pdf_bytes)).
Proof.
  split.
  - assert ((let st := after_fillers in
             (match readIndex st with Ids ids => Some ids | _ => None end,
              length (listed st),
              existsb (String.eqb (new_id clock0)) (listed st),
              records st !! new_id clock0,
              scan st (sha256Hex (ArrayBuffer pdf_bytes)) (listed st)))
            = (Some (listed after_fillers), 500%nat, false,
               Some (Json (make_record clock0 meta0 (ArrayBuffer pdf_bytes))),
               NotFound)) as H
      by (vm_compute; reflexivity).
    cbv zeta in H.
    apply pair_equal_spec in H as [H Hscan]. apply pair_equal_spec in H as [H Hrec].
    apply pair_equal_spec in H as [H Hout]. apply pair_equal_spec in H as [Hidx Hlen].
    pose proof (listed_array after_fillers Hidx) as Harr.
    split; [reflexivity|]. split; [vm_compute; reflexivity|].
    split; [exact Harr|]. split; [exact Hlen|].
    split; [|split; [exact Hrec|]].
    + exact (not_in_of_existsb _ _ Hout).
    + rewrite (save_array clock3 meta1 (ArrayBuffer pdf_bytes) after_fillers _ Harr).
      rewrite Hscan. reflexivity.
  - split; [reflexivity|]. split; [vm_compute; discriminate|].
    split; [vm_compute; reflexivity|]. split; [vm_compute; reflexivity|].
    split; vm_compute; reflexivity.
Qed.



(** C6, as amended.  [save] ends with its NoBlobProvided guard exactly when
    the buffer argument is absent, and then leaves the storage as it was.
    A buffer that is given is never refused by the guard, an empty one
    included. *)
Theorem save_guard_iff_absent
    (c : clock) (meta : list (string * JSON)) (blob : option binary) (st : Storage) :
  (fst (save c meta blob st) = NoBlobProvided <-> blob = None) /\
  (blob = None -> save c meta blob st = (NoBlobProvided, st)).
Proof.
  split; [split|].
  - destruct blob as [buffer|]; [|reflexivity].
    destruct (save_cases c meta buffer st)
      as [(e & ->) | [(existing & ->) | [(_ & _ & ->) | (s & Hs & ->)]]]; discriminate.
  - now intros ->.
  - now intros ->.
Qed.

Lemma save_guard_iff_absent_witness :
  fst (save clock0 meta0 None full_store) = NoBlobProvided /\
  save clock0 meta0 None full_store = (NoBlobProvided, full_store) /\
  fst (save clock0 meta0 (Some (ArrayBuffer [])) empty) <> NoBlobProvided.
Proof.
  destruct (save_guard_iff_absent clock0 meta0 None full_store) as [[_ H1] H2].
  destruct (save_guard_iff_absent clock0 meta0 (Some (ArrayBuffer [])) empty) as [[H3 _] _].
  split; [exact (H1 eq_refl)|]. split; [exact (H2 eq_refl)|].
  intros H. specialize (H3 H). discriminate.
Defined.

(** C6, the claim as stated fails: an empty buffer passes the guard; a
    record of size 0 is persisted and indexed. *)
Lemma save_accepts_empty_buffer :
  fst (save clock0 meta0 (Some (ArrayBuffer [])) empty) = Stored "CR_1700000000000_k3x9" /\
  readIndex (snd (save clock0 meta0 (Some (ArrayBuffer [])) empty))
    = Ids ["CR_1700000000000_k3x9"] /\
  (exists record,
      records (snd (save clock0 meta0 (Some (ArrayBuffer [])) empty))
        !! "CR_1700000000000_k3x9"
        = Some (Json record) /\
      Json.get "size" record = Some (JNum 0)).
Proof.
  split; [vm_compute; reflexivity|]. split; [vm_compute; reflexivity|].
  exists (make_record clock0 meta0 (ArrayBuffer [])).
  split; [|reflexivity].
  rewrite (save_array clock0 meta0 (ArrayBuffer []) empty [] eq_refl).
  cbn [scan snd records]. apply lookup_insert_eq.
Qed.

Lemma rebuildPdf_payload props buffer :
  buffer <> [] ->
  Json.lookup "pdfBase64" props = Some (JStr (Base64.btoa (binary_string buffer))) ->
  rebuildPdf (JObj props) = inr (Some buffer).
Proof.
  intros Hne Hp. unfold rebuildPdf. cbn [Json.get]. rewrite Hp.
  cbn [Json.truthy Json.to_string].
  destruct (String.eqb_spec (Base64.btoa (binary_string buffer)) "") as [E | _].
  - apply btoa_empty_iff, binary_string_empty_iff in E. contradiction.
  - cbn [negb]. rewrite atob_btoa, binary_string_spec.
    now rewrite list_byte_of_string_of_list_byte.
Qed.

(** C8, as amended.  For every non-empty buffer that [save] stores, the
    record read back under the returned id rebuilds to the same bytes; a
    record without payload (no [pdfBase64], or [null], or the empty string)
    rebuilds to [null]. *)
Theorem rebuildPdf_after_save :
  (forall (c : clock) (meta : list (string * JSON)) (buffer : binary)
          (st st' : Storage) (id : string),
      bytes_of buffer <> [] ->
      save c meta (Some buffer) st = (Stored id, st') ->
      exists record, parse_record st' id = inr record /\
                     rebuildPdf record = inr (Some (bytes_of buffer))) /\
  (forall props : list (string * JSON),
      Json.lookup "pdfBase64" props = None \/
      Json.lookup "pdfBase64" props = Some JNull \/
      Json.lookup "pdfBase64" props = Some (JStr "") ->
      rebuildPdf (JObj props) = inr None).
Proof.
  split.
  - intros c meta buffer st st' id Hne Hsave.
    destruct (save_cases c meta buffer st)
      as [(e & H1) | [(existing & H1) | [(_ & _ & H1) | (s & Hs & H1)]]];
      rewrite H1 in Hsave; try discriminate.
    injection Hsave as <- <-.
    exists (make_record c meta buffer). split.
    + unfold parse_record. cbn [records]. now rewrite lookup_insert_eq.
    + apply rebuildPdf_payload; [exact Hne | reflexivity].
  - intros props [H | [H | H]]; unfold rebuildPdf; cbn [Json.get]; now rewrite H.
Qed.

Lemma rebuildPdf_after_save_witness :
  bytes_of (ArrayBuffer pdf_bytes) <> [] /\
  save clock0 meta0 (Some (ArrayBuffer pdf_bytes)) empty
    = (Stored (new_id clock0), snd (save clock0 meta0 (Some (ArrayBuffer pdf_bytes)) empty)) /\
  (exists record,
      parse_record (snd (save clock0 meta0 (Some (ArrayBuffer pdf_bytes)) empty))
                   (new_id clock0)
        = inr record /\
      rebuildPdf record = inr (Some pdf_bytes)) /\
  rebuildPdf (old_record oldest) = inr None.
Proof.
  destruct rebuildPdf_after_save as [Hsaved Hnone].
  assert (bytes_of (ArrayBuffer pdf_bytes) <> []) as H0 by (vm_compute; discriminate).
  assert (save clock0 meta0 (Some (ArrayBuffer pdf_bytes)) empty
          = (Stored (new_id clock0),
             snd (save clock0 meta0 (Some (ArrayBuffer pdf_bytes)) empty))) as H1
    by (vm_compute; reflexivity).
  split; [exact H0|]. split; [exact H1|]. split.
  - exact (Hsaved clock0 meta0 (ArrayBuffer pdf_bytes) empty _ _ H0 H1).
  - apply Hnone. right; left. reflexivity.
Defined.

(** C8, the claim as stated fails: the empty buffer is saved with the
    empty string as its payload, and the record read back rebuilds to
    [null], not to an empty buffer. *)
Lemma rebuildPdf_loses_empty_buffer :
  fst (save clock0 meta0 (Some (ArrayBuffer [])) empty) = Stored (new_id clock0) /\
  parse_record (snd (save clock0 meta0 (Some (ArrayBuffer [])) empty)) (new_id clock0)
    = inr (make_record clock0 meta0 (ArrayBuffer [])) /\
  Json.get "pdfBase64" (make_record clock0 meta0 (ArrayBuffer [])) = Some (JStr "") /\
  rebuildPdf (make_record clock0 meta0 (ArrayBuffer [])) = inr None /\
  rebuildPdf (make_record clock0 meta0 (ArrayBuffer [])) <> inr (Some []).
Proof.
  split; [vm_compute; reflexivity|].
  split.
  { rewrite (save_array clock0 meta0 (ArrayBuffer []) empty [] eq_refl).
    unfold parse_record. cbn [scan snd records]. now rewrite lookup_insert_eq. }
  split; [vm_compute; reflexivity|].
  split; [vm_compute; reflexivity|].
  vm_compute. discriminate.
Qed.
End StoreClaims.

(* ===================================================================== *)
(** ** Further properties of blocks and transactions *)
(* ===================================================================== *)

Section MiningFacts.
Import Block.

Example hmac_rfc4231_case2 :
  HmacSHA256 "what do ya want for nothing?" "Jefe"
  = "5bdcc146bf60754e6a042426089575c75a003f089d2739839dec58b964ec3843".
Proof. vm_compute. reflexivity. Qed.

(** A key longer than a block (65 bytes) is hashed first. *)
Example hmac_long_key :
  HmacSHA256 "abc" "zzzzzzzzzzzzzzzzzzzzzzzzzzzzzzzzzzzzzzzzzzzzzzzzzzzzzzzzzzzzzzzzz"
  = "bd4464e98ecebb1fb6b47895dcebbfdab6d158a01cda8715fec3766d9d7753ba".
Proof. vm_compute. reflexivity. Qed.

Example hmac_block_key :
  HmacSHA256 "abc" "kkkkkkkkkkkkkkkkkkkkkkkkkkkkkkkkkkkkkkkkkkkkkkkkkkkkkkkkkkkkkkkk"
  = "ae0c0e4a2340cf50185eb46aaa8723f4769153661612e212fb0d1fa3170c6202".
Proof. vm_compute. reflexivity. Qed.

Lemma HmacSHA256_length message key : String.length (HmacSHA256 message key) = 64%nat.
Proof. reflexivity. Qed.

(** How far a returned search went: the nonce did not go down; if it went
    up, the stored hash is the digest of the returned block; if it stayed,
    the loop body never ran. *)
Lemma mine_loop_progress fuel d : forall b b',
  mine_loop fuel d b = Mined b' ->
  (nonce b <= nonce b')%Z /\
  (nonce b < nonce b' -> calculateHash b' = inr (hash b'))%Z /\
  (nonce b' = nonce b -> b' = b).
Proof.
  induction fuel as [|fuel IH]; intros b b'; simpl; destruct (meets d b) eqn:E;
    intros H; try discriminate.
  - injection H as <-. repeat split; lia.
  - injection H as <-. repeat split; lia.
  - destruct (calculateHash (set_nonce (nonce b + 1) b)) as [e|h] eqn:Eh; [discriminate|].
    assert (calculateHash (set_hash h (set_nonce (nonce b + 1) b))
            = inr (hash (set_hash h (set_nonce (nonce b + 1) b)))) as Hb1
      by (rewrite calculateHash_set_hash; exact Eh).
    pose proof (mine_loop_invariant fuel d _ b' Hb1 H) as Hinv.
    destruct (IH _ _ H) as (Hle & _ & _). cbn [nonce set_hash set_nonce] in Hle.
    repeat split; [lia | intros _; exact Hinv | lia].
Qed.

(** X1.  What a search that returns has established: the first [difficulty]
    characters of the stored hash are zeros and the difficulty is recorded;
    the nonce did not decrease; when it increased, the stored hash is the
    digest of the returned block's own fields, and when it did not, the
    block was returned with the hash it came with. *)
Theorem mineBlock_returns_mined_block (fuel d : nat) (b b' : Block.t) :
  mineBlock fuel d b = Mined b' ->
  substring 0 d (hash b') = target d /\
  difficulty b' = d /\
  (nonce b <= nonce b')%Z /\
  ((nonce b < nonce b')%Z -> calculateHash b' = inr (hash b')) /\
  (nonce b' = nonce b -> hash b' = hash b).
Proof.
  unfold mineBlock. destruct (mine_loop fuel d b) as [b0| |] eqn:E; try discriminate.
  intros H. injection H as <-.
  pose proof (mine_loop_meets _ _ _ _ E) as Hm.
  destruct (mine_loop_progress _ _ _ _ E) as (Hle & Hup & Hsame).
  unfold meets in Hm. apply String.eqb_eq in Hm.
  cbn [hash nonce difficulty set_difficulty]. rewrite calculateHash_set_difficulty.
  repeat split; try assumption. intros Hn. now rewrite (Hsame Hn).
Qed.

Lemma mineBlock_returns_mined_block_witness :
  mineBlock 40 1 block1 = Mined mined1 /\
  substring 0 1 (hash mined1) = target 1 /\
  difficulty mined1 = 1%nat /\
  (nonce block1 <= nonce mined1)%Z /\
  ((nonce block1 < nonce mined1)%Z -> calculateHash mined1 = inr (hash mined1)) /\
  (nonce mined1 = nonce block1 -> hash mined1 = hash block1).
Proof.
  assert (mineBlock 40 1 block1 = Mined mined1) as H by (vm_compute; reflexivity).
  split; [exact H|]. exact (mineBlock_returns_mined_block 40 1 block1 mined1 H).
Defined.

(** X2.  On a block without transactions the search stops at the first
    nonce whose digest has the prefix: when the [n]-th iteration is the
    first to meet the target, every run of at least [n] iterations returns
    the block of that iteration, its nonce [n] above the start, and every
    shorter run is still searching. *)
Theorem mineBlock_stops_at_first_nonce (n d : nat) (b : Block.t) :
  transactions b = [] ->
  meets d (after n b) = true ->
  (forall m, (m < n)%nat -> meets d (after m b) = false) ->
  (forall fuel, (n <= fuel)%nat ->
     mineBlock fuel d b = Mined (set_difficulty d (after n b))) /\
  (forall fuel, (fuel < n)%nat -> mineBlock fuel d b = Running (after fuel b)) /\
  nonce (after n b) = (nonce b + Z.of_nat n)%Z.
Proof.
  intros Htx Hn Hlt. split; [|split].
  - intros fuel Hf. unfold mineBlock.
    now rewrite (mine_loop_first n d b Htx Hn Hlt fuel Hf).
  - intros fuel Hf. unfold mineBlock.
    rewrite mine_loop_running; [reflexivity | exact Htx |].
    intros m Hm. apply Hlt. lia.
  - apply after_nonce.
Qed.

Lemma mineBlock_stops_at_first_nonce_witness :
  transactions block1 = [] /\
  meets 1 (after 8 block1) = true /\
  mineBlock 8 1 block1 = Mined (set_difficulty 1 (after 8 block1)) /\
  mineBlock 7 1 block1 = Running (after 7 block1) /\
  nonce (after 8 block1) = (nonce block1 + 8)%Z.
Proof.
  assert (transactions block1 = []) as Htx by (vm_compute; reflexivity).
  assert (meets 1 (after 8 block1) = true) as Hn by (vm_compute; reflexivity).
  assert (forall m, (m < 8)%nat -> meets 1 (after m block1) = false) as Hlt.
  { intros m Hm. do 8 (destruct m as [|m]; [vm_compute; reflexivity|]). lia. }
  destruct (mineBlock_stops_at_first_nonce 8 1 block1 Htx Hn Hlt) as (H1 & H2 & H3).
  split; [exact Htx|]. split; [exact Hn|].
  split; [apply H1; lia|]. split; [apply H2; lia | exact H3].
Defined.

(** X3.  A transaction is never covered by a mined hash.  When a block that
    carries a transaction is mined, the call either returns at once, nonce
    and hash as they were (the stored hash already had the prefix), or ends
    in the RangeError of [toJSON] at its first iteration; and the block it
    returns cannot be hashed. *)
Theorem mining_never_covers_transactions (fuel d : nat) (b : Block.t) :
  transactions b <> [] ->
  (meets d b = true /\ mineBlock fuel d b = Mined (set_difficulty d b) /\
   calculateHash (set_difficulty d b) = inl RangeError) \/
  (meets d b = false /\
   match fuel with
   | O => mineBlock fuel d b = Running b
   | S _ => mineBlock fuel d b = Threw RangeError (set_nonce (nonce b + 1) b)
   end).
Proof.
  intros Htx. destruct (meets d b) eqn:E.
  - left. split; [reflexivity|]. split.
    + unfold mineBlock. destruct fuel; simpl; now rewrite E.
    + rewrite calculateHash_set_difficulty. now apply calculateHash_nonempty.
  - right. split; [reflexivity|]. destruct fuel as [|fuel].
    + unfold mineBlock. simpl. now rewrite E.
    + unfold mineBlock. now rewrite (mine_loop_throws fuel d b Htx E).
Qed.

Lemma mining_never_covers_transactions_witness :
  transactions block1_added <> [] /\
  meets 1 block1_added = false /\
  mineBlock 40 1 block1_added = Threw RangeError (set_nonce (nonce block1_added + 1) block1_added) /\
  meets 0 block1_added = true /\
  mineBlock 40 0 block1_added = Mined (set_difficulty 0 block1_added) /\
  calculateHash (set_difficulty 0 block1_added) = inl RangeError.
Proof.
  assert (transactions block1_added <> []) as Htx by (vm_compute; discriminate).
  destruct (mining_never_covers_transactions 40 1 block1_added Htx) as [[E _] | [E H]];
    [vm_compute in E; discriminate|].
  destruct (mining_never_covers_transactions 40 0 block1_added Htx)
    as [(E0 & H0 & H0') | [E0 _]];
    [|vm_compute in E0; discriminate].
  repeat apply conj; assumption.
Defined.

(** The texts of [validate] for a block without transactions. *)
Lemma validate_empty b :
  transactions b = [] ->
  validate b = inr (String.eqb (hash b) (digest_of b),
                    if String.eqb (hash b) (digest_of b) then [] else ["区块哈希无效"]).
Proof.
  intros Htx. unfold validate. rewrite (calculateHash_empty b Htx).
  unfold errors. rewrite Htx. cbn [flat_map]. rewrite app_nil_r.
  fold (digest_of b). now destruct (String.eqb (hash b) (digest_of b)).
Qed.

(** X4.  The three outcomes of [Block.validate].  A block without
    transactions is valid exactly when its stored hash is the digest of its
    fields, and otherwise is reported with the one message of the hash
    check; a block with a transaction makes [validate] throw, so the
    per-transaction messages are never returned. *)
Theorem validate_outcomes (b : Block.t) :
  (transactions b = [] -> hash b = digest_of b -> validate b = inr (true, [])) /\
  (transactions b = [] -> hash b <> digest_of b ->
     validate b = inr (false, ["区块哈希无效"])) /\
  (transactions b <> [] -> validate b = inl RangeError).
Proof.
  split; [|split].
  - intros Htx Hh. rewrite (validate_empty b Htx).
    apply String.eqb_eq in Hh. now rewrite Hh.
  - intros Htx Hh. rewrite (validate_empty b Htx).
    apply String.eqb_neq in Hh. now rewrite Hh.
  - intros Htx. unfold validate. now rewrite (calculateHash_nonempty b Htx).
Qed.

Lemma validate_outcomes_witness :
  validate block1 = inr (true, []) /\
  validate (set_nonce 7 block1) = inr (false, ["区块哈希无效"]) /\
  validate block1_added = inl RangeError.
Proof.
  destruct (validate_outcomes block1) as (H1 & _ & _).
  destruct (validate_outcomes (set_nonce 7 block1)) as (_ & H2 & _).
  destruct (validate_outcomes block1_added) as (_ & _ & H3).
  split; [apply H1; vm_compute; reflexivity|].
  split; [apply H2; [vm_compute; reflexivity | vm_compute; discriminate]|].
  apply H3. vm_compute. discriminate.
Defined.

(** X5.  A block that the constructor builds without a hash validates, and
    so does the block that mining returns for it, at any difficulty and
    after any number of iterations. *)
Theorem fresh_block_validates (d : Block.init) (w w' : World) (b : Block.t) :
  d_hash d = None \/ d_hash d = Some "" ->
  Block.new d w = (inr b, w') ->
  validate b = inr (true, []) /\
  (forall fuel difficulty b',
      mineBlock fuel difficulty b = Mined b' -> validate b' = inr (true, [])).
Proof.
  intros Hh Hnew. pose proof (new_hash d w w' b Hh Hnew) as Hb.
  assert (forall x, calculateHash x = inr (hash x) -> validate x = inr (true, [])) as Hok.
  { intros x Hx. destruct (calculateHash_inr x _ Hx) as [Htx Hd].
    rewrite (validate_empty x Htx). fold (digest_of x) in Hd.
    rewrite <- Hd. now rewrite String.eqb_refl. }
  split; [now apply Hok|].
  intros fuel difficulty b' Hm. apply Hok.
  unfold mineBlock in Hm.
  destruct (mine_loop fuel difficulty b) as [b0| |] eqn:E; try discriminate.
  injection Hm as <-. rewrite calculateHash_set_difficulty.
  exact (mine_loop_invariant _ _ _ _ Hb E).
Qed.

Lemma fresh_block_validates_witness :
  block1_run = (inr block1, snd block1_run) /\
  validate block1 = inr (true, []) /\
  mineBlock 40 1 block1 = Mined mined1 /\
  validate mined1 = inr (true, []).
Proof.
  assert (block1_run = (inr block1, snd block1_run)) as H1 by (vm_compute; reflexivity).
  assert (mineBlock 40 1 block1 = Mined mined1) as H3 by (vm_compute; reflexivity).
  destruct (fresh_block_validates (block_init 1 (hash genesis) None []) (snd genesis_run)
              (snd block1_run) block1 (or_introl eq_refl) H1) as [Hv Hm].
  split; [exact H1|]. split; [exact Hv|]. split; [exact H3|].
  exact (Hm 40%nat 1%nat mined1 H3).
Defined.

End MiningFacts.

Section TransactionFacts.
Import Block.

Lemma str_or_lit_empty_iff x : str_or_lit x "" <> "" <-> exists s, x = Some s /\ s <> "".
Proof.
  destruct x as [s|]; simpl.
  - destruct (String.eqb_spec s "") as [-> | Hne].
    + split; [congruence | intros (s & [= <-] & H); congruence].
    + split; [intros _; now exists s | intros _; exact Hne].
  - split; [congruence | intros (s & H & _); discriminate].
Qed.

Lemma num_or_nonneg x : (0 <= num_or x 0)%Z <-> forall n, x = Some n -> (0 <= n)%Z.
Proof.
  destruct x as [n|]; simpl.
  - destruct (Z.eqb_spec n 0) as [-> | Hne].
    + split; [intros _ m [= <-]; lia | lia].
    + split; [intros H m [= <-]; exact H | intros H; now apply H].
  - split; [intros _ n H; discriminate | lia].
Qed.

Lemma validate_true_iff tx :
  fst (Transaction.validate tx) = true <->
  Transaction.from tx <> "" /\ Transaction.to tx <> "" /\
  (0 <= Transaction.amount tx)%Z /\ (0 <= Transaction.fee tx)%Z.
Proof.
  unfold Transaction.validate, Transaction.errors. cbn [fst].
  destruct (String.eqb_spec (Transaction.from tx) "") as [Hf | Hf];
    destruct (String.eqb_spec (Transaction.to tx) "") as [Ht | Ht];
    destruct (Z.ltb_spec (Transaction.amount tx) 0) as [Ha | Ha];
    destruct (Z.ltb_spec (Transaction.fee tx) 0) as [He | He];
    cbn [app]; split; try discriminate; try (intros (? & ? & ? & ?); congruence || lia);
    intros _; repeat split; assumption.
Qed.

(** X6.  Which data make a valid transaction.  The transaction that the
    constructor builds passes [validate] exactly when the data has a
    non-empty [from] and a non-empty [to], and neither its [amount] nor its
    [fee], if present, is negative.  Nothing else is looked at: not the
    signature, the type or the status. *)
Theorem new_transaction_valid_iff (d : Transaction.init) (w : World) :
  fst (Transaction.validate (fst (Transaction.new d w))) = true <->
  (exists f, Transaction.d_from d = Some f /\ f <> "") /\
  (exists t, Transaction.d_to d = Some t /\ t <> "") /\
  (forall a, Transaction.d_amount d = Some a -> (0 <= a)%Z) /\
  (forall f, Transaction.d_fee d = Some f -> (0 <= f)%Z).
Proof.
  rewrite validate_true_iff. unfold Transaction.new, bind.
  destruct (BaseModel.new (Transaction.d_base d) w) as [b w1]. cbn.
  now rewrite !str_or_lit_empty_iff, !num_or_nonneg.
Qed.

(** X7.  The two outcomes of [addTransaction].  A transaction that fails
    [validate] is refused with an Error that lists the messages.  A
    transaction that passes is appended as the last one: the transaction
    count equals the number of transactions and the version goes up by one,
    while the hash and the nonce stay as they were; from then on the block
    can neither be hashed nor validated. *)
Theorem addTransaction_outcomes
    (x : Transaction.t + Transaction.init) (b : Block.t) (w : World) :
  (fst (Transaction.validate (fst (new_transaction x w))) = false ->
     fst (addTransaction x b w)
     = inl (Error ("无效交易: "
                   +:+ Json.join ", " (Transaction.errors (fst (new_transaction x w)))))) /\
  (fst (Transaction.validate (fst (new_transaction x w))) = true ->
     exists b', fst (addTransaction x b w) = inr b' /\
       transactions b' = (transactions b ++ [fst (new_transaction x w)])%list /\
       transactionCount (metadata b') = Z.of_nat (length (transactions b')) /\
       hash b' = hash b /\ nonce b' = nonce b /\
       BaseModel.version (base b') = (BaseModel.version (base b) + 1)%Z /\
       calculateHash b' = inl RangeError /\
       validate b' = inl RangeError).
Proof.
  unfold addTransaction, bind. destruct (new_transaction x w) as [tx w1]. cbn [fst].
  split; intros Hv; rewrite Hv.
  - reflexivity.
  - unfold BaseModel.touch, bind, now_iso, ret. cbn [fst].
    eexists. split; [reflexivity|]. cbn [transactions metadata transactionCount hash nonce base].
    assert (calculateHash
              (Make (BaseModel.Make (BaseModel.id (base b)) (BaseModel.createdAt (base b))
                       (date_stream w1 (dates_used w1)) (BaseModel.version (base b) + 1))
                    (index b) (timestamp b) (previousHash b) (hash b) (nonce b) (difficulty b)
                    (transactions b ++ [tx])
                    (Meta (size (metadata b)) (Z.of_nat (length (transactions b ++ [tx])))
                          (merkleRoot (metadata b)) (gasUsed (metadata b))
                          (gasLimit (metadata b))))
            = inl RangeError) as Hc.
    { apply calculateHash_nonempty. cbn [transactions].
      destruct (transactions b); discriminate. }
    repeat split; try reflexivity; [exact Hc|].
    unfold validate. now rewrite Hc.
Qed.

Lemma addTransaction_outcomes_witness :
  fst (addTransaction (inr tx_empty) block1 (snd block1_run))
  = inl (Error "无效交易: 发送方地址不能为空, 接收方地址不能为空") /\
  (exists b', fst (addTransaction (inr (tx_init payload_ab)) block1 (snd block1_run)) = inr b' /\
     length (transactions b') = 1%nat /\
     transactionCount (metadata b') = 1%Z /\
     hash b' = hash block1 /\
     validate b' = inl RangeError).
Proof.
  destruct (addTransaction_outcomes (inr tx_empty) block1 (snd block1_run)) as [Hbad _].
  destruct (addTransaction_outcomes (inr (tx_init payload_ab)) block1 (snd block1_run))
    as [_ Hgood].
  split.
  - rewrite Hbad; [|vm_compute; reflexivity]. vm_compute. reflexivity.
  - destruct Hgood as (b' & H1 & H2 & H3 & H4 & _ & _ & _ & H8); [vm_compute; reflexivity|].
    exists b'. split; [exact H1|]. rewrite H3, H2. repeat split; try assumption.
Defined.

Lemma mapM_instances txs w :
  mapM new_transaction (List.map inl txs) w = (txs, w).
Proof.
  induction txs as [|tx txs IH]; [reflexivity|].
  cbn [List.map mapM]. unfold bind. cbn [new_transaction]. unfold ret at 1.
  now rewrite IH.
Qed.

Lemma mapM_length (l : list (Transaction.t + Transaction.init)) : forall w,
  length (fst (mapM new_transaction l w)) = length l.
Proof.
  induction l as [|x l IH]; intros w; [reflexivity|].
  cbn [mapM]. unfold bind. destruct (new_transaction x w) as [tx w1].
  specialize (IH w1). destruct (mapM new_transaction l w1) as [txs w2].
  cbn in *. now rewrite IH.
Qed.

(** X8.  When the constructor throws.  [new Block(data)] ends in the
    RangeError of [toJSON] exactly when the data carries a transaction and
    no hash, so that the hash has to be computed; in every other case it
    returns a block with as many transactions as the data has. *)
Theorem new_block_throws_iff (d : Block.init) (w : World) :
  (fst (Block.new d w) = inl RangeError <->
     (d_hash d = None \/ d_hash d = Some "") /\
     (exists x rest, d_transactions d = Some (x :: rest))) /\
  (forall e, fst (Block.new d w) = inl e -> e = RangeError) /\
  (forall b, fst (Block.new d w) = inr b ->
     length (transactions b) = length (default [] (d_transactions d))).
Proof.
  unfold Block.new, bind.
  destruct (BaseModel.new (d_base d) w) as [bm w1].
  destruct (str_or (d_timestamp d) now_iso w1) as [ts w2].
  pose proof (mapM_length (default [] (d_transactions d)) w2) as Hlen.
  destruct (mapM new_transaction (default [] (d_transactions d)) w2) as [txs w3].
  cbn [fst] in Hlen. unfold ret. cbn [fst hash].
  assert (str_or_lit (d_hash d) "" = "" <-> d_hash d = None \/ d_hash d = Some "") as Hh.
  { destruct (d_hash d) as [h|]; simpl; [|intuition].
    destruct (String.eqb_spec h "") as [-> | Hne]; [intuition|].
    split; [contradiction | intros [? | [= ->]]; congruence]. }
  assert (txs <> [] <-> exists x rest, d_transactions d = Some (x :: rest)) as Htx.
  { destruct (d_transactions d) as [[|x rest]|]; simpl in Hlen.
    - destruct txs; [|discriminate]. split; [congruence | intros (? & ? & ?); discriminate].
    - destruct txs; [discriminate|]. split; [intros _; now exists x, rest | discriminate].
    - destruct txs; [|discriminate]. split; [congruence | intros (? & ? & ?); discriminate]. }
  match goal with |- context [calculateHash ?this] => set (this0 := this) end.
  destruct (String.eqb_spec (str_or_lit (d_hash d) "") "") as [E | E].
  - destruct txs as [|tx txs].
    + rewrite (calculateHash_empty this0 eq_refl).
      split; [|split]; [| discriminate | intros b [= <-]; exact Hlen].
      split; [discriminate|]. intros [_ H]. apply Htx in H. congruence.
    + rewrite (calculateHash_nonempty this0) by discriminate.
      split; [|split]; [| intros e [= <-]; reflexivity | discriminate].
      split; [|reflexivity]. intros _. split; [now apply Hh | apply Htx; discriminate].
  - split; [|split]; [| discriminate | intros b [= <-]; exact Hlen].
    split; [discriminate|]. intros [H _]. apply Hh in H. contradiction.
Qed.

(** X9.  Signing a transaction does not disturb what it signs.  The hash
    recorded in the signature is the hash of the signed transaction, and the
    MAC is that of this hash under the key; the transaction's own hash, its
    validation result and its BaseModel fields (no [touch]) are as before. *)
Theorem sign_keeps_hash (privateKey : string) (tx : Transaction.t) (w : World) :
  Transaction.calculateHash (fst (Transaction.sign privateKey tx w))
  = Transaction.calculateHash tx /\
  Json.get "hash" (Transaction.signature (fst (Transaction.sign privateKey tx w)))
  = Some (JStr (Transaction.calculateHash (fst (Transaction.sign privateKey tx w)))) /\
  Json.get "signature" (Transaction.signature (fst (Transaction.sign privateKey tx w)))
  = Some (JStr (HmacSHA256 (Transaction.calculateHash tx) privateKey)) /\
  Json.get "timestamp" (Transaction.signature (fst (Transaction.sign privateKey tx w)))
  = Some (JStr (date_stream w (dates_used w))) /\
  Transaction.validate (fst (Transaction.sign privateKey tx w)) = Transaction.validate tx /\
  Transaction.base (fst (Transaction.sign privateKey tx w)) = Transaction.base tx.
Proof. repeat apply conj; reflexivity. Qed.

(** Rebuilding from an instance: the defaults of the constructors are not
    taken again. *)
Lemma str_or_lit_again x d : str_or_lit (Some (str_or_lit x d)) d = str_or_lit x d.
Proof.
  unfold str_or_lit at 1. destruct (String.eqb_spec (str_or_lit x d) "") as [E | E];
    [|reflexivity].
  destruct x as [s|]; simpl in *; [|congruence].
  destruct (String.eqb_spec s ""); congruence.
Qed.

Lemma num_or_again x d : num_or (Some (num_or x d)) d = num_or x d.
Proof.
  unfold num_or at 1. destruct (Z.eqb_spec (num_or x d) 0) as [E | E]; [|reflexivity].
  destruct x as [n|]; simpl in *; [|congruence].
  destruct (Z.eqb_spec n 0); congruence.
Qed.

Lemma nat_or_again x d : (0 < d)%nat -> nat_or (Some (nat_or x d)) d = nat_or x d.
Proof. intros Hd. destruct x as [[|n]|]; simpl; destruct d; try reflexivity; lia. Qed.

Lemma or_else_again x d : Json.or_else (Some (Json.or_else x d)) d = Json.or_else x d.
Proof.
  unfold Json.or_else at 1. destruct (Json.truthy (Json.or_else x d)) eqn:E; [reflexivity|].
  destruct x as [v|]; simpl in *; [|reflexivity].
  destruct (Json.truthy v) eqn:Ev; congruence.
Qed.

Lemma str_or_null_again x : str_or_null (str_or_null x) = str_or_null x.
Proof.
  destruct x as [s|]; simpl; [|reflexivity].
  destruct (String.eqb_spec s "") as [E | E]; simpl; [reflexivity|].
  now destruct (String.eqb_spec s "").
Qed.

Lemma num_or_null_again x : num_or_null (num_or_null x) = num_or_null x.
Proof.
  destruct x as [n|]; simpl; [|reflexivity].
  destruct (Z.eqb_spec n 0) as [E | E]; simpl; [reflexivity|].
  now destruct (Z.eqb_spec n 0).
Qed.

Lemma str_or_given s (m : M string) w : s <> "" -> str_or (Some s) m w = (s, w).
Proof. intros Hs. simpl. now destruct (String.eqb_spec s ""). Qed.

Lemma str_or_settled x (m : M string) w :
  (forall w0, same_streams w w0 -> fst (m w0) <> "" /\ same_streams w (snd (m w0))) ->
  fst (str_or x m w) <> "" /\ same_streams w (snd (str_or x m w)).
Proof.
  intros Hm. assert (same_streams w w) as Hw by (split; reflexivity).
  destruct x as [s|]; simpl; [|now apply Hm].
  destruct (String.eqb_spec s "") as [E | E]; [now apply Hm|]. now split.
Qed.

Lemma generateId_settled w : nonempty_streams w ->
  forall w0, same_streams w w0 ->
    fst (generateId w0) <> "" /\ same_streams w (snd (generateId w0)).
Proof.
  intros Hn w0 [Hi Hd]. unfold generateId. cbn [fst snd]. split.
  - rewrite Hi. apply Hn.
  - split; assumption.
Qed.

Lemma now_iso_settled w : nonempty_streams w ->
  forall w0, same_streams w w0 ->
    fst (now_iso w0) <> "" /\ same_streams w (snd (now_iso w0)).
Proof.
  intros Hn w0 [Hi Hd]. unfold now_iso. cbn [fst snd]. split.
  - rewrite Hd. apply Hn.
  - split; assumption.
Qed.

Lemma same_streams_nonempty w w' :
  nonempty_streams w -> same_streams w w' -> nonempty_streams w'.
Proof. intros Hn [Hi Hd] n. rewrite Hi, Hd. apply Hn. Qed.

Lemma same_streams_trans w1 w2 w3 :
  same_streams w1 w2 -> same_streams w2 w3 -> same_streams w1 w3.
Proof. intros [? ?] [? ?]. split; congruence. Qed.

Lemma base_new_settled d w :
  nonempty_streams w ->
  BaseModel.id (fst (BaseModel.new d w)) <> "" /\
  BaseModel.createdAt (fst (BaseModel.new d w)) <> "" /\
  BaseModel.updatedAt (fst (BaseModel.new d w)) <> "" /\
  BaseModel.version (fst (BaseModel.new d w)) <> 0%Z /\
  same_streams w (snd (BaseModel.new d w)).
Proof.
  intros Hn. unfold BaseModel.new, bind.
  destruct (str_or_settled (BaseModel.d_id d) generateId w (generateId_settled w Hn))
    as [Hi Hs1].
  destruct (str_or (BaseModel.d_id d) generateId w) as [i w1]. cbn [fst snd] in *.
  pose proof (same_streams_nonempty _ _ Hn Hs1) as Hn1.
  destruct (str_or_settled (BaseModel.d_createdAt d) now_iso w1 (now_iso_settled w1 Hn1))
    as [Hc Hs2].
  destruct (str_or (BaseModel.d_createdAt d) now_iso w1) as [c w2]. cbn [fst snd] in *.
  pose proof (same_streams_nonempty _ _ Hn1 Hs2) as Hn2.
  destruct (str_or_settled (BaseModel.d_updatedAt d) now_iso w2 (now_iso_settled w2 Hn2))
    as [Hu Hs3].
  destruct (str_or (BaseModel.d_updatedAt d) now_iso w2) as [u w3]. cbn [fst snd] in *.
  unfold ret. cbn. repeat split; try assumption.
  - destruct (BaseModel.d_version d) as [n|]; simpl; [|discriminate].
    destruct (Z.eqb_spec n 0); [discriminate | assumption].
  - destruct Hs1, Hs2, Hs3. congruence.
  - destruct Hs1, Hs2, Hs3. congruence.
Qed.

Lemma base_rebuild b w :
  BaseModel.id b <> "" -> BaseModel.createdAt b <> "" -> BaseModel.updatedAt b <> "" ->
  BaseModel.version b <> 0%Z ->
  BaseModel.new (base_data b) w = (b, w).
Proof.
  intros Hi Hc Hu Hv. unfold BaseModel.new, bind, base_data. cbn [BaseModel.d_id
    BaseModel.d_createdAt BaseModel.d_updatedAt BaseModel.d_version].
  rewrite (str_or_given _ _ _ Hi), (str_or_given _ _ _ Hc), (str_or_given _ _ _ Hu).
  unfold ret, num_or. destruct (Z.eqb_spec (BaseModel.version b) 0); [contradiction|].
  now destruct b.
Qed.

(** X10.  A transaction survives a rebuild.  Passing a transaction that a
    constructor built back to the constructor, as its data, gives the same
    transaction, and reads neither the clock nor the id generator. *)
Theorem transaction_rebuild (d : Transaction.init) (w w2 : World) :
  nonempty_streams w ->
  Transaction.new (transaction_data (fst (Transaction.new d w))) w2
  = (fst (Transaction.new d w), w2).
Proof.
  intros Hn. destruct (base_new_settled (Transaction.d_base d) w Hn) as (Hi & Hc & Hu & Hv & _).
  unfold Transaction.new at 2 3, bind.
  destruct (BaseModel.new (Transaction.d_base d) w) as [b w1]. cbn [fst snd] in *.
  unfold ret. cbn [fst]. unfold Transaction.new, bind, transaction_data.
  cbn [Transaction.d_base Transaction.base]. rewrite (base_rebuild b w2 Hi Hc Hu Hv).
  unfold ret. cbn [Transaction.d_type Transaction.d_from Transaction.d_to Transaction.d_amount
    Transaction.d_fee Transaction.d_data Transaction.d_signature Transaction.d_status
    Transaction.d_metadata Transaction.mget Transaction.d_gasPrice Transaction.d_gasLimit
    Transaction.d_gasUsed Transaction.d_blockHash Transaction.d_blockIndex
    Transaction.d_transactionIndex Transaction.type Transaction.from Transaction.to
    Transaction.amount Transaction.fee Transaction.data Transaction.signature
    Transaction.status Transaction.metadata Transaction.gasPrice Transaction.gasLimit
    Transaction.gasUsed Transaction.blockHash Transaction.blockIndex
    Transaction.transactionIndex].
  now rewrite !str_or_lit_again, !num_or_again, !or_else_again, str_or_null_again,
    !num_or_null_again.
Qed.

Lemma world0_nonempty : nonempty_streams world0.
Proof.
  intros n. split; unfold world0; cbn [id_stream date_stream]; intros H;
    apply (f_equal String.length) in H; cbv [String.append String.length] in H;
    discriminate.
Qed.

Lemma transaction_rebuild_witness :
  nonempty_streams world0 /\
  Transaction.new (transaction_data tx_ab) (snd block1_run) = (tx_ab, snd block1_run).
Proof.
  split; [exact world0_nonempty|].
  exact (transaction_rebuild (tx_init payload_ab) world0 (snd block1_run) world0_nonempty).
Defined.

Lemma SHA256_nonempty s : SHA256 s <> "".
Proof. intros H. apply (f_equal String.length) in H. now rewrite SHA256_length in H. Qed.

Lemma block_rebuild_settled b w :
  BaseModel.id (base b) <> "" -> BaseModel.createdAt (base b) <> "" ->
  BaseModel.updatedAt (base b) <> "" -> BaseModel.version (base b) <> 0%Z ->
  timestamp b <> "" -> previousHash b <> "" -> hash b <> "" ->
  difficulty b <> 0%nat -> gasLimit (metadata b) <> 0%Z ->
  Block.new (block_data b) w = (inr b, w).
Proof.
  intros Hi Hc Hu Hv Hts Hp Hh Hd Hg. unfold Block.new, bind, block_data.
  cbn [d_base d_index d_timestamp d_previousHash d_hash d_nonce d_difficulty
       d_transactions d_metadata].
  rewrite (base_rebuild (base b) w Hi Hc Hu Hv), (str_or_given _ _ _ Hts).
  change (default [] (Some (List.map inl (transactions b))))
    with (List.map (@inl Transaction.t Transaction.init) (transactions b)).
  rewrite mapM_instances.
  unfold ret. cbn [hash mget d_size d_transactionCount d_merkleRoot d_gasUsed d_gasLimit].
  assert (forall s, s <> "" -> forall d, str_or_lit (Some s) d = s) as Hlit.
  { intros s Hs d. simpl. now destruct (String.eqb_spec s ""). }
  rewrite (Hlit _ Hh), (Hlit _ Hp).
  destruct (String.eqb_spec (hash b) "") as [Eh | Eh]; [contradiction|].
  assert (forall k d, k <> 0%Z \/ d = 0%Z -> num_or (Some k) d = k) as Hnum.
  { intros k d H. simpl. destruct (Z.eqb_spec k 0); [|reflexivity]. destruct H; congruence. }
  rewrite !Hnum by (right; reflexivity). rewrite (Hnum _ 1000000%Z) by (now left).
  assert (str_or_lit (Some (merkleRoot (metadata b))) "" = merkleRoot (metadata b)) as ->.
  { simpl. now destruct (String.eqb_spec (merkleRoot (metadata b)) ""). }
  assert (nat_or (Some (difficulty b)) 4 = difficulty b) as ->
    by (destruct (difficulty b); [contradiction | reflexivity]).
  destruct b as [bm i ts p h n df txs [sz tc mr gu gl]]. reflexivity.
Qed.

Lemma new_block_settled d w b w' :
  nonempty_streams w ->
  Block.new d w = (inr b, w') ->
  BaseModel.id (base b) <> "" /\ BaseModel.createdAt (base b) <> "" /\
  BaseModel.updatedAt (base b) <> "" /\ BaseModel.version (base b) <> 0%Z /\
  timestamp b <> "" /\ previousHash b <> "" /\ hash b <> "" /\
  difficulty b <> 0%nat /\ gasLimit (metadata b) <> 0%Z.
Proof.
  intros Hn. unfold Block.new, bind.
  destruct (base_new_settled (d_base d) w Hn) as (Hi & Hc & Hu & Hv & Hs).
  destruct (BaseModel.new (d_base d) w) as [bm w1]. cbn [fst snd] in *.
  pose proof (same_streams_nonempty _ _ Hn Hs) as Hn1.
  destruct (str_or_settled (d_timestamp d) now_iso w1 (now_iso_settled w1 Hn1)) as [Hts _].
  destruct (str_or (d_timestamp d) now_iso w1) as [ts w2]. cbn [fst snd] in *.
  destruct (mapM new_transaction (default [] (d_transactions d)) w2) as [txs w3].
  unfold ret. cbn [hash].
  assert (str_or_lit (d_previousHash d) "0" <> "") as Hp.
  { destruct (d_previousHash d) as [s|]; simpl; [|discriminate].
    destruct (String.eqb_spec s ""); [discriminate | assumption]. }
  assert (nat_or (d_difficulty d) 4 <> 0%nat) as Hd
    by (destruct (d_difficulty d) as [[|k]|]; discriminate).
  assert (num_or (mget d_gasLimit (d_metadata d)) 1000000 <> 0%Z) as Hg.
  { destruct (mget d_gasLimit (d_metadata d)) as [k|]; simpl; [|discriminate].
    destruct (Z.eqb_spec k 0); [discriminate | assumption]. }
  destruct (String.eqb_spec (str_or_lit (d_hash d) "") "") as [E | E].
  - match goal with |- context [calculateHash ?this] =>
      destruct (calculateHash this) as [e|h] eqn:Eh end; intros H; [discriminate|].
    injection H as <- _. apply calculateHash_inr in Eh as [_ ->].
    cbn. repeat split; try assumption. apply SHA256_nonempty.
  - intros H. injection H as <- _. cbn. repeat split; assumption.
Qed.

(** X11.  A block survives a rebuild.  Passing a block that a constructor
    built back to the constructor, as its data, gives the same block: the
    stored hash is kept and not recomputed (so the rebuild succeeds even
    with transactions), and neither the clock nor the id generator is read.
    The same holds for the block that mining at a difficulty of at least 1
    returns.  A block mined at difficulty 0 does not survive: the rebuilt
    block has the default difficulty 4. *)
Theorem block_rebuild (d : Block.init) (w w' : World) (b : Block.t) :
  nonempty_streams w ->
  Block.new d w = (inr b, w') ->
  (forall w2, Block.new (block_data b) w2 = (inr b, w2)) /\
  (forall fuel level b' w2,
      mineBlock fuel (S level) b = Mined b' ->
      Block.new (block_data b') w2 = (inr b', w2)) /\
  (forall fuel b' w2,
      mineBlock fuel 0 b = Mined b' ->
      Block.new (block_data b') w2 = (inr (set_difficulty 4 b'), w2)).
Proof.
  intros Hn Hnew.
  destruct (new_block_settled d w b w' Hn Hnew) as (Hi & Hc & Hu & Hv & Hts & Hp & Hh & Hd & Hg).
  split; [|split].
  - intros w2. now apply block_rebuild_settled.
  - intros fuel level b' w2 Hm. unfold mineBlock in Hm.
    destruct (mine_loop fuel (S level) b) as [b0| |] eqn:E; try discriminate.
    injection Hm as <-.
    destruct (mine_loop_frame fuel (S level) b) as (Fb & _ & Ft & Fp & _ & Fm).
    rewrite E in Fb, Ft, Fp, Fm. cbn [state_of] in Fb, Ft, Fp, Fm.
    destruct (mine_loop_progress _ _ _ _ E) as (_ & Hup & Hsame).
    apply block_rebuild_settled; cbn [base timestamp previousHash hash difficulty metadata
      set_difficulty]; rewrite ?Fb, ?Ft, ?Fp, ?Fm; try assumption; [|discriminate].
    destruct (Z.eq_dec (nonce b0) (nonce b)) as [En | En].
    + now rewrite (Hsame En).
    + assert (nonce b < nonce b0)%Z as Hlt.
      { destruct (mine_loop_progress _ _ _ _ E) as (Hle & _ & _). lia. }
      destruct (calculateHash_inr _ _ (Hup Hlt)) as [_ ->]. apply SHA256_nonempty.
  - intros fuel b' w2 Hm. unfold mineBlock in Hm.
    assert (meets 0 b = true) as Hz by (unfold meets; destruct (hash b); reflexivity).
    destruct fuel; cbn [mine_loop] in Hm; rewrite Hz in Hm; injection Hm as <-.
    all: transitivity (Block.new (block_data (set_difficulty 4 b)) w2); [reflexivity|];
      change (set_difficulty 4 (set_difficulty 0 b)) with (set_difficulty 4 b);
      apply block_rebuild_settled; try assumption; discriminate.
Qed.

Lemma block_rebuild_witness :
  nonempty_streams world0 /\
  genesis_run = (inr genesis, snd genesis_run) /\
  Block.new (block_data genesis) world0 = (inr genesis, world0) /\
  mineBlock 0 0 genesis = Mined (set_difficulty 0 genesis) /\
  Block.new (block_data (set_difficulty 0 genesis)) world0
  = (inr (set_difficulty 4 (set_difficulty 0 genesis)), world0).
Proof.
  assert (genesis_run = (inr genesis, snd genesis_run)) as H0 by (vm_compute; reflexivity).
  assert (mineBlock 0 0 genesis = Mined (set_difficulty 0 genesis)) as H1 by reflexivity.
  destruct (block_rebuild (block_init 0 "0" None []) world0 (snd genesis_run) genesis
              world0_nonempty H0) as (Ha & _ & Hc).
  split; [exact world0_nonempty|]. split; [exact H0|]. split; [apply Ha|].
  split; [exact H1|]. exact (Hc 0%nat _ world0 H1).
Defined.

End TransactionFacts.

(* ===================================================================== *)
(** ** Signing and status of a contract *)
(* ===================================================================== *)

Section ContractFacts.
Import SmartContract.

Lemma call_keeps_signed o c w :
  (signed1 c = true -> signed1 (fst (contract_call o c w)) = true) /\
  (signed2 c = true -> signed2 (fst (contract_call o c w)) = true).
Proof.
  destruct o as [party sig | s]; cbn [contract_call].
  - unfold sign. destruct (String.eqb party "party1" || String.eqb party "party2");
      [|now split].
    unfold bind, now_iso, BaseModel.touch, ret. cbn [fst].
    destruct (String.eqb party "party1"); split; intros H; try exact H; reflexivity.
  - unfold updateStatus. destruct (existsb (String.eqb s) validStatuses); now split.
Qed.

Lemma calls_keep_signed ops : forall c w,
  (signed1 c = true -> signed1 (fst (contract_calls ops c w)) = true) /\
  (signed2 c = true -> signed2 (fst (contract_calls ops c w)) = true).
Proof.
  induction ops as [|o ops IH]; intros c w; [now split|].
  cbn [contract_calls]. unfold bind.
  destruct (call_keeps_signed o c w) as [H1 H2].
  destruct (contract_call o c w) as [c1 w1]. cbn [fst] in *.
  destruct (IH c1 w1) as [I1 I2]. split; auto.
Qed.

Lemma sign_party1_signed sig c w : signed1 (fst (sign "party1" sig c w)) = true.
Proof. reflexivity. Qed.

Lemma sign_party2_signed sig c w : signed2 (fst (sign "party2" sig c w)) = true.
Proof. reflexivity. Qed.

Lemma calls_sign_party1 ops : forall c w sig,
  In (call_sign "party1" sig) ops -> signed1 (fst (contract_calls ops c w)) = true.
Proof.
  induction ops as [|o ops IH]; intros c w sig Hin; [destruct Hin|].
  cbn [contract_calls]. unfold bind. destruct Hin as [-> | Hin].
  - cbn [contract_call].
    pose proof (sign_party1_signed sig c w) as H.
    destruct (sign "party1" sig c w) as [c1 w1]. cbn [fst] in H.
    now apply calls_keep_signed.
  - destruct (contract_call o c w) as [c1 w1]. now apply IH with (sig := sig).
Qed.

Lemma calls_sign_party2 ops : forall c w sig,
  In (call_sign "party2" sig) ops -> signed2 (fst (contract_calls ops c w)) = true.
Proof.
  induction ops as [|o ops IH]; intros c w sig Hin; [destruct Hin|].
  cbn [contract_calls]. unfold bind. destruct Hin as [-> | Hin].
  - cbn [contract_call].
    pose proof (sign_party2_signed sig c w) as H.
    destruct (sign "party2" sig c w) as [c1 w1]. cbn [fst] in H.
    now apply calls_keep_signed.
  - destruct (contract_call o c w) as [c1 w1]. now apply IH with (sig := sig).
Qed.

(** X12.  Signatures are permanent.  In any sequence of [sign] and
    [updateStatus] calls that contains a signing for party1 and one for
    party2, in either order and with anything before, between and after,
    the contract is fully signed at the end: the value [isFullySigned()]
    returns, the signature object of party2, is truthy.  No call removes a
    signature. *)
Theorem fully_signed_after_both_sign
    (ops : list contract_op) (c : SmartContract.t) (w : World) (sig1 sig2 : string) :
  In (call_sign "party1" sig1) ops -> In (call_sign "party2" sig2) ops ->
  Json.truthy (isFullySigned (fst (contract_calls ops c w))) = true /\
  isFullySigned (fst (contract_calls ops c w))
  = signature (party2 (fst (contract_calls ops c w))).
Proof.
  intros H1 H2.
  pose proof (calls_sign_party1 ops c w sig1 H1) as S1.
  pose proof (calls_sign_party2 ops c w sig2 H2) as S2.
  unfold isFullySigned. unfold signed1 in S1. rewrite S1. now split.
Qed.

Lemma fully_signed_after_both_sign_witness :
  Json.truthy (isFullySigned contract_ab) = false /\
  Json.truthy (isFullySigned
    (fst (contract_calls [call_sign "party2" "s2"; call_updateStatus "active";
                          call_sign "party1" "s1"; call_sign "witness" "s3"]
                         contract_ab world0))) = true.
Proof.
  split; [vm_compute; reflexivity|].
  apply (fully_signed_after_both_sign
           [call_sign "party2" "s2"; call_updateStatus "active";
            call_sign "party1" "s1"; call_sign "witness" "s3"]
           contract_ab world0 "s1" "s2").
  - right; right; left; reflexivity.
  - left; reflexivity.
Defined.

Lemma same_content_refl c : same_content c c.
Proof. repeat split. Qed.

Lemma same_content_trans c1 c2 c3 :
  same_content c1 c2 -> same_content c2 c3 -> same_content c1 c3.
Proof. unfold same_content. intuition congruence. Qed.

Lemma call_effect o c w :
  same_content c (fst (contract_call o c w)) /\
  BaseModel.version (base (fst (contract_call o c w)))
  = (BaseModel.version (base c) + if accepted o then 1 else 0)%Z /\
  (accepted o = false -> contract_call o c w = (c, w)).
Proof.
  destruct o as [party sig | s]; cbn [contract_call accepted].
  - unfold sign. destruct (String.eqb party "party1" || String.eqb party "party2").
    + unfold bind, now_iso, BaseModel.touch, ret. cbn [fst].
      destruct (String.eqb party "party1"); cbn; repeat split; discriminate.
    + unfold ret. cbn [fst]. split; [apply same_content_refl|]. split; [lia | reflexivity].
  - unfold updateStatus. destruct (existsb (String.eqb s) validStatuses).
    + unfold bind, now_iso, BaseModel.touch, ret. cbn. repeat split; discriminate.
    + unfold ret. cbn [fst]. split; [apply same_content_refl|]. split; [lia | reflexivity].
Qed.

(** X13.  The version counts the accepted changes.  After any sequence of
    [sign] and [updateStatus] calls the version of the contract is its
    initial version plus the number of calls that passed the guard of their
    method (a known party name, a known status).  The calls that did not
    pass leave no trace: the sequence without them gives the same contract
    and reads the clock as often.  The id, the creation time, the title,
    type, description, the parties' names, addresses and contacts, the
    terms, the financial part and the timeline are as before. *)
Theorem version_counts_accepted_calls
    (ops : list contract_op) (c : SmartContract.t) (w : World) :
  BaseModel.version (base (fst (contract_calls ops c w)))
  = (BaseModel.version (base c) + Z.of_nat (length (List.filter accepted ops)))%Z /\
  same_content c (fst (contract_calls ops c w)) /\
  contract_calls ops c w = contract_calls (List.filter accepted ops) c w.
Proof.
  revert c w. induction ops as [|o ops IH]; intros c w.
  - cbn. split; [lia|]. split; [apply same_content_refl | reflexivity].
  - cbn [contract_calls List.filter]. unfold bind.
    destruct (call_effect o c w) as (Hc & Hv & Hn).
    destruct (contract_call o c w) as [c1 w1] eqn:E. cbn [fst] in *.
    destruct (IH c1 w1) as (Iv & Ic & Id).
    split; [|split].
    + rewrite Iv, Hv. destruct (accepted o); cbn [length]; lia.
    + exact (same_content_trans _ _ _ Hc Ic).
    + destruct (accepted o).
      * cbn [contract_calls]. unfold bind. now rewrite E.
      * specialize (Hn eq_refl). injection Hn as -> ->. exact Id.
Qed.

End ContractFacts.

(* ===================================================================== *)
(** ** Further properties of the history store *)
(* ===================================================================== *)

Section HistoryFacts.
Import HistoryStorage.

Lemma filter_other_idem id (l : list string) :
  List.filter (fun x => negb (String.eqb x id)) (List.filter (fun x => negb (String.eqb x id)) l)
  = List.filter (fun x => negb (String.eqb x id)) l.
Proof.
  induction l as [|x l IH]; [reflexivity|]. simpl.
  destruct (negb (String.eqb x id)) eqn:E; [|exact IH]. simpl. rewrite E. now f_equal.
Qed.

Lemma in_filter_other id (l : list string) k :
  In k (List.filter (fun x => negb (String.eqb x id)) l) <-> In k l /\ k <> id.
Proof.
  rewrite filter_In. split; intros [H1 H2]; (split; [exact H1|]).
  - intros ->. now rewrite String.eqb_refl in H2.
  - apply negb_true_iff. now apply String.eqb_neq.
Qed.

(** [deleteRecord], by the kind of the index. *)
Lemma deleteRecord_array id st ids :
  readIndex st = Ids ids ->
  deleteRecord id st
  = (None, MkStorage (Some (IndexIds (List.filter (fun x => negb (String.eqb x id)) ids)))
                     (delete id (records st))).
Proof.
  intros H. unfold deleteRecord.
  change (readIndex (MkStorage (index st) (delete id (records st)))) with (readIndex st).
  now rewrite H.
Qed.


Lemma listed_deleteRecord id st :
  listed (snd (deleteRecord id st))
  = List.filter (fun x => negb (String.eqb x id)) (listed st).
Proof.
  unfold deleteRecord, listed.
  change (readIndex (MkStorage (index st) (delete id (records st)))) with (readIndex st).
  destruct (readIndex st) as [ids|s|] eqn:E; cbn [snd]; try reflexivity.
  - change (readIndex (MkStorage (index st) (delete id (records st)))) with (readIndex st).
    now rewrite E.
  - change (readIndex (MkStorage (index st) (delete id (records st)))) with (readIndex st).
    now rewrite E.
Qed.

Lemma records_deleteRecord id st : records (snd (deleteRecord id st)) = delete id (records st).
Proof.
  unfold deleteRecord.
  now destruct (readIndex (MkStorage (index st) (delete id (records st)))).
Qed.

(** X14.  What [deleteRecord] does, for a record id (the word [index] is
    the key of the index itself).  The record stored under the id and every
    occurrence of the id in the index are gone; the other records and the
    other ids are as before; and deleting again changes nothing. *)
Theorem deleteRecord_removes_record (id : string) (st : Storage) :
  id <> "index" ->
  records (snd (deleteRecord id st)) !! id = None /\
  ~ In id (listed (snd (deleteRecord id st))) /\
  (forall k, k <> id -> records (snd (deleteRecord id st)) !! k = records st !! k) /\
  (forall k, k <> id -> In k (listed (snd (deleteRecord id st))) <-> In k (listed st)) /\
  (~ In id (listed st) -> listed (snd (deleteRecord id st)) = listed st) /\
  deleteRecord id (snd (deleteRecord id st)) = deleteRecord id st.
Proof.
  intros _. rewrite listed_deleteRecord, records_deleteRecord.
  repeat apply conj.
  - apply lookup_delete_eq.
  - intros H. apply in_filter_other in H as [_ H]. now apply H.
  - intros k Hk. now apply lookup_delete_ne.
  - intros k Hk. rewrite in_filter_other. tauto.
  - intros Hn. apply forallb_filter_id. apply forallb_forall. intros x Hx.
    apply negb_true_iff, String.eqb_neq. intros ->. contradiction.
  - unfold deleteRecord, writeIndex, readIndex.
    destruct (index st) as [[|ids|s|]|]; cbn [snd index records];
      rewrite ?filter_other_idem, delete_delete_eq; reflexivity.
Qed.

Lemma deleteRecord_removes_record_witness :
  "CR_2_bbbb" <> "index" /\
  readIndex damaged_store = Ids ["CR_2_bbbb"; "CR_1_aaaa"] /\
  records (snd (deleteRecord "CR_2_bbbb" damaged_store)) !! "CR_2_bbbb" = None /\
  ~ In "CR_2_bbbb" (listed (snd (deleteRecord "CR_2_bbbb" damaged_store))) /\
  records (snd (deleteRecord "CR_2_bbbb" damaged_store)) !! "CR_1_aaaa"
  = Some (Json (old_record "CR_1_aaaa")).
Proof.
  assert ("CR_2_bbbb" <> "index") as Hne by discriminate.
  destruct (deleteRecord_removes_record "CR_2_bbbb" damaged_store Hne)
    as (H1 & H2 & H3 & _).
  split; [exact Hne|]. split; [reflexivity|]. split; [exact H1|]. split; [exact H2|].
  rewrite H3 by discriminate. vm_compute. reflexivity.
Defined.

Lemma resolve_ext st st' ids :
  (forall k, In k ids -> records st' !! k = records st !! k) ->
  resolve st' ids = resolve st ids.
Proof.
  induction ids as [|x ids IH]; intros H; [reflexivity|].
  unfold resolve in *. cbn [omap list_omap].
  rewrite (H x (or_introl eq_refl)).
  rewrite IH by (intros k Hk; apply H; now right). reflexivity.
Qed.



Lemma fold_delete_lookup (ids : list string) : forall (recs : gmap string text) k,
  fold_left (fun recs id => delete id recs) ids recs !! k
  = if existsb (String.eqb k) ids then None else recs !! k.
Proof.
  induction ids as [|x ids IH]; intros recs k; [reflexivity|].
  cbn [fold_left existsb]. rewrite IH.
  destruct (existsb (String.eqb k) ids); [now rewrite orb_true_r|].
  rewrite orb_false_r. destruct (String.eqb_spec k x) as [-> | Hne].
  - apply lookup_delete_eq.
  - apply lookup_delete_ne. congruence.
Qed.

Lemma existsb_eqb_In k (ids : list string) : existsb (String.eqb k) ids = true <-> In k ids.
Proof.
  rewrite existsb_exists. split.
  - intros (x & Hx & E). apply String.eqb_eq in E. now subst.
  - intros H. exists k. split; [exact H | apply String.eqb_refl].
Qed.

(** X16.  What [clearAll] does, for every stored index.  When the index
    is an array (an absent or unparseable entry reads as the empty array),
    the call ends normally, the index entry is gone, [loadAll] lists
    nothing, and exactly the records that the index listed are removed: a
    record whose id the index did not hold (one that the cut at 500 ids
    dropped, or any record when the entry could not be parsed) stays in the
    storage.  When the entry parses to a value that is no array, a string
    or anything else, the call ends in a TypeError and removes nothing: the
    records and the index entry are as before. *)
Theorem clearAll_removes_listed_records (st : Storage) :
  (forall ids, readIndex st = Ids ids ->
     fst (clearAll st) = None /\
     index (snd (clearAll st)) = None /\
     loadAll (snd (clearAll st)) = inr [] /\
     (forall k, In k ids -> records (snd (clearAll st)) !! k = None) /\
     (forall k, ~ In k ids -> records (snd (clearAll st)) !! k = records st !! k)) /\
  (index st = Some IndexGarbage \/ index st = None ->
     clearAll st = (None, MkStorage None (records st))) /\
  ((forall ids, readIndex st <> Ids ids) -> clearAll st = (Some TypeError, st)) /\
  (forall s, index st = Some (IndexString s) -> clearAll st = (Some TypeError, st)) /\
  (index st = Some IndexOther -> clearAll st = (Some TypeError, st)).
Proof.
  repeat apply conj.
  - intros ids E. unfold clearAll. rewrite E. cbn [fst snd index records].
    repeat apply conj; try reflexivity.
    + intros k Hk. rewrite fold_delete_lookup.
      apply existsb_eqb_In in Hk. now rewrite Hk.
    + intros k Hk. rewrite fold_delete_lookup.
      destruct (existsb (String.eqb k) ids) eqn:Ex; [|reflexivity].
      apply existsb_eqb_In in Ex. contradiction.
  - intros [H | H]; unfold clearAll, readIndex; now rewrite H.
  - intros H. unfold clearAll.
    destruct (readIndex st) as [ids|s|]; [now contradiction (H ids) | reflexivity | reflexivity].
  - intros s H. unfold clearAll, readIndex. now rewrite H.
  - intros H. unfold clearAll, readIndex. now rewrite H.
Qed.

(** What the dedup scan has seen when it ends. *)
Lemma scan_NotFound st hash ids :
  scan st hash ids = NotFound ->
  (forall k, In k ids -> records st !! k <> Some Garbage) /\
  (forall r, In r (resolve st ids) -> record_digest r <> Some hash).
Proof.
  induction ids as [|x ids IH]; intros H; [split; intros ? []|].
  cbn [scan] in H. unfold parse_record in H.
  unfold resolve in *. cbn [omap list_omap].
  destruct (records st !! x) as [[|j]|] eqn:E; [discriminate| |].
  - destruct (Json.truthy j) eqn:Ej; cbn [andb] in H.
    + destruct (is_string (Json.get "sha256" j) hash) eqn:Es; [discriminate|].
      destruct (IH H) as [I1 I2]. split.
      * intros k [<- | Hk]; [congruence | now apply I1].
      * intros r [<- | Hr]; [|now apply I2].
        unfold record_digest. unfold is_string in Es.
        destruct (Json.get "sha256" j) as [[| | |s| |]|]; try discriminate.
        intros [= ->]. now rewrite String.eqb_refl in Es.
    + destruct (IH H) as [I1 I2]. split.
      * intros k [<- | Hk]; [congruence | now apply I1].
      * exact I2.
  - cbn [Json.truthy andb] in H. destruct (IH H) as [I1 I2]. split.
    + intros k [<- | Hk]; [congruence | now apply I1].
    + exact I2.
Qed.

Lemma is_string_has_digest j hash :
  is_string (Json.get "sha256" j) hash = has_digest hash j.
Proof.
  unfold is_string, has_digest, record_digest.
  now destruct (Json.get "sha256" j) as [[| | |s| |]|].
Qed.

(** The scan up to the first damaged record: it returns the first record
    with the digest among those read before, and throws when there is
    none. *)
Lemma scan_until_damaged st hash l1 id l2 :
  (forall k, In k l1 -> records st !! k <> Some Garbage) ->
  records st !! id = Some Garbage ->
  scan st hash (l1 ++ id :: l2)
  = match first_with_digest hash (resolve st l1) with
    | Some existing => Found existing
    | None => ScanRaised SyntaxError
    end.
Proof.
  intros Hok Hg. induction l1 as [|x l1 IH].
  - cbn [app scan]. unfold parse_record. now rewrite Hg.
  - assert (records st !! x <> Some Garbage) as Hx by (apply Hok; now left).
    specialize (IH (fun k Hk => Hok k (or_intror Hk))).
    cbn [app scan]. unfold parse_record.
    unfold resolve in *. cbn [omap list_omap].
    destruct (records st !! x) as [[|j]|]; [contradiction| |].
    + destruct (Json.truthy j); cbn [andb].
      * unfold first_with_digest in *. cbn [List.find].
        rewrite is_string_has_digest. now destruct (has_digest hash j).
      * exact IH.
    + cbn [Json.truthy andb]. exact IH.
Qed.

(** X17.  One damaged record blocks the store.  When the index lists an
    id whose stored text does not parse, and the texts of the ids before it
    parse, [save] never stores.  It leaves the storage as it was, and
    returns the [id] of the first record, among those listed before the
    damaged one, that carries the digest of the buffer; when none of them
    does, it fails with the SyntaxError of the scan. *)
Theorem save_blocked_by_damaged_record
    (c : clock) (meta : list (string * JSON)) (buffer : binary) (st : Storage)
    (l1 : list string) (id : string) (l2 : list string) :
  readIndex st = Ids (l1 ++ id :: l2) ->
  records st !! id = Some Garbage ->
  (forall k, In k l1 -> records st !! k <> Some Garbage) ->
  save c meta (Some buffer) st
  = (match first_with_digest (sha256Hex buffer) (resolve st l1) with
     | Some existing => Existing (Json.get "id" existing)
     | None => Raised SyntaxError
     end, st).
Proof.
  intros Hidx Hg Hok.
  rewrite (save_array c meta buffer st _ Hidx).
  rewrite (scan_until_damaged st _ l1 id l2 Hok Hg).
  now destruct (first_with_digest (sha256Hex buffer) (resolve st l1)).
Qed.

Lemma save_blocked_by_damaged_record_witness :
  readIndex blocked_store = Ids ([new_id clock0] ++ "CR_2_bbbb" :: ["CR_1_aaaa"]) /\
  records blocked_store !! "CR_2_bbbb" = Some Garbage /\
  save clock1 meta1 (Some (ArrayBuffer pdf_bytes)) blocked_store
  = (Existing (Some (JStr "CR_1700000000000_k3x9")), blocked_store) /\
  save clock1 meta1 (Some (ArrayBuffer other_bytes)) blocked_store
  = (Raised SyntaxError, blocked_store).
Proof.
  assert (readIndex blocked_store = Ids ([new_id clock0] ++ "CR_2_bbbb" :: ["CR_1_aaaa"]))
    as Hidx by reflexivity.
  assert (records blocked_store !! "CR_2_bbbb" = Some Garbage) as Hg
    by (vm_compute; reflexivity).
  assert (forall k, In k [new_id clock0] -> records blocked_store !! k <> Some Garbage) as Hok.
  { intros k [<- | []]. vm_compute. discriminate. }
  split; [exact Hidx|]. split; [exact Hg|]. split.
  - rewrite (save_blocked_by_damaged_record clock1 meta1 (ArrayBuffer pdf_bytes)
               blocked_store _ _ _ Hidx Hg Hok).
    vm_compute. reflexivity.
  - rewrite (save_blocked_by_damaged_record clock1 meta1 (ArrayBuffer other_bytes)
               blocked_store _ _ _ Hidx Hg Hok).
    vm_compute. reflexivity.
Defined.

Lemma pushed_eq id ids : pushed id ids = id :: firstn (cap - 1) ids.
Proof.
  unfold pushed. destruct (Nat.ltb_spec cap (length (id :: ids))) as [H | H].
  - reflexivity.
  - cbn [length] in H. f_equal. symmetry. apply firstn_all2. lia.
Qed.

Lemma resolve_cons st id ids :
  resolve st (id :: ids)
  = match records st !! id with
    | Some (Json j) => if Json.truthy j then j :: resolve st ids else resolve st ids
    | _ => resolve st ids
    end.
Proof.
  unfold resolve. cbn [omap list_omap].
  destruct (records st !! id) as [[|j]|]; try reflexivity.
  now destruct (Json.truthy j).
Qed.

Lemma resolve_cons_insert st st' id r ids :
  records st' = <[id := Json r]> (records st) ->
  Json.truthy r = true -> ~ In id ids ->
  resolve st' (id :: ids) = r :: resolve st ids.
Proof.
  intros Hrec Hr Hn. rewrite resolve_cons, Hrec, lookup_insert_eq, Hr. f_equal.
  apply resolve_ext. intros k Hk. rewrite Hrec.
  apply lookup_insert_ne. intros ->. contradiction.
Qed.

Lemma In_firstn {A} (x : A) n l : In x (firstn n l) -> In x l.
Proof.
  revert l; induction n as [|n IH]; intros [|y l] H; try destruct H.
  - now left.
  - right. now apply IH.
Qed.



Lemma made_by_empty P : made_by P empty.
Proof.
  exists []. split; [reflexivity|]. split; [cbn; unfold cap; lia | intros id []].
Qed.

Lemma made_by_call P o st :
  made_by P st -> saves P [o] = true -> made_by P (store_call o st).
Proof.
  intros (ids & Hidx & Hlen & Hrec) HP.
  destruct o as [c meta [buffer|] | id | ]; cbn [store_call].
  - cbn [saves forallb] in HP. rewrite andb_true_r in HP.
    rewrite (save_array c meta buffer st ids Hidx).
    destruct (scan st (sha256Hex buffer) ids); cbn [snd]; try (now exists ids).
    exists (pushed (new_id c) ids). split; [reflexivity|]. split; [apply pushed_length|].
    cbn [records]. intros k Hk. rewrite pushed_eq in Hk.
    destruct (String.eqb_spec k (new_id c)) as [-> | Hne].
    + rewrite lookup_insert_eq. now exists c, meta, buffer.
    + rewrite lookup_insert_ne by congruence. apply Hrec.
      destruct Hk as [E | Hk]; [congruence | now apply In_firstn in Hk].
  - now exists ids.
  - rewrite (deleteRecord_array id st ids Hidx). cbn [snd].
    exists (List.filter (fun x => negb (String.eqb x id)) ids).
    split; [reflexivity|]. split.
    + pose proof (filter_length_le (fun x => negb (String.eqb x id)) ids). lia.
    + intros k Hk. apply in_filter_other in Hk as [Hin Hne].
      cbn [records]. rewrite lookup_delete_ne by congruence. now apply Hrec.
  - unfold clearAll. rewrite Hidx. cbn [snd]. exists [].
    split; [reflexivity|]. split; [cbn; unfold cap; lia | intros k []].
Qed.

Lemma made_by_calls P ops : forall st,
  made_by P st -> saves P ops = true -> made_by P (store_calls ops st).
Proof.
  induction ops as [|o ops IH]; intros st H HP; [exact H|].
  cbn [saves forallb] in HP. apply andb_true_iff in HP as [Ho Hops].
  cbn [store_calls fold_left]. apply IH; [|exact Hops].
  apply made_by_call; [exact H|]. cbn [saves forallb]. now rewrite Ho.
Qed.


Lemma resolve_kept P st ids :
  (forall id, In id ids -> exists c meta buffer,
      P buffer = true /\ records st !! id = Some (Json (make_record c meta buffer))) ->
  length (resolve st ids) = length ids /\
  forall r, In r (resolve st ids) ->
    exists c meta buffer, P buffer = true /\ r = make_record c meta buffer.
Proof.
  induction ids as [|x ids IH]; intros H; [split; [reflexivity | intros r []]|].
  destruct (H x (or_introl eq_refl)) as (c & meta & buffer & HP & Hx).
  destruct IH as [Il Ir]; [intros k Hk; apply H; now right|].
  rewrite resolve_cons, Hx, make_record_truthy. split.
  - cbn [length]. now rewrite Il.
  - intros r [<- | Hr]; [now exists c, meta, buffer | now apply Ir].
Qed.

Lemma rebuildPdf_make_record c meta buffer :
  rebuildPdf (make_record c meta buffer) = inr (rebuilt (bytes_of buffer)).
Proof.
  destruct (bytes_of buffer) as [|x l] eqn:E.
  - unfold rebuildPdf, make_record. cbn [Json.get Json.lookup String.eqb Ascii.eqb Bool.eqb].
    rewrite E. reflexivity.
  - rewrite <- E. replace (rebuilt (bytes_of buffer)) with (Some (bytes_of buffer))
      by (now rewrite E).
    apply rebuildPdf_payload; [rewrite E; discriminate | reflexivity].
Qed.



Lemma sublist_omap {A B} (f : A -> option B) (l1 l2 : list A) :
  l1 `sublist_of` l2 -> omap f l1 `sublist_of` omap f l2.
Proof.
  induction 1 as [|x l1 l2 _ IH|x l1 l2 _ IH]; cbn [omap list_omap].
  - constructor.
  - destruct (f x); [now constructor | exact IH].
  - destruct (f x); [now constructor | exact IH].
Qed.

Lemma sublist_List_filter {A} (p : A -> bool) (l : list A) : List.filter p l `sublist_of` l.
Proof.
  induction l as [|x l IH]; [constructor|]. cbn [List.filter].
  destruct (p x); now constructor.
Qed.

Lemma listed_sublist st st' ids :
  ids `sublist_of` listed st ->
  (forall k, In k ids -> records st' !! k = records st !! k) ->
  omap record_digest (resolve st' ids) `sublist_of` listed_digests st.
Proof.
  intros Hsub Hext. rewrite (resolve_ext st st' ids Hext).
  unfold listed_digests, resolve. now do 2 apply sublist_omap.
Qed.

Lemma call_keeps_digests_distinct o st :
  NoDup (listed_digests st) ->
  match o with
  | call_save c _ _ => ~ In (new_id c) (listed st)
  | _ => True
  end ->
  NoDup (listed_digests (store_call o st)).
Proof.
  intros Hnd Hfresh. destruct o as [c meta [buffer|] | id | ]; cbn [store_call].
  - destruct (save_cases c meta buffer st)
      as [(e & ->) | [(existing & ->) | [(Hidx & Hs & ->) | (s & Hs & ->)]]];
      cbn [snd]; try exact Hnd.
    + destruct (scan_NotFound _ _ _ Hs) as [_ Hdig].
      assert (~ In (new_id c) (firstn (cap - 1) (listed st))) as Hn
        by (intros H; apply Hfresh; now apply In_firstn in H).
      unfold listed_digests at 1.
      change (listed (MkStorage (Some (IndexIds (pushed (new_id c) (listed st)))) _))
        with (pushed (new_id c) (listed st)).
      rewrite pushed_eq.
      rewrite (resolve_cons_insert st _ (new_id c) (make_record c meta buffer))
        by (reflexivity || exact Hn).
      cbn [omap list_omap]. change (record_digest (make_record c meta buffer))
        with (Some (sha256Hex buffer)). cbv iota.
      assert (omap record_digest (resolve st (firstn (cap - 1) (listed st)))
                `sublist_of` listed_digests st) as Hsub
        by (apply listed_sublist; [apply sublist_take | reflexivity]).
      apply NoDup_cons. split.
      * intros Hin. apply (fun H => elem_of_sublist _ _ _ H Hsub) in Hin.
        unfold listed_digests in Hin. apply list_elem_of_omap in Hin as (r & Hr & Hd).
        apply list_elem_of_In in Hr. exact (Hdig r Hr Hd).
      * exact (sublist_NoDup _ _ Hnd Hsub).
    + unfold listed_digests, listed.
      change (readIndex (MkStorage (index st) _)) with (readIndex st). rewrite Hs.
      constructor.
  - exact Hnd.
  - unfold listed_digests at 1. rewrite listed_deleteRecord.
    refine (sublist_NoDup _ _ Hnd _). apply listed_sublist.
    + apply sublist_List_filter.
    + intros k Hk. apply in_filter_other in Hk as [_ Hk]. rewrite records_deleteRecord.
      now apply lookup_delete_ne.
  - unfold clearAll. destruct (readIndex st) as [ids|s|] eqn:E; cbn [snd]; [|exact Hnd|exact Hnd].
    unfold listed_digests. cbn. constructor.
Qed.

Lemma calls_keep_digests_distinct ops : forall st,
  NoDup (listed_digests st) -> fresh_ids ops st = true ->
  NoDup (listed_digests (store_calls ops st)).
Proof.
  induction ops as [|o ops IH]; intros st Hnd Hfresh; [exact Hnd|].
  cbn [store_calls fold_left]. cbn [fresh_ids] in Hfresh.
  apply andb_true_iff in Hfresh as [Ho Hrest].
  apply IH; [|exact Hrest]. apply call_keeps_digests_distinct; [exact Hnd|].
  destruct o as [c meta blob | |]; [|exact I | exact I].
  intros Hin. apply existsb_eqb_In in Hin. rewrite Hin in Ho. discriminate.
Qed.

Lemma rebuilt_inj a b : rebuilt a = rebuilt b -> a = b.
Proof. destruct a, b; cbn; congruence. Qed.

Lemma whole_underlying buffer : whole buffer = true -> underlying buffer = bytes_of buffer.
Proof.
  destruct buffer as [bytes|[|x before] elements [|y after]]; try discriminate;
    intros _; [reflexivity|]. cbn. apply app_nil_r.
Qed.

(** Records of whole buffers with different digests rebuild to different
    bytes. *)
Lemma distinct_digests_distinct_bytes (rs : list JSON) :
  (forall r, In r rs ->
     exists c meta buffer, whole buffer = true /\ r = make_record c meta buffer) ->
  NoDup (omap record_digest rs) -> NoDup (List.map rebuildPdf rs).
Proof.
  induction rs as [|r rs IH]; intros Hrs Hnd; [constructor|].
  destruct (Hrs r (or_introl eq_refl)) as (c & meta & buffer & Hw & ->).
  cbn [omap list_omap] in Hnd.
  change (record_digest (make_record c meta buffer)) with (Some (sha256Hex buffer)) in Hnd.
  cbv iota in Hnd. apply NoDup_cons in Hnd as [Hout Hnd].
  cbn [List.map]. apply NoDup_cons. split.
  - intros Hin. apply Hout. apply list_elem_of_In in Hin.
    apply in_map_iff in Hin as (r' & Heq & Hr').
    destruct (Hrs r' (or_intror Hr')) as (c' & meta' & buffer' & Hw' & ->).
    rewrite !rebuildPdf_make_record in Heq. injection Heq as Heq.
    apply rebuilt_inj in Heq.
    apply list_elem_of_omap. exists (make_record c' meta' buffer').
    split; [now apply list_elem_of_In|].
    change (record_digest (make_record c' meta' buffer')) with (Some (sha256Hex buffer')).
    unfold sha256Hex. now rewrite (whole_underlying _ Hw), (whole_underlying _ Hw'), Heq.
  - apply IH; [|exact Hnd]. intros r' Hr'. apply Hrs. now right.
Qed.

(** X20.  No digest is listed twice.  In a run of [save], [deleteRecord]
    (of record ids) and [clearAll] calls in which no [save] draws an id that
    the index already holds, the records that the index lists keep pairwise
    different digests if they had them at the start.  When moreover every
    buffer, of the records at the start and of the saves of the run, is its
    whole underlying buffer (an ArrayBuffer, or a Uint8Array over all of
    one), the listed records rebuild to pairwise different bytes: the
    history does not show the same bytes twice. *)
Theorem history_lists_no_digest_twice (ops : list store_op) (st : Storage) :
  NoDup (listed_digests st) ->
  record_ids ops = true ->
  fresh_ids ops st = true ->
  NoDup (listed_digests (store_calls ops st)) /\
  (made_by whole st -> saves whole ops = true ->
   NoDup (List.map rebuildPdf (resolve (store_calls ops st) (listed (store_calls ops st))))).
Proof.
  intros Hnd _ Hfresh.
  pose proof (calls_keep_digests_distinct ops st Hnd Hfresh) as Hnd'.
  split; [exact Hnd'|]. intros Hst Hops.
  destruct (made_by_calls whole ops st Hst Hops) as (ids & Hidx & _ & Hrec).
  apply distinct_digests_distinct_bytes; [|exact Hnd'].
  rewrite (listed_Ids _ ids Hidx).
  apply (resolve_kept whole _ ids Hrec).
Qed.

Lemma history_lists_no_digest_twice_witness :
  NoDup (listed_digests empty) /\
  record_ids sample_calls = true /\
  fresh_ids sample_calls empty = true /\
  made_by whole empty /\
  saves whole sample_calls = true /\
  length (listed_digests (store_calls sample_calls empty)) = 2%nat /\
  NoDup (listed_digests (store_calls sample_calls empty)) /\
  NoDup (List.map rebuildPdf
           (resolve (store_calls sample_calls empty) (listed (store_calls sample_calls empty)))).
Proof.
  assert (NoDup (listed_digests empty)) as H0 by constructor.
  assert (fresh_ids sample_calls empty = true) as H1 by (vm_compute; reflexivity).
  destruct (history_lists_no_digest_twice sample_calls empty H0 eq_refl H1) as [H2 H3].
  split; [exact H0|]. split; [reflexivity|]. split; [exact H1|].
  split; [exact (made_by_empty whole)|]. split; [reflexivity|].
  split; [vm_compute; reflexivity|]. split; [exact H2|].
  exact (H3 (made_by_empty whole) eq_refl).
Defined.

Lemma encode_length l : length (Base64.encode l) = (4 * ((length l + 2) / 3))%nat.
Proof.
  induction l as [|a|a b|a b c rest IH] using triple_ind.
  - reflexivity.
  - destruct a. reflexivity.
  - destruct a, b. reflexivity.
  - unfold Base64.encode in *. cbn [Base64.sextets_of_bytes Base64.padding].
    destruct (Base64.split3 a b c) as [[[p q] r] s].
    cbn [List.map app length]. rewrite IH.
    replace (S (S (S (length rest))) + 2)%nat with (length rest + 2 + 1 * 3)%nat by lia.
    rewrite Nat.div_add by lia. lia.
Qed.

Lemma length_string_of_list_ascii l : String.length (string_of_list_ascii l) = length l.
Proof. induction l as [|x l IH]; [reflexivity|]. cbn. now rewrite IH. Qed.

Lemma length_list_ascii_of_bytes (bytes : list byte) :
  length (list_ascii_of_string (string_of_list_byte bytes)) = length bytes.
Proof.
  unfold string_of_list_byte.
  now rewrite list_ascii_of_string_of_list_ascii, length_map.
Qed.

(** X21.  The stored payload.  Whatever the length of the buffer, the
    chunked loop of [save] loses nothing: the [pdfBase64] of the record is a
    text of 4 characters for every 3 bytes of the buffer, rounded up, that
    [atob] decodes to exactly the bytes of the buffer. *)
Theorem payload_of_saved_record
    (c : clock) (meta : list (string * JSON)) (buffer : binary) :
  exists payload,
    Json.get "pdfBase64" (make_record c meta buffer) = Some (JStr payload) /\
    String.length payload = (4 * ((byteLength buffer + 2) / 3))%nat /\
    Base64.atob payload = Some (string_of_list_byte (bytes_of buffer)).
Proof.
  exists (Base64.btoa (binary_string (bytes_of buffer))). split; [reflexivity|].
  rewrite binary_string_spec. split; [|apply atob_btoa].
  unfold Base64.btoa, byteLength.
  now rewrite length_string_of_list_ascii, encode_length, length_list_ascii_of_bytes.
Qed.

End HistoryFacts.

(* ===================================================================== *)
(** ** Properties of the DataStore *)
(* ===================================================================== *)

Section DataStoreFacts.

Lemma getItem_setItem_eq k v m : DataStore.getItem k (DataStore.setItem k v m) = Some v.
Proof.
  induction m as [|[k' v'] m IH]; cbn [DataStore.setItem DataStore.getItem].
  - now rewrite String.eqb_refl.
  - destruct (String.eqb k' k) eqn:E; cbn [DataStore.getItem].
    + now rewrite String.eqb_refl.
    + now rewrite E.
Qed.

Lemma getItem_setItem_ne k k' v m :
  k' <> k -> DataStore.getItem k' (DataStore.setItem k v m) = DataStore.getItem k' m.
Proof.
  intros Hne. induction m as [|[k0 v0] m IH]; cbn [DataStore.setItem DataStore.getItem].
  - destruct (String.eqb_spec k k'); [congruence | reflexivity].
  - destruct (String.eqb_spec k0 k) as [-> | E]; cbn [DataStore.getItem].
    + destruct (String.eqb_spec k k'); [congruence | reflexivity].
    + destruct (String.eqb_spec k0 k'); [reflexivity | exact IH].
Qed.

Lemma getItem_removeItem k k' m :
  DataStore.getItem k' (DataStore.removeItem k m)
  = if String.eqb k' k then None else DataStore.getItem k' m.
Proof.
  induction m as [|[k0 v0] m IH]; cbn [DataStore.removeItem List.filter DataStore.getItem fst].
  - now destruct (String.eqb k' k).
  - fold (DataStore.removeItem k m).
    destruct (String.eqb_spec k0 k) as [-> | E]; cbn [negb DataStore.getItem].
    + rewrite IH. destruct (String.eqb_spec k' k) as [-> | E'].
      * reflexivity.
      * destruct (String.eqb_spec k k'); [congruence | reflexivity].
    + rewrite IH. destruct (String.eqb_spec k0 k') as [-> | E'].
      * destruct (String.eqb_spec k' k); [congruence | reflexivity].
      * reflexivity.
Qed.

Lemma entries_with_entries m ds :
  DataStore.entries (DataStore.with_entries m ds) = if backed ds then m else [].
Proof.
  unfold backed, DataStore.entries, DataStore.with_entries, DataStore.is_local,
    DataStore.is_memory.
  destruct (String.eqb (DataStore.storageType ds) "localStorage") eqn:El.
  - cbn. now rewrite El.
  - destruct (String.eqb (DataStore.storageType ds) "memory") eqn:Em.
    + cbn. now rewrite El, Em.
    + now rewrite El, Em.
Qed.

Lemma unbacked_entries m ds :
  backed ds = false -> DataStore.entries ds = [] /\ DataStore.with_entries m ds = ds.
Proof.
  unfold backed, DataStore.entries, DataStore.with_entries.
  intros H. apply orb_false_iff in H as [-> ->]. now split.
Qed.

Lemma backed_with_entries m ds : backed (DataStore.with_entries m ds) = backed ds.
Proof.
  unfold backed, DataStore.with_entries, DataStore.is_local, DataStore.is_memory.
  destruct (String.eqb (DataStore.storageType ds) "localStorage") eqn:El; cbn;
    [now rewrite El|].
  destruct (String.eqb (DataStore.storageType ds) "memory") eqn:Em; cbn;
    [now rewrite El, Em | now rewrite El, Em].
Qed.

(** The state after a [save] of a plain value. *)
Lemma save_plain collection id data setItem_throws ds w :
  DataStore.save collection id (DataStore.Plain data) setItem_throws ds w
  = (if DataStore.is_local ds && setItem_throws then (inr false, ds)
     else (inr true,
           DataStore.with_entries
             (DataStore.setItem (DataStore.key collection id)
                (HistoryStorage.Json
                   (JObj [ ("data", data); ("timestamp", JStr (date_stream w (dates_used w)));
                           ("version", JNum 1) ]))
                (DataStore.entries ds)) ds),
     snd (now_iso w)).
Proof.
  unfold DataStore.save, bind, DataStore.serialize.
  now destruct (DataStore.is_local ds && setItem_throws).
Qed.

(** X22.  What is saved can be loaded.  On a store with a storage behind
    it, [save] of a plain value returns [false] exactly when the store
    writes to [localStorage] and the write throws, and then leaves the store
    as it was; in every other case, so always on a memory store, it returns
    [true], and [load] of the same collection and id then returns the value.
    After [delete], [load] returns [null].  A [load] under any other key is
    not affected by the [save]. *)
Theorem save_then_load
    (collection id : string) (data : JSON) (setItem_throws : bool)
    (ds : DataStore.state) (w : World) :
  backed ds = true ->
  fst (fst (DataStore.save collection id (DataStore.Plain data) setItem_throws ds w))
  = inr (negb (DataStore.is_local ds && setItem_throws)) /\
  (fst (fst (DataStore.save collection id (DataStore.Plain data) setItem_throws ds w))
   = inr false ->
   snd (fst (DataStore.save collection id (DataStore.Plain data) setItem_throws ds w)) = ds) /\
  (fst (fst (DataStore.save collection id (DataStore.Plain data) setItem_throws ds w))
   = inr true ->
   DataStore.load collection id
     (snd (fst (DataStore.save collection id (DataStore.Plain data) setItem_throws ds w)))
   = Some data) /\
  DataStore.load collection id
    (snd (DataStore.delete collection id
            (snd (fst (DataStore.save collection id (DataStore.Plain data)
                         setItem_throws ds w)))))
  = Some JNull /\
  (forall collection' id',
      DataStore.key collection' id' <> DataStore.key collection id ->
      DataStore.load collection' id'
        (snd (fst (DataStore.save collection id (DataStore.Plain data) setItem_throws ds w)))
      = DataStore.load collection' id' ds).
Proof.
  intros Hb. rewrite save_plain. cbn [fst].
  destruct (DataStore.is_local ds && setItem_throws); cbn [fst snd negb].
  - split; [reflexivity|]. split; [reflexivity|]. split; [discriminate|]. split.
    + unfold DataStore.load, DataStore.delete. cbn [snd].
      rewrite entries_with_entries, Hb, getItem_removeItem.
      now rewrite String.eqb_refl.
    + reflexivity.
  - split; [reflexivity|]. split; [discriminate|]. split; [|split].
    + intros _. unfold DataStore.load.
      now rewrite entries_with_entries, Hb, getItem_setItem_eq.
    + unfold DataStore.load, DataStore.delete. cbn [snd].
      rewrite entries_with_entries, backed_with_entries, Hb, getItem_removeItem.
      now rewrite String.eqb_refl.
    + intros c' id' Hne. unfold DataStore.load.
      now rewrite entries_with_entries, Hb, getItem_setItem_ne.
Qed.

Lemma save_then_load_witness :
  backed memory_store = true /\ backed local_store = true /\
  fst (fst (DataStore.save "test" "item1" (DataStore.Plain payload_ab) true memory_store world0))
  = inr true /\
  DataStore.load "test" "item1"
    (snd (fst (DataStore.save "test" "item1" (DataStore.Plain payload_ab) true
                 memory_store world0)))
  = Some payload_ab /\
  DataStore.load "test" "item2"
    (snd (fst (DataStore.save "test" "item1" (DataStore.Plain payload_ab) true
                 memory_store world0)))
  = Some JNull /\
  fst (DataStore.save "test" "item1" (DataStore.Plain payload_ab) true local_store world0)
  = (inr false, local_store) /\
  DataStore.load "test" "item1"
    (snd (fst (DataStore.save "test" "item1" (DataStore.Plain payload_ab) false
                 local_store world0)))
  = Some payload_ab.
Proof.
  assert (backed memory_store = true) as Hb by reflexivity.
  assert (backed local_store = true) as Hl by reflexivity.
  destruct (save_then_load "test" "item1" payload_ab true memory_store world0 Hb)
    as (H1 & _ & H3 & _ & H5).
  destruct (save_then_load "test" "item1" payload_ab true local_store world0 Hl)
    as (L1 & L2 & _).
  destruct (save_then_load "test" "item1" payload_ab false local_store world0 Hl)
    as (F1 & _ & F3 & _).
  split; [exact Hb|]. split; [exact Hl|]. split; [exact H1|].
  split; [exact (H3 H1)|]. split.
  - rewrite H5; [reflexivity | vm_compute; discriminate].
  - split; [|exact (F3 F1)].
    rewrite (surjective_pairing (fst (DataStore.save _ _ _ _ _ _))).
    now rewrite (L2 L1), L1.
Defined.

Lemma append_inj_l (a x y : string) : a +:+ x = a +:+ y -> x = y.
Proof.
  induction a as [|c a IH]; [trivial|]. rewrite !append_cons. intros [= H]. now apply IH.
Qed.

Lemma no_underscore_cons c s :
  no_underscore (String c s) = true -> c <> "_"%char /\ no_underscore s = true.
Proof.
  unfold no_underscore. cbn [list_ascii_of_string forallb]. intros H.
  apply andb_true_iff in H as [Hc Hs]. split; [|exact Hs].
  intros ->. discriminate.
Qed.

(** A name without underscore ends at the first underscore of a key. *)
Lemma split_at_underscore c1 : forall c2 r1 r2,
  no_underscore c1 = true -> no_underscore c2 = true ->
  c1 +:+ String "_" r1 = c2 +:+ String "_" r2 -> c1 = c2 /\ r1 = r2.
Proof.
  induction c1 as [|x c1 IH]; intros [|y c2] r1 r2 H1 H2 E.
  - cbn in E. injection E as ->. now split.
  - rewrite append_cons in E. cbn in E. injection E as <- _.
    apply no_underscore_cons in H2 as [H2 _]. congruence.
  - rewrite append_cons in E. cbn in E. injection E as -> _.
    apply no_underscore_cons in H1 as [H1 _]. congruence.
  - rewrite !append_cons in E. injection E as -> E.
    apply no_underscore_cons in H1 as [_ H1]. apply no_underscore_cons in H2 as [_ H2].
    destruct (IH c2 r1 r2 H1 H2 E) as [-> ->]. now split.
Qed.

Lemma key_inj c1 c2 id1 id2 :
  no_underscore c1 = true -> no_underscore c2 = true ->
  DataStore.key c1 id1 = DataStore.key c2 id2 -> c1 = c2 /\ id1 = id2.
Proof.
  intros H1 H2 E. unfold DataStore.key in E. apply append_inj_l in E.
  exact (split_at_underscore c1 c2 id1 id2 H1 H2 E).
Qed.

Lemma prefix_cons a s1 b s2 :
  String.prefix (String a s1) (String b s2) = true <-> a = b /\ String.prefix s1 s2 = true.
Proof.
  cbn [String.prefix]. destruct (ascii_dec a b) as [-> | Hne].
  - split; [intros H; now split | intros [_ H]; exact H].
  - split; [discriminate | intros [E _]; contradiction].
Qed.

Lemma prefix_append p s : String.prefix p (p +:+ s) = true.
Proof.
  induction p as [|c p IH]; [now destruct s|].
  rewrite append_cons. apply prefix_cons. now split.
Qed.

Lemma prefix_append_inv a x y :
  String.prefix (a +:+ x) (a +:+ y) = String.prefix x y.
Proof.
  induction a as [|c a IH]; [reflexivity|]. rewrite !append_cons.
  cbn [String.prefix]. destruct (ascii_dec c c); [exact IH | contradiction].
Qed.

Lemma prefix_underscore c1 : forall c2 r,
  no_underscore c1 = true -> no_underscore c2 = true ->
  String.prefix (c1 +:+ "_") (c2 +:+ String "_" r) = true -> c1 = c2.
Proof.
  induction c1 as [|x c1 IH]; intros [|y c2] r H1 H2 E.
  - reflexivity.
  - rewrite append_cons in E. cbn [String.append] in E. apply prefix_cons in E as [<- _].
    apply no_underscore_cons in H2 as [H2 _]. congruence.
  - rewrite append_cons in E. cbn [String.append] in E. apply prefix_cons in E as [-> _].
    apply no_underscore_cons in H1 as [H1 _]. congruence.
  - rewrite !append_cons in E. apply prefix_cons in E as [-> E].
    apply no_underscore_cons in H1 as [_ H1]. apply no_underscore_cons in H2 as [_ H2].
    now rewrite (IH c2 r H1 H2 E).
Qed.

(** The entries that [clear] leaves. *)
Lemma filter_filter {A} (p q : A -> bool) l :
  List.filter p (List.filter q l) = List.filter (fun x => q x && p x) l.
Proof.
  induction l as [|x l IH]; [reflexivity|]. cbn [List.filter].
  destruct (q x); cbn [List.filter andb]; [destruct (p x)|]; now rewrite IH.
Qed.

Lemma fold_removeItem ks : forall m : DataStore.kv,
  fold_left (fun m k => DataStore.removeItem k m) ks m
  = List.filter (fun p => negb (existsb (String.eqb (fst p)) ks)) m.
Proof.
  induction ks as [|k ks IH]; intros m; cbn [fold_left existsb].
  - symmetry. now apply forallb_filter_id, forallb_forall.
  - rewrite IH. unfold DataStore.removeItem. rewrite filter_filter.
    apply filter_ext. intros p. now rewrite negb_orb.
Qed.

Lemma cleared_entries pattern (m : DataStore.kv) :
  fold_left (fun m k => DataStore.removeItem k m)
            (List.map fst (List.filter (fun p => String.prefix pattern (fst p)) m)) m
  = List.filter (fun p => negb (String.prefix pattern (fst p))) m.
Proof.
  rewrite fold_removeItem. apply filter_ext_in. intros p Hp. f_equal.
  destruct (String.prefix pattern (fst p)) eqn:E.
  - apply existsb_exists. exists (fst p). split; [|apply String.eqb_refl].
    apply in_map. apply filter_In. now split.
  - destruct (existsb _ _) eqn:Ex; [|reflexivity].
    apply existsb_exists in Ex as (k & Hk & Ek). apply String.eqb_eq in Ek. subst k.
    apply in_map_iff in Hk as (q & Hq & Hin). apply filter_In in Hin as [_ Hin].
    rewrite Hq in Hin. congruence.
Qed.

Lemma getItem_cleared pattern (m : DataStore.kv) k :
  DataStore.getItem k (List.filter (fun p => negb (String.prefix pattern (fst p))) m)
  = if String.prefix pattern k then None else DataStore.getItem k m.
Proof.
  induction m as [|[k0 v0] m IH]; cbn [List.filter DataStore.getItem fst].
  - now destruct (String.prefix pattern k).
  - destruct (String.prefix pattern k0) eqn:E0; cbn [negb DataStore.getItem].
    + rewrite IH. destruct (String.eqb_spec k0 k) as [-> | Hne]; [now rewrite E0 | reflexivity].
    + rewrite IH. destruct (String.eqb_spec k0 k) as [-> | Hne]; [now rewrite E0 | reflexivity].
Qed.

Lemma query_loop_none pattern (m : DataStore.kv) acc :
  (forall p, In p m -> String.prefix pattern (fst p) = false) ->
  DataStore.query_loop pattern m acc = acc.
Proof.
  induction m as [|[k v] m IH]; intros H; [reflexivity|].
  pose proof (H (k, v) (or_introl eq_refl)) as Hk. cbn [fst] in Hk.
  cbn [DataStore.query_loop]. rewrite Hk.
  apply IH. intros p Hp. apply H. now right.
Qed.

Lemma clear_entries collection ds :
  DataStore.entries (snd (DataStore.clear collection ds))
  = List.filter (fun p => negb (String.prefix (DataStore.prefix +:+ collection +:+ "_") (fst p)))
                (DataStore.entries ds).
Proof.
  unfold DataStore.clear. cbn [snd]. rewrite entries_with_entries, cleared_entries.
  destruct (backed ds) eqn:Hb; [reflexivity|].
  now rewrite (proj1 (unbacked_entries [] ds Hb)).
Qed.

(** X23.  What [clear] removes.  After [clear(collection)] every [load]
    from the collection returns [null] and [query] of it returns nothing.
    The entries removed are those whose key starts with the collection's
    pattern: a [load] under a key that does not start with it is not
    affected. *)
Theorem clear_empties_collection (collection : string) (ds : DataStore.state) :
  fst (DataStore.clear collection ds) = true /\
  (forall id, DataStore.load collection id (snd (DataStore.clear collection ds)) = Some JNull) /\
  DataStore.query collection (snd (DataStore.clear collection ds)) = [] /\
  (forall collection' id',
      String.prefix (DataStore.prefix +:+ collection +:+ "_") (DataStore.key collection' id')
      = false ->
      DataStore.load collection' id' (snd (DataStore.clear collection ds))
      = DataStore.load collection' id' ds).
Proof.
  split; [reflexivity|]. split; [|split].
  - intros id. unfold DataStore.load. rewrite clear_entries, getItem_cleared.
    unfold DataStore.key.
    replace (DataStore.prefix +:+ collection +:+ "_" +:+ id)
      with ((DataStore.prefix +:+ collection +:+ "_") +:+ id)
      by (now rewrite !append_assoc).
    now rewrite prefix_append.
  - unfold DataStore.query. rewrite clear_entries.
    apply query_loop_none. intros p Hp. apply filter_In in Hp as [_ Hp].
    now apply negb_true_iff in Hp.
  - intros c' id' Hp. unfold DataStore.load.
    now rewrite clear_entries, getItem_cleared, Hp.
Qed.

Lemma clear_empties_collection_witness :
  DataStore.load "test" "item1"
    (snd (fst (DataStore.save "test" "item1" (DataStore.Plain payload_ab) false memory_store world0)))
  = Some payload_ab /\
  DataStore.load "test" "item1"
    (snd (DataStore.clear "test"
       (snd (fst (DataStore.save "test" "item1" (DataStore.Plain payload_ab) false
                    memory_store world0)))))
  = Some JNull /\
  DataStore.load "tests" "item1"
    (snd (DataStore.clear "test"
       (snd (fst (DataStore.save "tests" "item1" (DataStore.Plain payload_ab) false
                    memory_store world0)))))
  = Some payload_ab.
Proof.
  split; [vm_compute; reflexivity|]. split.
  - apply (clear_empties_collection "test"
             (snd (fst (DataStore.save "test" "item1" (DataStore.Plain payload_ab) false
                          memory_store world0)))).
  - destruct (clear_empties_collection "test"
                (snd (fst (DataStore.save "tests" "item1" (DataStore.Plain payload_ab) false
                             memory_store world0)))) as (_ & _ & _ & H).
    rewrite H; vm_compute; reflexivity.
Defined.

(** X24.  Collections whose names have no underscore are separate.  For
    two different such names no key of one is a key of the other, and a
    [save], a [delete] or a [clear] in one leaves every [load] from the
    other as it was. *)
Theorem collections_are_separate
    (c1 c2 : string) (ds : DataStore.state) :
  no_underscore c1 = true -> no_underscore c2 = true -> c1 <> c2 ->
  (forall id1 id2, DataStore.key c1 id1 <> DataStore.key c2 id2) /\
  (forall id1 id2 data setItem_throws w,
      DataStore.load c2 id2
        (snd (fst (DataStore.save c1 id1 (DataStore.Plain data) setItem_throws ds w)))
      = DataStore.load c2 id2 ds) /\
  (forall id1 id2,
      DataStore.load c2 id2 (snd (DataStore.delete c1 id1 ds)) = DataStore.load c2 id2 ds) /\
  (forall id2,
      DataStore.load c2 id2 (snd (DataStore.clear c1 ds)) = DataStore.load c2 id2 ds).
Proof.
  intros H1 H2 Hne.
  assert (forall id1 id2, DataStore.key c1 id1 <> DataStore.key c2 id2) as Hkey.
  { intros id1 id2 E. now apply key_inj in E as [E _]. }
  split; [exact Hkey|]. split; [|split].
  - intros id1 id2 data setItem_throws w. rewrite save_plain. cbn [fst].
    destruct (DataStore.is_local ds && setItem_throws); cbn [snd]; [reflexivity|].
    unfold DataStore.load.
    rewrite entries_with_entries. destruct (backed ds) eqn:Hb.
    + rewrite getItem_setItem_ne; [reflexivity|].
      intros E. exact (Hkey id1 id2 (eq_sym E)).
    + now rewrite (proj1 (unbacked_entries [] ds Hb)).
  - intros id1 id2. unfold DataStore.load, DataStore.delete. cbn [snd].
    rewrite entries_with_entries. destruct (backed ds) eqn:Hb.
    + rewrite getItem_removeItem.
      destruct (String.eqb_spec (DataStore.key c2 id2) (DataStore.key c1 id1)) as [E | _];
        [|reflexivity].
      now apply eq_sym, Hkey in E.
    + now rewrite (proj1 (unbacked_entries [] ds Hb)).
  - intros id2. unfold DataStore.load. rewrite clear_entries, getItem_cleared.
    destruct (String.prefix _ _) eqn:E; [|reflexivity].
    unfold DataStore.key in E. rewrite prefix_append_inv in E.
    now apply prefix_underscore in E.
Qed.

Lemma collections_are_separate_witness :
  DataStore.key "contracts" "c1" <> DataStore.key "blocks" "c1" /\
  DataStore.load "blocks" "b1"
    (snd (DataStore.clear "contracts"
       (snd (fst (DataStore.save "blocks" "b1" (DataStore.Plain payload_ab) false
                    memory_store world0)))))
  = Some payload_ab.
Proof.
  destruct (collections_are_separate "contracts" "blocks"
              (snd (fst (DataStore.save "blocks" "b1" (DataStore.Plain payload_ab) false
                           memory_store world0))))
    as (H1 & _ & _ & H4); try reflexivity; [discriminate|].
  split; [apply H1|]. rewrite H4. vm_compute. reflexivity.
Defined.

(** X25.  A name with an underscore overlaps another collection.  The
    entry that is saved in collection [c_s] under [id] is the entry of
    collection [c] under [s_id]: once [save] has returned [true] it is
    loaded from there, and [clear(c)] removes it. *)
Theorem underscore_names_overlap
    (c s id : string) (data : JSON) (setItem_throws : bool)
    (ds : DataStore.state) (w : World) :
  backed ds = true ->
  DataStore.key (c +:+ "_" +:+ s) id = DataStore.key c (s +:+ "_" +:+ id) /\
  (fst (fst (DataStore.save (c +:+ "_" +:+ s) id (DataStore.Plain data) setItem_throws ds w))
   = inr true ->
   DataStore.load c (s +:+ "_" +:+ id)
     (snd (fst (DataStore.save (c +:+ "_" +:+ s) id (DataStore.Plain data)
                  setItem_throws ds w)))
   = Some data) /\
  DataStore.load (c +:+ "_" +:+ s) id
    (snd (DataStore.clear c
       (snd (fst (DataStore.save (c +:+ "_" +:+ s) id (DataStore.Plain data)
                    setItem_throws ds w)))))
  = Some JNull.
Proof.
  intros Hb.
  assert (DataStore.key (c +:+ "_" +:+ s) id = DataStore.key c (s +:+ "_" +:+ id)) as Hk.
  { unfold DataStore.key. f_equal. now rewrite !append_assoc. }
  split; [exact Hk|]. split.
  - rewrite save_plain. cbn [fst].
    destruct (DataStore.is_local ds && setItem_throws); cbn [fst snd]; [discriminate|].
    intros _. unfold DataStore.load.
    now rewrite entries_with_entries, Hb, <- Hk, getItem_setItem_eq.
  - unfold DataStore.load.
    rewrite clear_entries, getItem_cleared, Hk. unfold DataStore.key.
    replace (DataStore.prefix +:+ c +:+ "_" +:+ s +:+ "_" +:+ id)
      with ((DataStore.prefix +:+ c +:+ "_") +:+ s +:+ "_" +:+ id)
      by (now rewrite !append_assoc).
    now rewrite prefix_append.
Qed.

Lemma underscore_names_overlap_witness :
  backed local_store = true /\
  fst (fst (DataStore.save "user_profile" "7" (DataStore.Plain payload_ab) false
              local_store world0))
  = inr true /\
  DataStore.load "user" "profile_7"
    (snd (fst (DataStore.save "user_profile" "7" (DataStore.Plain payload_ab) false
                 local_store world0)))
  = Some payload_ab.
Proof.
  split; [reflexivity|]. split; [reflexivity|].
  exact (proj1 (proj2 (underscore_names_overlap "user" "profile" "7" payload_ab false
                         local_store world0 eq_refl)) eq_refl).
Defined.

(** X26.  When [save] does not store.  With a [storageType] other than
    the two that the class knows, [save] still returns [true], but nothing
    is written, and [load] and [query] find nothing.  And [save] of a model
    instance does not return at all: [JSON.stringify] runs before the [try]
    and ends in the RangeError of the instance's [toJSON], with the store
    as it was. *)
Theorem save_without_storing
    (collection id : string) (ds : DataStore.state) (w : World) :
  (backed ds = false ->
     forall data setItem_throws,
       fst (DataStore.save collection id (DataStore.Plain data) setItem_throws ds w)
       = (inr true, ds) /\
       (forall collection' id', DataStore.load collection' id' ds = Some JNull) /\
       (forall collection', DataStore.query collection' ds = [])) /\
  (forall own setItem_throws,
     fst (DataStore.save collection id (DataStore.Instance own) setItem_throws ds w)
     = (inl RangeError, ds)).
Proof.
  split.
  - intros Hb data setItem_throws. destruct (unbacked_entries [] ds Hb) as [He _].
    split; [|split].
    + rewrite save_plain. cbn [fst].
      replace (DataStore.is_local ds) with false
        by (unfold backed in Hb; now apply orb_false_iff in Hb as [-> _]).
      cbn [andb]. f_equal. now apply unbacked_entries.
    + intros c' id'. unfold DataStore.load. now rewrite He.
    + intros c'. unfold DataStore.query. now rewrite He.
  - intros own setItem_throws. unfold DataStore.save, bind, DataStore.serialize.
    unfold BaseModel.toJSON. now rewrite toJSON_at_raises.
Qed.

Lemma save_without_storing_witness :
  backed indexed_store = false /\
  fst (DataStore.save "contracts" "c1" (DataStore.Plain payload_ab) true indexed_store world0)
  = (inr true, indexed_store) /\
  DataStore.load "contracts" "c1" indexed_store = Some JNull /\
  fst (DataStore.save "contracts" "c1" (DataStore.Instance (Transaction.own tx_ab))
         false memory_store world0)
  = (inl RangeError, memory_store).
Proof.
  destruct (save_without_storing "contracts" "c1" indexed_store world0) as [H _].
  destruct (H eq_refl payload_ab true) as (H1 & H2 & _).
  destruct (save_without_storing "contracts" "c1" memory_store world0) as [_ H3].
  split; [reflexivity|]. split; [exact H1|]. split; [apply H2 | apply (H3 _ false)].
Defined.

Lemma query_loop_collected pattern (m : DataStore.kv) :
  intact pattern m = true ->
  forall acc, DataStore.query_loop pattern m acc = (acc ++ collected pattern m)%list.
Proof.
  induction m as [|[k v] m IH]; intros Hm acc.
  - cbn. now rewrite app_nil_r.
  - cbn [intact forallb snd fst] in Hm. apply andb_true_iff in Hm as [Hv Hm].
    unfold collected. cbn [DataStore.query_loop List.filter fst].
    destruct (String.prefix pattern k).
    + cbn [negb orb] in Hv. destruct v as [|[| | | | |props]]; try discriminate.
      rewrite (IH Hm). cbn [List.map snd data_of]. now rewrite <- app_assoc.
    + now apply IH.
Qed.

Lemma intact_setItem pattern k props (m : DataStore.kv) :
  intact pattern m = true ->
  intact pattern (DataStore.setItem k (HistoryStorage.Json (JObj props)) m) = true.
Proof.
  induction m as [|[k0 v0] m IH]; intros Hm.
  - cbn. now rewrite orb_true_r.
  - cbn [intact forallb snd fst] in Hm. apply andb_true_iff in Hm as [Hv Hm].
    cbn [DataStore.setItem]. destruct (String.eqb k0 k); cbn [intact forallb snd fst].
    + rewrite orb_true_r. exact Hm.
    + rewrite Hv. now apply IH.
Qed.

Lemma In_setItem k v (m : DataStore.kv) : In (k, v) (DataStore.setItem k v m).
Proof.
  induction m as [|[k0 v0] m IH]; [now left|].
  cbn [DataStore.setItem]. destruct (String.eqb k0 k); [now left | now right].
Qed.

(** X27.  What is saved is found by [query].  On a store whose entries
    all are texts of objects, as [save] writes them, [query(collection)]
    returns the [data] of every entry whose key starts with the collection's
    pattern, in enumeration order; a [save] keeps the entries such, and once
    it has returned [true] the value it saved is among the results of the
    [query] of its collection. *)
Theorem query_lists_saved_data
    (collection id : string) (data : JSON) (setItem_throws : bool)
    (ds : DataStore.state) (w : World) :
  backed ds = true ->
  intact (DataStore.prefix +:+ collection +:+ "_") (DataStore.entries ds) = true ->
  DataStore.query collection ds
  = collected (DataStore.prefix +:+ collection +:+ "_") (DataStore.entries ds) /\
  intact (DataStore.prefix +:+ collection +:+ "_")
         (DataStore.entries
            (snd (fst (DataStore.save collection id (DataStore.Plain data)
                         setItem_throws ds w)))) = true /\
  (fst (fst (DataStore.save collection id (DataStore.Plain data) setItem_throws ds w))
   = inr true ->
   In (Some data)
      (DataStore.query collection
         (snd (fst (DataStore.save collection id (DataStore.Plain data)
                      setItem_throws ds w))))).
Proof.
  intros Hb Hm. split; [|split].
  - unfold DataStore.query. now rewrite (query_loop_collected _ _ Hm).
  - rewrite save_plain. cbn [fst].
    destruct (DataStore.is_local ds && setItem_throws); cbn [snd]; [exact Hm|].
    rewrite entries_with_entries, Hb.
    now apply intact_setItem.
  - rewrite save_plain. cbn [fst].
    destruct (DataStore.is_local ds && setItem_throws); cbn [fst snd]; [discriminate|].
    intros _. unfold DataStore.query.
    rewrite entries_with_entries, Hb.
    rewrite query_loop_collected by (now apply intact_setItem).
    cbn [app]. unfold collected.
    set (v := HistoryStorage.Json _).
    change (Some data) with ((fun p : string * HistoryStorage.text => data_of (snd p))
                               (DataStore.key collection id, v)).
    apply in_map. apply filter_In. split; [apply In_setItem|].
    cbn [fst]. unfold DataStore.key.
    replace (DataStore.prefix +:+ collection +:+ "_" +:+ id)
      with ((DataStore.prefix +:+ collection +:+ "_") +:+ id)
      by (now rewrite !append_assoc).
    apply prefix_append.
Qed.

Lemma query_lists_saved_data_witness :
  backed memory_store = true /\
  intact "sc_contracts_" (DataStore.entries memory_store) = true /\
  DataStore.query "contracts"
    (snd (fst (DataStore.save "contracts" "c2" (DataStore.Plain payload_ba) false
       (snd (fst (DataStore.save "contracts" "c1" (DataStore.Plain payload_ab) false
                    memory_store world0))) world0)))
  = [Some payload_ab; Some payload_ba] /\
  In (Some payload_ab)
     (DataStore.query "contracts"
        (snd (fst (DataStore.save "contracts" "c1" (DataStore.Plain payload_ab) false
                     memory_store world0)))).
Proof.
  split; [reflexivity|]. split; [reflexivity|]. split; [vm_compute; reflexivity|].
  exact (proj2 (proj2 (query_lists_saved_data "contracts" "c1" payload_ab false
                         memory_store world0 eq_refl eq_refl)) eq_refl).
Defined.

End DataStoreFacts.

(* ===================================================================== *)
(** ** The generated address of a user *)
(* ===================================================================== *)

Section AddressFacts.

Lemma hex_digit_is_hex d : (d < 16)%N -> is_hex (Sha.hex_digit d) = true.
Proof.
  intros Hd. assert (exists k, (k < 16)%nat /\ d = N.of_nat k) as (k & Hk & ->).
  { exists (N.to_nat d). split; [lia | now rewrite N2Nat.id]. }
  do 16 (destruct k as [|k]; [reflexivity|]). lia.
Qed.

Lemma nibble_is_hex w i : is_hex (Sha.nibble w i) = true.
Proof.
  unfold Sha.nibble. apply hex_digit_is_hex.
  change 0xF%N with (N.ones 4). rewrite N.land_ones.
  apply N.mod_lt. discriminate.
Qed.

(** X28.  The format of a generated address.  For every id and every
    clock reading, [generateAddress] returns 42 characters: [0x] followed
    by 40 lowercase hexadecimal digits, the first 40 of the digest. *)
Theorem generateAddress_format (id : string) (now : Z) :
  String.length (User.generateAddress id now) = 42%nat /\
  substring 0 2 (User.generateAddress id now) = "0x" /\
  forallb is_hex (list_ascii_of_string (substring 2 40 (User.generateAddress id now))) = true /\
  String.prefix (substring 2 40 (User.generateAddress id now))
                (SHA256 (id +:+ Json.number_to_string now)) = true.
Proof.
  unfold User.generateAddress, SHA256, Sha.hex_of_string, Sha.hex_of_bytes.
  set (st := Sha.digest _). unfold Sha.state_hex, Sha.word_hex.
  rewrite !append_cons. change ("" +:+ ?s) with s.
  cbn [substring String.length list_ascii_of_string forallb].
  rewrite !nibble_is_hex. repeat apply conj; try reflexivity.
  cbn [String.prefix]. repeat (destruct (ascii_dec _ _); [|contradiction]). reflexivity.
Qed.

End AddressFacts.
